(** * VizGen: the response normalizer and the session state machine

    A shallow embedding of these pieces of the VizGen front end:

    - [fixMermaidCode] and [cleanJsonString] (services/geminiService.ts),
      the regex-based repair of the text returned by the model;
    - [generateVisualization] of the same file: its checks on the answer
      and the messages of the errors it throws;
    - the undo/redo version stack and the bounded history list kept by the
      [App] component (pushToStack, handleUndo, handleRedo, processPrompt,
      handleSubmit, handleRegenerate, handleNewViz, handleUpdateVizFromCode,
      loadFromHistory, confirmDelete, getCodeSnippet);
    - the display options and the palettes of the customization panel
      (components/CustomizationPanel.tsx) as the chart renderer reads them
      (components/RechartsRenderer.tsx).

    JavaScript strings are sequences of UTF-16 code units; they are modelled
    as lists of [N].  The regular expressions of the source are written as
    lists of atoms and run by a backtracking matcher that follows the
    ECMAScript semantics of the constructs the source uses (greedy and lazy
    quantifiers over character classes, capture groups, [^] under the [m]
    flag, global replacement). *)

From Stdlib Require Import List NArith ZArith Bool Lia Ascii String.
Import ListNotations.

Local Open Scope N_scope.

(* ================================================================== *)
(** * Part I: the embedding                                            *)
(* ================================================================== *)

(** ** JavaScript strings *)

Module Js.

Definition jschar := N.
Definition jsstring := list jschar.

(** Code unit of an ASCII character, and the string of an ASCII literal. *)
Definition chr (a : ascii) : jschar := N_of_ascii a.
Definition lit (s : string) : jsstring := map chr (list_ascii_of_string s).

Definition LF : jschar := 10.
Definition CR : jschar := 13.
Definition NBSP : jschar := 160.       (* U+00A0 *)
Definition QUOTE : jschar := 34.       (* the double quote *)
Definition BACKSLASH : jschar := 92.
Definition BACKTICK : jschar := 96.

Definition isChar (c : jschar) : jschar -> bool := N.eqb c.

(** LineTerminator: LF, CR, LS, PS. *)
Definition isLineTerminator (c : jschar) : bool :=
  (c =? 10) || (c =? 13) || (c =? 8232) || (c =? 8233).

(** WhiteSpace and LineTerminator: what [\s] matches and what
    String.prototype.trim removes. *)
Definition isSpace (c : jschar) : bool :=
  (c =? 9) || (c =? 11) || (c =? 12) || (c =? 32) || (c =? 160)
  || (c =? 5760) || ((8192 <=? c) && (c <=? 8202))
  || (c =? 8239) || (c =? 8287) || (c =? 12288) || (c =? 65279)
  || isLineTerminator c.

(** [\w]: ASCII letters, digits and the underscore. *)
Definition isWord (c : jschar) : bool :=
  ((65 <=? c) && (c <=? 90)) || ((97 <=? c) && (c <=? 122))
  || ((48 <=? c) && (c <=? 57)) || (c =? 95).

(** [.] without the [s] flag: anything but a line terminator. *)
Definition isDot (c : jschar) : bool := negb (isLineTerminator c).

Fixpoint eqb (a b : jsstring) : bool :=
  match a, b with
  | [], [] => true
  | x :: a', y :: b' => (x =? y) && eqb a' b'
  | _, _ => false
  end.

(** String.prototype.startsWith *)
Fixpoint startsWith (p s : jsstring) : bool :=
  match p, s with
  | [], _ => true
  | x :: p', y :: s' => (x =? y) && startsWith p' s'
  | _ :: _, [] => false
  end.

(** String.prototype.includes *)
Fixpoint includes (p s : jsstring) : bool :=
  startsWith p s ||
  match s with
  | [] => false
  | _ :: s' => includes p s'
  end.

Fixpoint trimStart (s : jsstring) : jsstring :=
  match s with
  | c :: s' => if isSpace c then trimStart s' else s
  | [] => []
  end.

Definition trimEnd (s : jsstring) : jsstring := rev (trimStart (rev s)).

(** String.prototype.trim *)
Definition trim (s : jsstring) : jsstring := trimEnd (trimStart s).

(** [s.split] at line feeds: the pieces between them; never empty. *)
Fixpoint split_lines (s : jsstring) : list jsstring :=
  match s with
  | [] => [[]]
  | c :: s' =>
      if c =? LF then [] :: split_lines s'
      else match split_lines s' with
           | l :: ls => (c :: l) :: ls
           | [] => [[c]]
           end
  end.

(** [lines.join] with a line feed. *)
Fixpoint join_lines (ls : list jsstring) : jsstring :=
  match ls with
  | [] => []
  | [l] => l
  | l :: ls' => l ++ LF :: join_lines ls'
  end.

(** [lines[0]] of a split result. *)
Definition first_line (ls : list jsstring) : jsstring := hd [] ls.

End Js.

(** ** Regular expressions *)

Module Regex.
Import Js.

(** Quantifiers of the source's patterns: [x], [x?], [x*], [x+], [x*?]. *)
Inductive quant := One | Opt | Star | Plus | LazyStar.

(** An atom is [^] (with the [m] flag) or a quantified character class,
    possibly wrapped in a capture group. *)
Inductive atom :=
| Bol
| Cls (capture : bool) (p : jschar -> bool) (q : quant).

Definition regex := list atom.

(** A literal piece of a pattern. *)
Definition str (s : string) : regex := map (fun c => Cls false (isChar c) One) (lit s).

(** [^] with the [m] flag holds at the start of the input and after a line
    terminator. *)
Definition at_line_start (prev : option jschar) : bool :=
  match prev with
  | None => true
  | Some c => isLineTerminator c
  end.

(** The character before the current position once [consumed] was read. *)
Definition last_of (consumed : jsstring) (prev : option jschar) : option jschar :=
  match rev consumed with
  | c :: _ => Some c
  | [] => prev
  end.

Section Loops.
Context {R : Type}.

(** Greedy repetition: take the longest run first and give characters
    back one at a time while the continuation fails. *)
Fixpoint greedy (p : jschar -> bool) (k : jsstring -> jsstring -> option R)
    (s : jsstring) : option R :=
  match s with
  | x :: s' =>
      if p x then
        match greedy p (fun c => k (x :: c)) s' with
        | Some r => Some r
        | None => k [] s
        end
      else k [] s
  | [] => k [] s
  end.

(** Lazy repetition: try the continuation first and take one more
    character each time it fails. *)
Fixpoint lazy (p : jschar -> bool) (k : jsstring -> jsstring -> option R)
    (s : jsstring) : option R :=
  match k [] s with
  | Some r => Some r
  | None =>
      match s with
      | x :: s' => if p x then lazy p (fun c => k (x :: c)) s' else None
      | [] => None
      end
  end.
End Loops.

(** Match [r] at the current position.  [prev] is the character before it
    (none at the start of the input).  The result is the list of captures
    and the text after the match. *)
Fixpoint match_atoms (r : regex) (prev : option jschar) (s : jsstring)
  : option (list jsstring * jsstring) :=
  match r with
  | [] => Some ([], s)
  | Bol :: r' => if at_line_start prev then match_atoms r' prev s else None
  | Cls cap p q :: r' =>
      let k := fun consumed rest =>
        match match_atoms r' (last_of consumed prev) rest with
        | Some (caps, rest') =>
            Some (if cap then consumed :: caps else caps, rest')
        | None => None
        end in
      match q with
      | One =>
          match s with
          | x :: s' => if p x then k [x] s' else None
          | [] => None
          end
      | Opt =>
          match s with
          | x :: s' =>
              if p x then
                match k [x] s' with
                | Some res => Some res
                | None => k [] s
                end
              else k [] s
          | [] => k [] s
          end
      | Star => greedy p k s
      | Plus =>
          match s with
          | x :: s' => if p x then greedy p (fun c => k (x :: c)) s' else None
          | [] => None
          end
      | LazyStar => lazy p k s
      end
  end.

(** A replacement is computed from the matched text and the captures, as
    with a replacer function; a replacement pattern such as ["$1 $2"] is
    the function that builds it. *)
Definition replacer := jsstring -> list jsstring -> jsstring.

Definition group (n : nat) (caps : list jsstring) : jsstring := nth n caps [].

(** String.prototype.replace with a global regex.  The scan moves left to
    right; [skip] counts the characters still inside the last match, and
    after an empty match the scan copies one character and goes on. *)
Fixpoint replace_from (r : regex) (f : replacer) (prev : option jschar)
    (skip : nat) (s : jsstring) : jsstring :=
  match s with
  | [] =>
      match skip, match_atoms r prev [] with
      | O, Some (caps, _) => f [] caps
      | _, _ => []
      end
  | x :: s' =>
      match skip with
      | S n => replace_from r f (Some x) n s'
      | O =>
          match match_atoms r prev s with
          | Some (caps, rest) =>
              let len := (List.length s - List.length rest)%nat in
              f (firstn len s) caps ++
              match len with
              | O => x :: replace_from r f (Some x) O s'
              | S n => replace_from r f (Some x) n s'
              end
          | None => x :: replace_from r f (Some x) O s'
          end
      end
  end.

Definition replace_all (r : regex) (f : replacer) (s : jsstring) : jsstring :=
  replace_from r f None O s.

End Regex.

(** ** The normalizer: fixMermaidCode *)

Module Normalizer.
Import Js Regex.

(** Step 1 of fixMermaidCode: escaped newlines, CR LF, non-breaking
    spaces, code fences, then trim. *)
Definition re_escaped_newline : regex := [Cls false (isChar BACKSLASH) One; Cls false (isChar (chr "n")) One].
Definition re_crlf : regex := [Cls false (isChar CR) One; Cls false (isChar LF) One].
Definition re_nbsp : regex := [Cls false (isChar NBSP) One].
Definition re_fence_mermaid : regex := str "```mermaid".
Definition re_fence : regex := str "```".

Definition normalizeEnv (code : jsstring) : jsstring :=
  trim
    (replace_all re_fence (fun _ _ => [])
      (replace_all re_fence_mermaid (fun _ _ => [])
        (replace_all re_nbsp (fun _ _ => lit " ")
          (replace_all re_crlf (fun _ _ => [LF])
            (replace_all re_escaped_newline (fun _ _ => [LF]) code))))).

(** [lines[0].trim()] *)
Definition header_of (fixed : jsstring) : jsstring :=
  trim (first_line (split_lines fixed)).

(** Class diagrams. *)

(** The pattern [enum \s+ (\w+) \s* \{] with the flag [g]. *)
Definition re_enum : regex :=
  str "enum" ++ [Cls false isSpace Plus; Cls true isWord Plus;
                 Cls false isSpace Star; Cls false (isChar (chr "{")) One].

(** The replacement [class $1 {], a line feed, four blanks and
    [<<enumeration>>]. *)
Definition enum_replacement : replacer :=
  fun _ caps => lit "class " ++ group 0 caps ++ lit " {" ++ [LF] ++ lit "    <<enumeration>>".

(** The pattern [(\w+) \s* -> \s* (\w+)] with the flag [g]. *)
Definition re_arrow : regex :=
  [Cls true isWord Plus; Cls false isSpace Star] ++ str "->" ++
  [Cls false isSpace Star; Cls true isWord Plus].

(** The replacement [$1 --|> $2]. *)
Definition arrow_replacement : replacer :=
  fun _ caps => group 0 caps ++ lit " --|> " ++ group 1 caps.

Definition isVisibility (c : jschar) : bool :=
  (c =? chr "+") || (c =? chr "-") || (c =? chr "#") || (c =? chr "~").

(** The pattern [^ (\s* ) ([+\-#~]) (\w+)] with the flags [g] and [m]
    (written here with blanks between its groups). *)
Definition re_visibility : regex :=
  [Bol; Cls true isSpace Star; Cls true isVisibility One; Cls true isWord Plus].

(** The replacement [$1$2 $3]. *)
Definition visibility_replacement : replacer :=
  fun _ caps => group 0 caps ++ group 1 caps ++ lit " " ++ group 2 caps.

Definition fixClassDiagram (fixed : jsstring) : jsstring :=
  replace_all re_visibility visibility_replacement
    (replace_all re_arrow arrow_replacement
      (replace_all re_enum enum_replacement fixed)).

(** Use case diagrams. *)

Definition notQuoteNorLF (c : jschar) : bool := negb ((c =? QUOTE) || (c =? LF)).

(** The pattern [\( ([^\x22\n]+) \)] with the flag [g]; [\x22] is the
    double quote. *)
Definition re_paren_label : regex :=
  [Cls false (isChar (chr "(")) One; Cls true notQuoteNorLF Plus; Cls false (isChar (chr ")")) One].

(** The replacer function: the match itself when the content starts with
    a double quote, else the trimmed content between quotes and
    parentheses. *)
Definition usecase_replacer : replacer :=
  fun m caps =>
    let content := group 0 caps in
    if startsWith [QUOTE] content then m
    else lit "(" ++ [QUOTE] ++ trim content ++ [QUOTE] ++ lit ")".

Definition fixUsecaseDiagram (fixed : jsstring) : jsstring :=
  replace_all re_paren_label usecase_replacer fixed.

(** Flowcharts.  The three label patterns differ in their delimiters only:
    an opening delimiter, an optional double quote, a lazy captured run of
    [.], an optional double quote and the closing delimiter, for the pairs
    of brackets, parentheses and braces. *)
Definition re_label (o c : jschar) : regex :=
  [Cls false (isChar o) One; Cls false (isChar QUOTE) Opt; Cls true isDot LazyStar;
   Cls false (isChar QUOTE) Opt; Cls false (isChar c) One].

(** The replacement: the delimiters around the quoted [$1]. *)
Definition label_replacement (o c : jschar) : replacer :=
  fun _ caps => o :: QUOTE :: group 0 caps ++ [QUOTE; c].

Definition quote_labels (o c : jschar) (line : jsstring) : jsstring :=
  replace_all (re_label o c) (label_replacement o c) line.

(** The chain of the three replacements on one line. *)
Definition protect_labels (line : jsstring) : jsstring :=
  quote_labels (chr "{") (chr "}")
    (quote_labels (chr "(") (chr ")")
      (quote_labels (chr "[") (chr "]") line)).

(** The callback of [lines.map]. *)
Definition fixFlowLine (line : jsstring) : jsstring :=
  if includes (lit "flowchart") line || includes (lit "graph") line then line
  else protect_labels line.

(** [lines.map(...).join(...)] *)
Definition fixFlowchart (lines : list jsstring) : jsstring :=
  join_lines (map fixFlowLine lines).

Definition fixMermaidCode (code : jsstring) : jsstring :=
  let fixed := normalizeEnv code in
  let lines := split_lines fixed in
  let header := trim (first_line lines) in
  if startsWith (lit "classDiagram") header then fixClassDiagram fixed
  else if startsWith (lit "usecaseDiagram") header then fixUsecaseDiagram fixed
  else if startsWith (lit "flowchart") header || startsWith (lit "graph") header
       then fixFlowchart lines
  else fixed.

(** cleanJsonString: the code fences of the answer are removed, the ones
    tagged [json] first, and the text is trimmed. *)
Definition re_fence_json : regex := str "```json".

Definition cleanJsonString (text : jsstring) : jsstring :=
  trim
    (replace_all re_fence (fun _ _ => [])
      (replace_all re_fence_json (fun _ _ => []) text)).

End Normalizer.

(** ** The session state of the App component *)

Module Session.
Import Js.
Local Open Scope Z_scope.

(** The declared type has three values; the value comes out of parsed
    JSON, and processPrompt checks it against the three, so anything else
    is kept as a fourth case. *)
Inductive VisualizationType :=
| mermaid
| recharts
| svg
| otherType (tag : jsstring).

Inductive MermaidTheme := themeDefault | themeNeutral | themeDark | themeForest | themeBase.

Inductive ToastType := success | error | info.

Inductive Status := idle | analyzing | generating | rendering.

(** What a call that may throw gives back. *)
Inductive outcome (A : Type) :=
| Returns (a : A)
| Throws (message : jsstring).
Arguments Returns {A} a.
Arguments Throws {A} message.

Set Implicit Arguments.

Section WithJson.
(** The chart configuration is whatever JSON.parse produced. *)
Variable Json : Type.
Variable JSON_parse : jsstring -> outcome Json.

Record VizResponse := mkViz {
  id : option jsstring;
  visualizationType : VisualizationType;
  title : jsstring;
  explanation : jsstring;
  originalPrompt : option jsstring;
  mermaidCode : option jsstring;
  mermaidTheme : option MermaidTheme;
  svgCode : option jsstring;
  rechartsConfig : option Json
}.

(** A history item is a VizResponse together with its prompt and its
    creation time; its id is the id of the response. *)
Record HistoryItem := mkItem {
  item_viz : VizResponse;
  item_prompt : jsstring;
  item_timestamp : Z
}.

Record Toast := mkToast { toast_message : jsstring; toast_type : ToastType }.

Record AppState := mkState {
  prompt : jsstring;
  status : Status;
  vizStack : list VizResponse;
  stackIndex : Z;
  history : list HistoryItem;
  showCode : bool;
  showSettings : bool;
  showSuggestions : bool;
  toast : option Toast;
  isFullscreen : bool;
  deleteId : option jsstring;
  editableCode : jsstring
}.

(** The state after the component mounted, with the history read from
    local storage. *)
Definition initialState (saved : list HistoryItem) : AppState :=
  mkState [] idle [] (-1) saved false false false None false None [].

(** The state setters. *)
Definition setPrompt (v : jsstring) (s : AppState) : AppState :=
  mkState v (status s) (vizStack s) (stackIndex s) (history s) (showCode s)
    (showSettings s) (showSuggestions s) (toast s) (isFullscreen s)
    (deleteId s) (editableCode s).
Definition setStatus (v : Status) (s : AppState) : AppState :=
  mkState (prompt s) v (vizStack s) (stackIndex s) (history s) (showCode s)
    (showSettings s) (showSuggestions s) (toast s) (isFullscreen s)
    (deleteId s) (editableCode s).
Definition setVizStack (v : list VizResponse) (s : AppState) : AppState :=
  mkState (prompt s) (status s) v (stackIndex s) (history s) (showCode s)
    (showSettings s) (showSuggestions s) (toast s) (isFullscreen s)
    (deleteId s) (editableCode s).
Definition setStackIndex (v : Z) (s : AppState) : AppState :=
  mkState (prompt s) (status s) (vizStack s) v (history s) (showCode s)
    (showSettings s) (showSuggestions s) (toast s) (isFullscreen s)
    (deleteId s) (editableCode s).
Definition setHistory (v : list HistoryItem) (s : AppState) : AppState :=
  mkState (prompt s) (status s) (vizStack s) (stackIndex s) v (showCode s)
    (showSettings s) (showSuggestions s) (toast s) (isFullscreen s)
    (deleteId s) (editableCode s).
Definition setShowCode (v : bool) (s : AppState) : AppState :=
  mkState (prompt s) (status s) (vizStack s) (stackIndex s) (history s) v
    (showSettings s) (showSuggestions s) (toast s) (isFullscreen s)
    (deleteId s) (editableCode s).
Definition setShowSettings (v : bool) (s : AppState) : AppState :=
  mkState (prompt s) (status s) (vizStack s) (stackIndex s) (history s)
    (showCode s) v (showSuggestions s) (toast s) (isFullscreen s)
    (deleteId s) (editableCode s).
Definition setShowSuggestions (v : bool) (s : AppState) : AppState :=
  mkState (prompt s) (status s) (vizStack s) (stackIndex s) (history s)
    (showCode s) (showSettings s) v (toast s) (isFullscreen s)
    (deleteId s) (editableCode s).
Definition setToast (v : option Toast) (s : AppState) : AppState :=
  mkState (prompt s) (status s) (vizStack s) (stackIndex s) (history s)
    (showCode s) (showSettings s) (showSuggestions s) v (isFullscreen s)
    (deleteId s) (editableCode s).
Definition setIsFullscreen (v : bool) (s : AppState) : AppState :=
  mkState (prompt s) (status s) (vizStack s) (stackIndex s) (history s)
    (showCode s) (showSettings s) (showSuggestions s) (toast s) v
    (deleteId s) (editableCode s).
Definition setDeleteId (v : option jsstring) (s : AppState) : AppState :=
  mkState (prompt s) (status s) (vizStack s) (stackIndex s) (history s)
    (showCode s) (showSettings s) (showSuggestions s) (toast s)
    (isFullscreen s) v (editableCode s).
Definition setEditableCode (v : jsstring) (s : AppState) : AppState :=
  mkState (prompt s) (status s) (vizStack s) (stackIndex s) (history s)
    (showCode s) (showSettings s) (showSuggestions s) (toast s)
    (isFullscreen s) (deleteId s) v.

(** The length of an array, as a number. *)
Definition len {A} (l : list A) : Z := Z.of_nat (List.length l).

(** [arr.slice(0, e)]: a negative end counts from the end of the array,
    and the end is clamped to the length. *)
Definition slice0 {A} (l : list A) (e : Z) : list A :=
  let final := if e <? 0 then Z.max (len l + e) 0 else Z.min e (len l) in
  firstn (Z.to_nat final) l.

(** The entry on display: vizStack[stackIndex] when the index is inside
    the stack, else null. *)
Definition currentViz (s : AppState) : option VizResponse :=
  if (0 <=? stackIndex s) && (stackIndex s <? len (vizStack s))
  then nth_error (vizStack s) (Z.to_nat (stackIndex s))
  else None.

Definition showToast (message : jsstring) (type : ToastType) (s : AppState) : AppState :=
  setToast (Some (mkToast message type)) s.

Definition pushToStack (viz : VizResponse) (s : AppState) : AppState :=
  let newStack := slice0 (vizStack s) (stackIndex s + 1) ++ [viz] in
  setStackIndex (len newStack - 1) (setVizStack newStack s).

Definition handleUndo (s : AppState) : AppState :=
  if 0 <? stackIndex s
  then showToast (lit "Undone") success (setStackIndex (stackIndex s - 1) s)
  else s.

Definition handleRedo (s : AppState) : AppState :=
  if stackIndex s <? len (vizStack s) - 1
  then showToast (lit "Redone") success (setStackIndex (stackIndex s + 1) s)
  else s.

Definition isSupported (t : VisualizationType) : bool :=
  match t with
  | mermaid | recharts | svg => true
  | otherType _ => false
  end.

(** The object spread that adds the id and the prompt to a response. *)
Definition withIdAndPrompt (newId promptText : jsstring) (r : VizResponse) : VizResponse :=
  mkViz (Some newId) (visualizationType r) (title r) (explanation r)
    (Some promptText) (mermaidCode r) (mermaidTheme r) (svgCode r)
    (rechartsConfig r).

Definition isEmpty (s : jsstring) : bool :=
  match s with [] => true | _ => false end.

(** [err.message || fallback] *)
Definition orElse (message fallback : jsstring) : jsstring :=
  if isEmpty message then fallback else message.

(** processPrompt, as one transition.  [generated] is what the awaited
    generateVisualization call gave, [newId] and [now] are the two
    readings of the clock.  The handler reads the state of the render it
    was created in; the submit control is disabled while the status is
    not idle, and the transition is taken on that state. *)
Definition processPrompt (promptText : jsstring) (isRefinement : bool)
    (generated : outcome VizResponse) (newId : jsstring) (now : Z)
    (s : AppState) : AppState :=
  if isEmpty (trim promptText) then s
  else
    let s1 := setShowSuggestions false
                (setShowSettings false (setShowCode false (setStatus analyzing s))) in
    match generated with
    | Throws message =>
        setStatus idle
          (showToast (orElse message (lit "Failed to generate visualization")) error
            (setStatus generating s1))
    | Returns response =>
        if negb (isSupported (visualizationType response)) then
          setStatus idle (setStatus generating s1)
        else
          let vizWithId := withIdAndPrompt newId promptText response in
          let s2 := setStatus rendering (setStatus generating s1) in
          let s3 :=
            match isRefinement, currentViz s with
            | true, Some _ => pushToStack vizWithId s2
            | _, _ => setStackIndex 0 (setVizStack [vizWithId] s2)
            end in
          let s4 := if eqb (prompt s) promptText then setPrompt [] s3 else s3 in
          let newHistoryItem := mkItem vizWithId promptText now in
          let s5 := setHistory (slice0 (newHistoryItem :: history s4) 5) s4 in
          setStatus idle
            (showToast
               (if isRefinement then lit "Visualization updated"
                else lit "Visualization generated") success s5)
    end.

Definition isSome {A} (o : option A) : bool :=
  match o with Some _ => true | None => false end.

(** handleSubmit: a refinement when something is on display. *)
Definition handleSubmit (generated : outcome VizResponse) (newId : jsstring)
    (now : Z) (s : AppState) : AppState :=
  processPrompt (prompt s) (isSome (currentViz s)) generated newId now s.

(** handleRegenerate: the prompt of the current entry again, from
    scratch. *)
Definition handleRegenerate (generated : outcome VizResponse) (newId : jsstring)
    (now : Z) (s : AppState) : AppState :=
  match currentViz s with
  | Some cur =>
      match originalPrompt cur with
      | Some p => if isEmpty p then s
                  else processPrompt p false generated newId now s
      | None => s
      end
  | None => s
  end.

Definition handleNewViz (s : AppState) : AppState :=
  setShowSettings false
    (setIsFullscreen false
      (setPrompt [] (setStackIndex (-1) (setVizStack [] s)))).

Definition withMermaidCode (code : jsstring) (r : VizResponse) : VizResponse :=
  mkViz (id r) (visualizationType r) (title r) (explanation r)
    (originalPrompt r) (Some code) (mermaidTheme r) (svgCode r)
    (rechartsConfig r).
Definition withSvgCode (code : jsstring) (r : VizResponse) : VizResponse :=
  mkViz (id r) (visualizationType r) (title r) (explanation r)
    (originalPrompt r) (mermaidCode r) (mermaidTheme r) (Some code)
    (rechartsConfig r).
Definition withRechartsConfig (config : Json) (r : VizResponse) : VizResponse :=
  mkViz (id r) (visualizationType r) (title r) (explanation r)
    (originalPrompt r) (mermaidCode r) (mermaidTheme r) (svgCode r)
    (Some config).

(** The body of the try block of handleUpdateVizFromCode, up to the
    value that is pushed. *)
Definition updatedVizFromCode (cur : VizResponse) (code : jsstring)
  : outcome VizResponse :=
  match visualizationType cur with
  | mermaid => Returns (withMermaidCode code cur)
  | recharts =>
      match JSON_parse code with
      | Returns parsed => Returns (withRechartsConfig parsed cur)
      | Throws message => Throws message
      end
  | svg => Returns (withSvgCode code cur)
  | otherType _ => Returns cur
  end.

Definition handleUpdateVizFromCode (s : AppState) : AppState :=
  match currentViz s with
  | None => s
  | Some cur =>
      match updatedVizFromCode cur (editableCode s) with
      | Returns updatedViz =>
          showToast (lit "Visualization updated from code") success
            (pushToStack updatedViz s)
      | Throws message =>
          showToast (lit "Invalid syntax: " ++ message) error s
      end
  end.

Definition handleCustomizationUpdate (viz : VizResponse) (s : AppState) : AppState :=
  pushToStack viz s.

Definition loadFromHistory (item : HistoryItem) (s : AppState) : AppState :=
  showToast (lit "Loaded from history") success
    (setShowSettings false
      (setShowCode false
        (setStackIndex 0 (setVizStack [item_viz item] (setPrompt [] s))))).

Definition promptDelete (target : jsstring) (s : AppState) : AppState :=
  setDeleteId (Some target) s.

Definition sameId (a : option jsstring) (b : jsstring) : bool :=
  match a with
  | Some x => eqb x b
  | None => false
  end.

Definition confirmDelete (s : AppState) : AppState :=
  match deleteId s with
  | None => s
  | Some target =>
      if isEmpty target then s
      else
        let newHistory :=
          filter (fun h => negb (sameId (id (item_viz h)) target)) (history s) in
        let s1 := setHistory newHistory s in
        let s2 :=
          match currentViz s with
          | Some cur => if sameId (id cur) target then handleNewViz s1 else s1
          | None => s1
          end in
        showToast (lit "Visualization deleted") success (setDeleteId None s2)
  end.

(** A text or [undefined]. *)
Inductive snippet :=
| Text (s : jsstring)
| Undefined.

(** [code || ''] for an optional text. *)
Definition orEmpty (code : option jsstring) : jsstring :=
  match code with
  | Some c => c
  | None => []
  end.

(** getCodeSnippet: the source text of an entry.  [JSON_stringify] is
    JSON.stringify with two blanks of indentation on a configuration; on a
    missing configuration JSON.stringify gives [undefined]. *)
Definition getCodeSnippet (JSON_stringify : Json -> jsstring)
    (viz : option VizResponse) : snippet :=
  match viz with
  | None => Text []
  | Some v =>
      match visualizationType v with
      | mermaid => Text (orEmpty (mermaidCode v))
      | recharts =>
          match rechartsConfig v with
          | Some config => Text (JSON_stringify config)
          | None => Undefined
          end
      | svg => Text (orEmpty (svgCode v))
      | otherType _ => Text []
      end
  end.

(** The file extension chosen by handleDownloadCode. *)
Definition downloadExtension (viz : option VizResponse) : jsstring :=
  match viz with
  | Some v =>
      match visualizationType v with
      | recharts => lit "json"
      | mermaid => lit "mmd"
      | _ => lit "svg"
      end
  | None => lit "svg"
  end.

(** What the effect on the history writes to local storage. *)
Definition savedHistory (s : AppState) : list HistoryItem :=
  slice0 (history s) 5.

(** The user's actions and the handlers they run.  Typing in the prompt
    box and in the code editor set the two texts; the effect that copies
    the source of the current entry into the editor is a SetEditableCode
    as well. *)
Inductive event :=
| Submit (generated : outcome VizResponse) (newId : jsstring) (now : Z)
| Regenerate (generated : outcome VizResponse) (newId : jsstring) (now : Z)
| Undo
| Redo
| NewViz
| TypePrompt (text : jsstring)
| TypeCode (text : jsstring)
| UpdateFromCode
| Customize (viz : VizResponse)
| LoadFromHistory (item : HistoryItem)
| PromptDelete (target : jsstring)
| CancelDelete
| ConfirmDelete
| CloseToast.

Definition step (e : event) (s : AppState) : AppState :=
  match e with
  | Submit g i n => handleSubmit g i n s
  | Regenerate g i n => handleRegenerate g i n s
  | Undo => handleUndo s
  | Redo => handleRedo s
  | NewViz => handleNewViz s
  | TypePrompt t => setPrompt t s
  | TypeCode t => setEditableCode t s
  | UpdateFromCode => handleUpdateVizFromCode s
  | Customize v => handleCustomizationUpdate v s
  | LoadFromHistory it => loadFromHistory it s
  | PromptDelete t => promptDelete t s
  | CancelDelete => setDeleteId None s
  | ConfirmDelete => confirmDelete s
  | CloseToast => setToast None s
  end.

Definition run (es : list event) (s : AppState) : AppState :=
  fold_left (fun st e => step e st) es s.

(** The invariant of the version stack. *)
Definition stack_ok (s : AppState) : Prop :=
  -1 <= stackIndex s <= len (vizStack s) - 1 /\
  (stackIndex s = -1 <-> vizStack s = []).

End WithJson.

Arguments Undo {Json}.
Arguments Redo {Json}.
Arguments NewViz {Json}.
Arguments TypePrompt {Json}.
Arguments TypeCode {Json}.
Arguments UpdateFromCode {Json}.
Arguments PromptDelete {Json}.
Arguments CancelDelete {Json}.
Arguments ConfirmDelete {Json}.
Arguments CloseToast {Json}.

End Session.

(** ** The service: generateVisualization *)

Module Service.
Import Js Normalizer Session.
Local Open Scope Z_scope.

(** What a catch block reads of a thrown error: its name, its message
    (errors carry a string, possibly empty) and the status fields a client
    library may set on it. *)
Record ErrorObject := mkError {
  err_name : jsstring;
  err_message : jsstring;
  err_status : option Z;
  err_response_status : option Z
}.

(** [new Error(message)] *)
Definition newError (message : jsstring) : ErrorObject :=
  mkError (lit "Error") message None None.

Definition msg_missing_key : jsstring :=
  lit "System Error: API Key is missing. Please check configuration.".
Definition msg_blocked : jsstring :=
  lit "The content was blocked due to safety settings. Please revise your prompt.".
Definition msg_empty_response : jsstring :=
  lit "The AI model returned an empty response. Please try again.".
Definition msg_mindmap : jsstring :=
  lit "The requested diagram type (Mindmap) is not supported. Please request a Flowchart, Use Case, or Class diagram instead.".
Definition msg_journey : jsstring :=
  lit "The requested diagram type (User Journey) is not supported. Please request a Sequence Diagram or Flowchart instead.".
Definition msg_malformed : jsstring :=
  lit "Failed to process the AI response. The generated visualization data was malformed.".
Definition msg_unexpected : jsstring :=
  lit "An unexpected error occurred while communicating with the AI.".
Definition msg_network : jsstring :=
  lit "Network Error: Unable to connect to Google Gemini. Please check your internet connection.".
Definition msg_400 : jsstring :=
  lit "Invalid Request: The AI could not understand the prompt. Please try rephrasing.".
Definition msg_401 : jsstring :=
  lit "Authentication Failed: Invalid API Key. Please check your .env configuration.".
Definition msg_403 : jsstring :=
  lit "Access Denied: Your API key does not have permission to access this model, or the project has restricted access.".
Definition msg_404 : jsstring :=
  lit "Model Not Found: The specified AI model version is unavailable.".
Definition msg_429 : jsstring :=
  lit "Rate Limit Exceeded: You are sending requests too quickly. Please wait a moment before trying again.".
Definition msg_500 : jsstring :=
  lit "Google Internal Error: The AI service encountered an internal error. Please try again later.".
Definition msg_503 : jsstring :=
  lit "Service Overloaded: The AI model is currently busy. Please try again in a few seconds.".
Definition msg_key_config : jsstring :=
  lit "Authentication Configuration Error: API Key is missing or invalid.".
Definition msg_quota : jsstring :=
  lit "Quota Exceeded: You have reached the usage limit for your API key.".
Definition msg_safety : jsstring :=
  lit "Safety Block: The request was blocked by safety filters.".

(** A status that counts as true: a number other than zero. *)
Definition truthy (status : option Z) : option Z :=
  match status with
  | Some n => if n =? 0 then None else Some n
  | None => None
  end.

(** [error.status || error.response?.status] *)
Definition statusOf (e : ErrorObject) : option Z :=
  match truthy (err_status e) with
  | Some n => Some n
  | None => truthy (err_response_status e)
  end.

(** The outer catch block: the message of the error that is thrown to the
    caller. *)
Definition errorMessage (e : ErrorObject) : jsstring :=
  if eqb (err_name e) (lit "TypeError") && includes (lit "fetch") (err_message e)
  then msg_network
  else
    match statusOf e with
    | Some status =>
        if status =? 400 then msg_400
        else if status =? 401 then msg_401
        else if status =? 403 then msg_403
        else if status =? 404 then msg_404
        else if status =? 429 then msg_429
        else if status =? 500 then msg_500
        else if status =? 503 then msg_503
        else if isEmpty (err_message e) then msg_unexpected
        else lit "API Error: " ++ err_message e
    | None =>
        if isEmpty (err_message e) then msg_unexpected
        else if includes (lit "API key") (err_message e) then msg_key_config
        else if includes (lit "quota") (err_message e) then msg_quota
        else if includes (lit "safety") (err_message e) then msg_safety
        else err_message e
    end.

(** What the awaited call to the model gives: it throws, or it answers
    with a text (empty when there is none) and, possibly, the reason why
    the first candidate stopped. *)
Inductive ApiResult :=
| ApiThrows (e : ErrorObject)
| ApiAnswers (text : jsstring) (finishReason : option jsstring).

Section WithParser.
Variable Json : Type.

(** JSON.parse on the cleaned text, read as a response; anything that
    makes the statements after it throw is a failure with its error. *)
Inductive Parsed :=
| ParsedAs (viz : VizResponse Json)
| ParseFails (e : ErrorObject).

Variable parseResponse : jsstring -> Parsed.

(** The statements after JSON.parse in the inner try block. *)
Definition checkDiagram (vizData : VizResponse Json) : VizResponse Json + ErrorObject :=
  match visualizationType vizData, mermaidCode vizData with
  | mermaid, Some code =>
      if isEmpty code then inl vizData
      else
        let trimmedCode := trim code in
        if startsWith (lit "mindmap") trimmedCode then inr (newError msg_mindmap)
        else if startsWith (lit "journey") trimmedCode
                || startsWith (lit "user-journey") trimmedCode
        then inr (newError msg_journey)
        else inl (withMermaidCode (fixMermaidCode code) vizData)
  | _, _ => inl vizData
  end.

(** The inner catch block: an error whose message says [not supported]
    is thrown again, any other becomes the malformed-data error. *)
Definition rethrowParseError (parseError : ErrorObject) : ErrorObject :=
  if negb (isEmpty (err_message parseError))
     && includes (lit "not supported") (err_message parseError)
  then parseError
  else newError msg_malformed.

(** The inner try statement as a whole. *)
Definition processText (text : jsstring) : VizResponse Json + ErrorObject :=
  match parseResponse (cleanJsonString text) with
  | ParsedAs vizData =>
      match checkDiagram vizData with
      | inl viz => inl viz
      | inr e => inr (rethrowParseError e)
      end
  | ParseFails e => inr (rethrowParseError e)
  end.

Definition isBlockReason (reason : option jsstring) : bool :=
  match reason with
  | Some r => eqb r (lit "SAFETY") || eqb r (lit "BLOCKLIST")
  | None => false
  end.

(** generateVisualization, given whether an API key is configured and
    what the call to the model gave. *)
Definition generateVisualization (hasApiKey : bool) (api : ApiResult)
  : outcome (VizResponse Json) :=
  if negb hasApiKey then Throws msg_missing_key
  else
    match api with
    | ApiThrows e => Throws (errorMessage e)
    | ApiAnswers text finishReason =>
        if isEmpty text then
          if isBlockReason finishReason
          then Throws (errorMessage (newError msg_blocked))
          else Throws (errorMessage (newError msg_empty_response))
        else
          match processText text with
          | inl viz => Returns viz
          | inr e => Throws (errorMessage e)
          end
    end.

End WithParser.

Arguments ParsedAs {Json} viz.
Arguments ParseFails {Json} e.
Arguments checkDiagram {Json} vizData.
Arguments processText {Json} parseResponse text.
Arguments generateVisualization {Json} parseResponse hasApiKey api.

End Service.

(** ** The customization panel and the chart renderer *)

Module Customization.
Import Js Session.

(** The three display options of a chart configuration. *)
Inductive DisplayKey := showGrid | showLegend | showTooltip.

(** The chart types of the declared type; the value comes out of parsed
    JSON, so anything else is kept as one more case. *)
Inductive ChartType :=
| bar | line | area | pie | radar | scatter | composed
| otherChart (tag : jsstring).

Record RechartsSeries := mkSeries {
  dataKey : jsstring;
  color : option jsstring;
  name : option jsstring;
  stackId : option jsstring
}.

Section WithOther.
(** The data points, and the fields of a configuration that the handlers
    and the parts of the renderer below do not read: the axis keys, the
    titles, the layout, the bar size and the font. *)
Variables Datum Other : Type.

Record RechartsConfig := mkConfig {
  cfg_type : ChartType;
  cfg_data : list Datum;
  series : list RechartsSeries;
  cfg_showGrid : option bool;
  cfg_showLegend : option bool;
  cfg_showTooltip : option bool;
  cfg_other : Other
}.

(** [config[key]] *)
Definition option_of (key : DisplayKey) (config : RechartsConfig) : option bool :=
  match key with
  | showGrid => cfg_showGrid config
  | showLegend => cfg_showLegend config
  | showTooltip => cfg_showTooltip config
  end.

(** The object spread that sets [key] to [v]. *)
Definition with_option (key : DisplayKey) (v : option bool) (config : RechartsConfig)
  : RechartsConfig :=
  match key with
  | showGrid =>
      mkConfig (cfg_type config) (cfg_data config) (series config) v
        (cfg_showLegend config) (cfg_showTooltip config) (cfg_other config)
  | showLegend =>
      mkConfig (cfg_type config) (cfg_data config) (series config)
        (cfg_showGrid config) v (cfg_showTooltip config) (cfg_other config)
  | showTooltip =>
      mkConfig (cfg_type config) (cfg_data config) (series config)
        (cfg_showGrid config) (cfg_showLegend config) v (cfg_other config)
  end.

Definition with_series (newSeries : list RechartsSeries) (config : RechartsConfig)
  : RechartsConfig :=
  mkConfig (cfg_type config) (cfg_data config) newSeries (cfg_showGrid config)
    (cfg_showLegend config) (cfg_showTooltip config) (cfg_other config).

(** handleRechartsToggle: the response handed to onUpdate, if any. *)
Definition handleRechartsToggle (key : DisplayKey) (viz : VizResponse RechartsConfig)
  : option (VizResponse RechartsConfig) :=
  match rechartsConfig viz with
  | None => None
  | Some config =>
      let v := match option_of key config with
               | None => false
               | Some b => negb b
               end in
      Some (withRechartsConfig (with_option key (Some v) config) viz)
  end.

(** [array.map] with a callback that reads the index. *)
Fixpoint map_from {A B} (f : A -> nat -> B) (i : nat) (l : list A) : list B :=
  match l with
  | [] => []
  | x :: l' => f x i :: map_from f (S i) l'
  end.

(** [colors[i % colors.length]] *)
Definition cycle (colors : list jsstring) (i : nat) : option jsstring :=
  nth_error colors (i mod List.length colors).

(** The colour handlePaletteChange gives to the series at index [i]. *)
Definition paletteColor (colors : list jsstring) (i : nat) : option jsstring :=
  if (0 <? List.length colors)%nat then cycle colors i else None.

(** handlePaletteChange: the response handed to onUpdate, if any. *)
Definition handlePaletteChange (colors : list jsstring) (viz : VizResponse RechartsConfig)
  : option (VizResponse RechartsConfig) :=
  match rechartsConfig viz with
  | None => None
  | Some config =>
      let newSeries :=
        map_from (fun s i => mkSeries (dataKey s) (paletteColor colors i) (name s) (stackId s))
                 0 (series config) in
      Some (withRechartsConfig (with_series newSeries config) viz)
  end.

(** RechartsRenderer, the three flags: an option is on unless it is
    [false]. *)
Definition shouldShow (key : DisplayKey) (config : RechartsConfig) : bool :=
  match option_of key config with
  | Some false => false
  | _ => true
  end.

(** The check mark of the panel: the option, or [true] when it is absent. *)
Definition panelChecked (key : DisplayKey) (config : RechartsConfig) : bool :=
  match option_of key config with
  | Some b => b
  | None => true
  end.

(** RechartsRenderer: a chart is drawn when there is data, the type is one
    of the seven, and, for a pie and for a scatter chart, there is a first
    series. *)
Definition renders (config : RechartsConfig) : bool :=
  match cfg_data config with
  | [] => false
  | _ :: _ =>
      match cfg_type config with
      | pie | scatter => match series config with [] => false | _ :: _ => true end
      | otherChart _ => false
      | _ => true
      end
  end.

(** RechartsRenderer: whether the drawn chart has the element of a display
    option.  The legend and the tooltip follow their flags in every chart;
    the grid follows its flag except in a pie chart, which has no grid, and
    in a radar chart, whose polar grid is always there. *)
Definition shows (key : DisplayKey) (config : RechartsConfig) : bool :=
  renders config &&
  match key, cfg_type config with
  | showGrid, pie => false
  | showGrid, radar => true
  | _, _ => shouldShow key config
  end.

(** [a || b] on colours: the empty string counts as absent. *)
Definition orColor (a b : option jsstring) : option jsstring :=
  match a with
  | Some c => if isEmpty c then b else Some c
  | None => b
  end.

(** RechartsRenderer: the colours of the drawn chart, in order.  There is
    one per series, [s.color || colors[i % colors.length]], except in a pie
    chart, where there is one per data point, all from the first series:
    [series[0].color || colors[index % colors.length]]. *)
Definition fills (themeColors : list jsstring) (config : RechartsConfig)
  : list (option jsstring) :=
  if renders config then
    match cfg_type config with
    | pie =>
        map_from (fun (_ : Datum) index =>
                    orColor (match series config with
                             | s0 :: _ => color s0
                             | [] => None
                             end)
                            (cycle themeColors index))
                 0 (cfg_data config)
    | _ =>
        map_from (fun s i => orColor (color s) (cycle themeColors i)) 0 (series config)
    end
  else [].

(** A click in the panel: the panel exists while an entry is on display,
    the handler runs on that entry, and onUpdate is
    handleCustomizationUpdate. *)
Definition click (handler : VizResponse RechartsConfig -> option (VizResponse RechartsConfig))
    (s : AppState RechartsConfig) : AppState RechartsConfig :=
  match currentViz s with
  | Some viz =>
      match handler viz with
      | Some updated => handleCustomizationUpdate updated s
      | None => s
      end
  | None => s
  end.

End WithOther.

Arguments mkConfig {Datum Other} cfg_type cfg_data series cfg_showGrid cfg_showLegend
  cfg_showTooltip cfg_other.
Arguments cfg_type {Datum Other} r.
Arguments cfg_data {Datum Other} r.
Arguments series {Datum Other} r.
Arguments option_of {Datum Other} key config.
Arguments with_option {Datum Other} key v config.
Arguments with_series {Datum Other} newSeries config.
Arguments handleRechartsToggle {Datum Other} key viz.
Arguments handlePaletteChange {Datum Other} colors viz.
Arguments shouldShow {Datum Other} key config.
Arguments panelChecked {Datum Other} key config.
Arguments renders {Datum Other} config.
Arguments shows {Datum Other} key config.
Arguments fills {Datum Other} themeColors config.
Arguments click {Datum Other} handler s.

End Customization.

(* ================================================================== *)
(** * Part II: properties of the session state machine                 *)
(* ================================================================== *)

Module SessionFacts.
Import Js Session.
Local Open Scope Z_scope.

(** A small instance for the concrete runs below: chart configurations
    are kept as their source text, and a parser that accepts the text
    [{}] only. *)
Definition parse_braces_only (code : jsstring) : outcome jsstring :=
  if eqb code (lit "{}") then Returns code
  else Throws (lit "Unexpected token").

Definition sample (t : VisualizationType) (name : string) : VizResponse jsstring :=
  mkViz (Some (lit name)) t (lit name) [] (Some (lit "draw it")) None None None None.

Definition two_entries_at (i : Z) : AppState jsstring :=
  setStackIndex i
    (setVizStack [sample mermaid "first"; sample svg "second"] (initialState [])).

Definition chart_on_display : AppState jsstring :=
  setEditableCode (lit "{ not json")
    (setStackIndex 0 (setVizStack [sample recharts "chart"] (initialState []))).

Definition item_at (n : Z) : HistoryItem jsstring :=
  mkItem (sample mermaid "old") (lit "old") n.

Definition full_history : list (HistoryItem jsstring) :=
  map item_at [5; 4; 3; 2; 1].

Section Facts.
Variable Json : Type.
Variable JSON_parse : jsstring -> outcome Json.
Implicit Types (s : AppState Json) (viz cur : VizResponse Json).

Lemma len_nonneg {A} (l : list A) : 0 <= len l.
Proof. unfold len. lia. Qed.

Lemma len_app {A} (l1 l2 : list A) : len (l1 ++ l2) = len l1 + len l2.
Proof. unfold len. rewrite length_app. lia. Qed.

Lemma slice0_firstn {A} (l : list A) (e : Z) :
  0 <= e -> slice0 l e = firstn (Z.to_nat e) l.
Proof.
  intros He. unfold slice0.
  destruct (Z.ltb_spec e 0) as [H|H]; [lia|].
  destruct (Z.le_ge_cases e (len l)) as [Hle|Hge].
  - rewrite Z.min_l by assumption. reflexivity.
  - rewrite Z.min_r by assumption. unfold len in *.
    rewrite Nat2Z.id, firstn_all.
    symmetry. apply firstn_all2. lia.
Qed.

Lemma len_slice0 {A} (l : list A) (e : Z) :
  0 <= e <= len l -> len (slice0 l e) = e.
Proof.
  intros He. rewrite slice0_firstn by lia. unfold len in *.
  rewrite length_firstn. lia.
Qed.

Lemma currentViz_Some s cur :
  currentViz s = Some cur ->
  0 <= stackIndex s < len (vizStack s) /\
  nth_error (vizStack s) (Z.to_nat (stackIndex s)) = Some cur.
Proof.
  unfold currentViz.
  destruct (Z.leb_spec 0 (stackIndex s)) as [Hlo|Hlo],
    (Z.ltb_spec (stackIndex s) (len (vizStack s))) as [Hhi|Hhi];
    simpl; intros Hnth; try discriminate. split; [lia | assumption].
Qed.

Lemma currentViz_in_range s :
  0 <= stackIndex s < len (vizStack s) ->
  currentViz s = nth_error (vizStack s) (Z.to_nat (stackIndex s)) /\
  exists cur, currentViz s = Some cur.
Proof.
  intros H. unfold currentViz.
  destruct (Z.leb_spec 0 (stackIndex s)); [|lia].
  destruct (Z.ltb_spec (stackIndex s) (len (vizStack s))); [|lia].
  simpl. split; [reflexivity|].
  destruct (nth_error (vizStack s) (Z.to_nat (stackIndex s))) eqn:E; [eauto|].
  apply nth_error_None in E. unfold len in *. lia.
Qed.

(** pushToStack, spelled out. *)
Lemma pushToStack_spec viz s :
  -1 <= stackIndex s < len (vizStack s) ->
  vizStack (pushToStack viz s)
    = firstn (Z.to_nat (stackIndex s + 1)) (vizStack s) ++ [viz] /\
  stackIndex (pushToStack viz s) = stackIndex s + 1 /\
  len (vizStack (pushToStack viz s)) = stackIndex s + 2 /\
  currentViz (pushToStack viz s) = Some viz.
Proof.
  intros H.
  assert (Hlen : len (slice0 (vizStack s) (stackIndex s + 1)) = stackIndex s + 1)
    by (apply len_slice0; lia).
  assert (Hstack : vizStack (pushToStack viz s)
            = firstn (Z.to_nat (stackIndex s + 1)) (vizStack s) ++ [viz])
    by (simpl; rewrite slice0_firstn by lia; reflexivity).
  assert (Hidx : stackIndex (pushToStack viz s) = stackIndex s + 1).
  { simpl. rewrite len_app, Hlen. unfold len. simpl. lia. }
  repeat split; try assumption.
  - simpl. rewrite len_app, Hlen. unfold len. simpl. lia.
  - unfold currentViz. rewrite Hidx.
    assert (Hl : len (vizStack (pushToStack viz s)) = stackIndex s + 2).
    { simpl. rewrite len_app, Hlen. unfold len. simpl. lia. }
    rewrite Hl.
    destruct (Z.leb_spec 0 (stackIndex s + 1)); [|lia].
    destruct (Z.ltb_spec (stackIndex s + 1) (stackIndex s + 2)); [|lia].
    simpl andb. cbv iota. rewrite Hstack.
    rewrite nth_error_app2.
    + rewrite length_firstn.
      replace (Z.to_nat (stackIndex s + 1)
               - Nat.min (Z.to_nat (stackIndex s + 1)) (List.length (vizStack s)))%nat
        with 0%nat by (unfold len in *; lia).
      reflexivity.
    + rewrite length_firstn. unfold len in *. lia.
Qed.

Lemma pushToStack_ok viz s : stack_ok s -> stack_ok (pushToStack viz s).
Proof.
  intros [Hr Hiff].
  assert (Hlt : -1 <= stackIndex s < len (vizStack s)) by lia.
  destruct (pushToStack_spec viz s Hlt) as (Hs & Hi & Hl & _).
  split; [lia|]. split; intros H.
  - lia.
  - rewrite H in Hl. unfold len in Hl. simpl in Hl. lia.
Qed.

Lemma currentViz_ext s1 s2 :
  vizStack s1 = vizStack s2 -> stackIndex s1 = stackIndex s2 ->
  currentViz s1 = currentViz s2.
Proof. intros Hs Hi. unfold currentViz. rewrite Hs, Hi. reflexivity. Qed.

Lemma handleUndo_spec s :
  vizStack (handleUndo s) = vizStack s /\
  stackIndex (handleUndo s) = (if 0 <? stackIndex s then stackIndex s - 1 else stackIndex s).
Proof. unfold handleUndo. destruct (0 <? stackIndex s); split; reflexivity. Qed.

Lemma handleRedo_spec s :
  vizStack (handleRedo s) = vizStack s /\
  stackIndex (handleRedo s)
    = (if stackIndex s <? len (vizStack s) - 1 then stackIndex s + 1 else stackIndex s).
Proof.
  unfold handleRedo. destruct (stackIndex s <? len (vizStack s) - 1); split; reflexivity.
Qed.

(** ** Undo and redo *)

(** C1, as amended.  Undo followed by redo gives back the same index, the
    same stack and the same entry on display whenever the undo has
    somewhere to go, that is for [0 < i < N], and also when the stack has
    a single entry (both steps then do nothing).  The undo itself moves
    the index down by one when [0 < i]. *)
Theorem undo_then_redo_restores s :
  0 <= stackIndex s < len (vizStack s) ->
  (stackIndex s = 0 -> len (vizStack s) = 1) ->
  stackIndex (handleRedo (handleUndo s)) = stackIndex s /\
  vizStack (handleRedo (handleUndo s)) = vizStack s /\
  currentViz (handleRedo (handleUndo s)) = currentViz s /\
  (0 < stackIndex s -> stackIndex (handleUndo s) = stackIndex s - 1).
Proof.
  intros Hrange Hone.
  destruct (handleUndo_spec s) as [Hus Hui].
  destruct (handleRedo_spec (handleUndo s)) as [Hrs Hri].
  assert (Hidx : stackIndex (handleRedo (handleUndo s)) = stackIndex s).
  { rewrite Hri, Hus, Hui.
    destruct (Z.ltb_spec 0 (stackIndex s)) as [Hpos|Hzero].
    - destruct (Z.ltb_spec (stackIndex s - 1) (len (vizStack s) - 1)); lia.
    - assert (stackIndex s = 0) as H0 by lia.
      rewrite (Hone H0), H0. reflexivity. }
  assert (Hstack : vizStack (handleRedo (handleUndo s)) = vizStack s)
    by (rewrite Hrs; exact Hus).
  repeat split; try assumption.
  - apply currentViz_ext; assumption.
  - intros Hpos. rewrite Hui. destruct (Z.ltb_spec 0 (stackIndex s)); lia.
Qed.

(** ** Failures *)

Lemma processPrompt_Throws_stack promptText isRefinement message newId now s :
  vizStack (processPrompt promptText isRefinement (Throws message) newId now s) = vizStack s /\
  stackIndex (processPrompt promptText isRefinement (Throws message) newId now s) = stackIndex s.
Proof.
  unfold processPrompt. destruct (isEmpty (trim promptText)); split; reflexivity.
Qed.

Lemma orElse_nonempty message fallback : fallback <> [] -> orElse message fallback <> [].
Proof.
  intros Hf. unfold orElse. destruct message; simpl; [assumption | discriminate].
Qed.

(** C3.  A generation call that throws leaves the version stack, the
    index and the entry on display as they were, and (the prompt being
    non-blank, so that the call was made at all) the toast is an error
    toast with a non-empty text.  A manual edit whose parsing throws does
    the same, and its toast carries the parser's message. *)
Theorem failure_keeps_stack_and_reports s :
  (forall promptText isRefinement message newId now,
     let s' := processPrompt promptText isRefinement (Throws message) newId now s in
     vizStack s' = vizStack s /\ stackIndex s' = stackIndex s /\
     currentViz s' = currentViz s /\
     (isEmpty (trim promptText) = false ->
      exists text, text <> [] /\ toast s' = Some (mkToast text error))) /\
  (forall cur message,
     currentViz s = Some cur ->
     updatedVizFromCode JSON_parse cur (editableCode s) = Throws message ->
     let s' := handleUpdateVizFromCode JSON_parse s in
     vizStack s' = vizStack s /\ stackIndex s' = stackIndex s /\
     currentViz s' = currentViz s /\
     toast s' = Some (mkToast (lit "Invalid syntax: " ++ message) error)).
Proof.
  split.
  - intros promptText isRefinement message newId now s'.
    destruct (processPrompt_Throws_stack promptText isRefinement message newId now s)
      as [Hs Hi].
    repeat split; try assumption.
    + apply currentViz_ext; assumption.
    + intros Hblank. subst s'. unfold processPrompt. rewrite Hblank.
      exists (orElse message (lit "Failed to generate visualization")). split.
      * apply orElse_nonempty. discriminate.
      * reflexivity.
  - intros cur message Hcur Hthrows s'. subst s'.
    unfold handleUpdateVizFromCode. rewrite Hcur, Hthrows.
    repeat split; try reflexivity. rewrite <- Hcur. reflexivity.
Qed.

(** ** Forward writes *)

Lemma processPrompt_refine promptText response newId now s :
  isEmpty (trim promptText) = false ->
  isSupported (visualizationType response) = true ->
  0 <= stackIndex s < len (vizStack s) ->
  vizStack (processPrompt promptText true (Returns response) newId now s)
    = vizStack (pushToStack (withIdAndPrompt newId promptText response) s) /\
  stackIndex (processPrompt promptText true (Returns response) newId now s)
    = stackIndex (pushToStack (withIdAndPrompt newId promptText response) s).
Proof.
  intros Hblank Hsup Hrange.
  destruct (currentViz_in_range s Hrange) as [_ [cur Hcur]].
  unfold processPrompt. rewrite Hblank, Hsup, Hcur. simpl negb. cbv iota.
  destruct (eqb (prompt s) promptText); split; reflexivity.
Qed.

(** C4.  pushToStack keeps the entries up to the current index, drops the
    ones after it, appends the new entry and moves the index to it: the
    new stack has length [i + 2], the new index is [i + 1] and the new
    entry is the one on display.  A successful refinement (something on
    display, a non-blank prompt and a response of a supported type) is
    such a write. *)
Theorem push_discards_then_appends viz s :
  -1 <= stackIndex s < len (vizStack s) ->
  vizStack (pushToStack viz s)
    = firstn (Z.to_nat (stackIndex s + 1)) (vizStack s) ++ [viz] /\
  stackIndex (pushToStack viz s) = stackIndex s + 1 /\
  len (vizStack (pushToStack viz s)) = stackIndex s + 2 /\
  currentViz (pushToStack viz s) = Some viz /\
  (forall promptText response newId now,
     0 <= stackIndex s ->
     isEmpty (trim promptText) = false ->
     isSupported (visualizationType response) = true ->
     let s' := processPrompt promptText true (Returns response) newId now s in
     vizStack s' = firstn (Z.to_nat (stackIndex s + 1)) (vizStack s)
                     ++ [withIdAndPrompt newId promptText response] /\
     stackIndex s' = stackIndex s + 1 /\
     len (vizStack s') = stackIndex s + 2).
Proof.
  intros Hrange.
  destruct (pushToStack_spec viz s Hrange) as (Hs & Hi & Hl & Hc).
  repeat split; try assumption;
    destruct (processPrompt_refine promptText response newId now s) as [Hps Hpi];
    try assumption; try lia;
    destruct (pushToStack_spec (withIdAndPrompt newId promptText response) s Hrange)
      as (Hs' & Hi' & Hl' & _).
  - rewrite Hps. exact Hs'.
  - rewrite Hpi. exact Hi'.
  - rewrite Hps. exact Hl'.
Qed.

(** ** The history list *)

Lemma processPrompt_history promptText isRefinement response newId now s :
  isEmpty (trim promptText) = false ->
  isSupported (visualizationType response) = true ->
  history (processPrompt promptText isRefinement (Returns response) newId now s)
    = slice0 (mkItem (withIdAndPrompt newId promptText response) promptText now
                :: history s) 5.
Proof.
  intros Hblank Hsup. unfold processPrompt. rewrite Hblank, Hsup. simpl negb. cbv iota.
  destruct isRefinement, (currentViz s), (eqb (prompt s) promptText); reflexivity.
Qed.

Lemma len_firstn_le {A} (n : nat) (l : list A) : len (firstn n l) <= Z.of_nat n.
Proof. unfold len. rewrite length_firstn. lia. Qed.

(** C7.  A successful generation puts the new item first and keeps the
    four newest of the items held before: the list has at most five items
    afterwards, nothing is lost while it held at most four, and when it
    held five the last (oldest) one is dropped.  What is written to local
    storage is that same list. *)
Theorem history_newest_first_at_most_five promptText isRefinement response newId now s :
  isEmpty (trim promptText) = false ->
  isSupported (visualizationType response) = true ->
  let item := mkItem (withIdAndPrompt newId promptText response) promptText now in
  let s' := processPrompt promptText isRefinement (Returns response) newId now s in
  history s' = item :: firstn 4 (history s) /\
  len (history s') <= 5 /\
  (len (history s) <= 4 -> history s' = item :: history s) /\
  (len (history s) = 5 -> history s' = item :: removelast (history s)) /\
  savedHistory s' = history s'.
Proof.
  intros Hblank Hsup item s'.
  assert (Hh : history s' = item :: firstn 4 (history s)).
  { subst s' item. rewrite processPrompt_history by assumption.
    rewrite slice0_firstn by lia. reflexivity. }
  assert (Hlen : len (history s') <= 5).
  { rewrite Hh. change (item :: firstn 4 (history s)) with ([item] ++ firstn 4 (history s)).
    rewrite len_app. pose proof (len_firstn_le 4 (history s)) as Hf.
    change (len [item]) with 1. change (Z.of_nat 4) with 4 in Hf. lia. }
  repeat split; try assumption.
  - intros Hle. rewrite Hh. f_equal. apply firstn_all2. unfold len in Hle. lia.
  - intros H5. rewrite Hh. f_equal. rewrite removelast_firstn_len.
    unfold len in H5. replace (Nat.pred (List.length (history s))) with 4%nat by lia.
    reflexivity.
  - unfold savedHistory. rewrite slice0_firstn by lia.
    apply firstn_all2. unfold len in Hlen. lia.
Qed.

(** ** The invariant of the version stack *)

Lemma stack_ok_ext s1 s2 :
  vizStack s1 = vizStack s2 -> stackIndex s1 = stackIndex s2 ->
  stack_ok s2 -> stack_ok s1.
Proof. unfold stack_ok. intros -> ->. trivial. Qed.

Lemma stack_ok_empty s : vizStack s = [] -> stackIndex s = -1 -> stack_ok s.
Proof.
  intros Hs Hi. unfold stack_ok. rewrite Hs, Hi. unfold len. simpl.
  split; [lia | split; reflexivity].
Qed.

Lemma stack_ok_single s viz : vizStack s = [viz] -> stackIndex s = 0 -> stack_ok s.
Proof.
  intros Hs Hi. unfold stack_ok. rewrite Hs, Hi. unfold len. simpl.
  split; [lia | split; discriminate].
Qed.

Lemma handleUndo_ok s : stack_ok s -> stack_ok (handleUndo s).
Proof.
  intros [Hr Hiff]. destruct (handleUndo_spec s) as [Hs Hi].
  unfold stack_ok. rewrite Hs, Hi.
  destruct (Z.ltb_spec 0 (stackIndex s)) as [Hpos|Hnp]; [|split; assumption].
  split; [lia|]. split; [lia|].
  intros Hnil. apply Hiff in Hnil. lia.
Qed.

Lemma handleRedo_ok s : stack_ok s -> stack_ok (handleRedo s).
Proof.
  intros [Hr Hiff]. destruct (handleRedo_spec s) as [Hs Hi].
  unfold stack_ok. rewrite Hs, Hi.
  destruct (Z.ltb_spec (stackIndex s) (len (vizStack s) - 1)) as [Hlt|Hge];
    [|split; assumption].
  split; [lia|]. split; [lia|].
  intros Hnil. rewrite Hnil in Hlt. unfold len in Hlt. simpl in Hlt. lia.
Qed.

Lemma handleNewViz_ok s : stack_ok (handleNewViz s).
Proof. apply stack_ok_empty; reflexivity. Qed.

Lemma loadFromHistory_ok item s : stack_ok (loadFromHistory item s).
Proof. apply stack_ok_single with (viz := item_viz item); reflexivity. Qed.

Lemma processPrompt_ok promptText isRefinement generated newId now s :
  stack_ok s -> stack_ok (processPrompt promptText isRefinement generated newId now s).
Proof.
  intros Hok. unfold processPrompt.
  destruct (isEmpty (trim promptText)); [assumption|].
  destruct generated as [response|message].
  - destruct (isSupported (visualizationType response)); simpl negb; cbv iota.
    + destruct isRefinement, (currentViz s) as [cur|], (eqb (prompt s) promptText);
        first [ apply stack_ok_ext
                  with (s2 := pushToStack (withIdAndPrompt newId promptText response) s);
                [reflexivity | reflexivity | apply pushToStack_ok; assumption]
              | apply stack_ok_single
                  with (viz := withIdAndPrompt newId promptText response);
                reflexivity ].
    + apply stack_ok_ext with (s2 := s); [reflexivity | reflexivity | assumption].
  - apply stack_ok_ext with (s2 := s); [reflexivity | reflexivity | assumption].
Qed.

Lemma handleUpdateVizFromCode_ok s :
  stack_ok s -> stack_ok (handleUpdateVizFromCode JSON_parse s).
Proof.
  intros Hok. unfold handleUpdateVizFromCode.
  destruct (currentViz s) as [cur|]; [|assumption].
  destruct (updatedVizFromCode JSON_parse cur (editableCode s)) as [updated|message].
  - apply stack_ok_ext with (s2 := pushToStack updated s);
      [reflexivity | reflexivity | apply pushToStack_ok; assumption].
  - apply stack_ok_ext with (s2 := s); [reflexivity | reflexivity | assumption].
Qed.

Lemma confirmDelete_ok s : stack_ok s -> stack_ok (confirmDelete s).
Proof.
  intros Hok. unfold confirmDelete.
  destruct (deleteId s) as [target|]; [|assumption].
  destruct (isEmpty target); [assumption|].
  destruct (currentViz s) as [cur|].
  - destruct (sameId (id cur) target).
    + apply stack_ok_empty; reflexivity.
    + apply stack_ok_ext with (s2 := s); [reflexivity | reflexivity | assumption].
  - apply stack_ok_ext with (s2 := s); [reflexivity | reflexivity | assumption].
Qed.

(** C8.  Every handler keeps the invariant of the version stack: the
    index stays between [-1] and the last position, and it is [-1] exactly
    when the stack is empty.  This holds for generating and refining
    (Submit, Regenerate), undo, redo, reset, manual edits, customization,
    loading from the history and deleting, and for the events that only
    touch the texts, the dialog and the toast. *)
Theorem every_step_keeps_stack_ok e s :
  stack_ok s -> stack_ok (step JSON_parse e s).
Proof.
  intros Hok. destruct e; simpl step.
  - apply processPrompt_ok; assumption.
  - unfold handleRegenerate.
    destruct (currentViz s) as [cur|]; [|assumption].
    destruct (originalPrompt cur) as [p|]; [|assumption].
    destruct (isEmpty p); [assumption|]. apply processPrompt_ok; assumption.
  - apply handleUndo_ok; assumption.
  - apply handleRedo_ok; assumption.
  - apply handleNewViz_ok.
  - exact Hok.
  - exact Hok.
  - apply handleUpdateVizFromCode_ok; assumption.
  - apply pushToStack_ok; assumption.
  - apply loadFromHistory_ok.
  - exact Hok.
  - exact Hok.
  - apply confirmDelete_ok; assumption.
  - exact Hok.
Qed.

(** ** Manual edits *)

(** C10.  With a mermaid or an svg entry on display the manual edit takes
    the text of the editor as it is, whatever it is: a new entry is pushed
    whose mermaidCode (svgCode) is that text and which is otherwise the
    entry that was on display, the stack grows to [i + 2] entries and the
    toast is a success toast.  An error can come from a recharts entry
    only, and then it is JSON.parse that threw it. *)
Theorem manual_edit_accepts_diagram_text s cur :
  currentViz s = Some cur ->
  let s' := handleUpdateVizFromCode JSON_parse s in
  (visualizationType cur = mermaid ->
     currentViz s' = Some (withMermaidCode (editableCode s) cur) /\
     mermaidCode (withMermaidCode (editableCode s) cur) = Some (editableCode s) /\
     len (vizStack s') = stackIndex s + 2 /\
     toast s' = Some (mkToast (lit "Visualization updated from code") success)) /\
  (visualizationType cur = svg ->
     currentViz s' = Some (withSvgCode (editableCode s) cur) /\
     svgCode (withSvgCode (editableCode s) cur) = Some (editableCode s) /\
     len (vizStack s') = stackIndex s + 2 /\
     toast s' = Some (mkToast (lit "Visualization updated from code") success)) /\
  (forall message,
     updatedVizFromCode JSON_parse cur (editableCode s) = Throws message ->
     visualizationType cur = recharts /\
     JSON_parse (editableCode s) = Throws message).
Proof.
  intros Hcur s'.
  destruct (currentViz_Some s cur Hcur) as [Hrange _].
  assert (Hr : -1 <= stackIndex s < len (vizStack s)) by lia.
  split; [|split].
  - intros Hty. subst s'.
    unfold handleUpdateVizFromCode, updatedVizFromCode. rewrite Hcur, Hty.
    destruct (pushToStack_spec (withMermaidCode (editableCode s) cur) s Hr)
      as (_ & _ & Hl & Hc).
    repeat split.
    + rewrite <- Hc. apply currentViz_ext; reflexivity.
    + exact Hl.
  - intros Hty. subst s'.
    unfold handleUpdateVizFromCode, updatedVizFromCode. rewrite Hcur, Hty.
    destruct (pushToStack_spec (withSvgCode (editableCode s) cur) s Hr)
      as (_ & _ & Hl & Hc).
    repeat split.
    + rewrite <- Hc. apply currentViz_ext; reflexivity.
    + exact Hl.
  - intros message Hthrows. unfold updatedVizFromCode in Hthrows.
    destruct (visualizationType cur); try discriminate.
    destruct (JSON_parse (editableCode s)); [discriminate|].
    injection Hthrows as ->. split; reflexivity.
Qed.

End Facts.

(** ** Concrete runs *)

(** C1 as the spec states it fails on the first of two entries: the undo
    does nothing there ([stackIndex > 0] is false), the redo moves on to
    the second entry. *)
Lemma undo_then_redo_from_first_of_two :
  let s := two_entries_at 0 in
  0 <= stackIndex s < len (vizStack s) /\
  stackIndex (handleRedo (handleUndo s)) = 1 /\
  stackIndex (handleRedo (handleUndo s)) <> stackIndex s /\
  currentViz (handleRedo (handleUndo s)) <> currentViz s.
Proof.
  cbv zeta. split; [vm_compute; split; [discriminate | reflexivity]|].
  split; [reflexivity|]. split; vm_compute; discriminate.
Qed.

Lemma undo_then_redo_from_second_of_two :
  let s := two_entries_at 1 in
  (0 <= stackIndex s < len (vizStack s)) /\
  (stackIndex s = 0 -> len (vizStack s) = 1) /\
  stackIndex (handleRedo (handleUndo s)) = stackIndex s /\
  vizStack (handleRedo (handleUndo s)) = vizStack s /\
  currentViz (handleRedo (handleUndo s)) = currentViz s /\
  (0 < stackIndex s -> stackIndex (handleUndo s) = stackIndex s - 1).
Proof.
  cbv zeta.
  assert (Hr : 0 <= stackIndex (two_entries_at 1) < len (vizStack (two_entries_at 1)))
    by (vm_compute; split; [discriminate | reflexivity]).
  assert (Hone : stackIndex (two_entries_at 1) = 0 -> len (vizStack (two_entries_at 1)) = 1)
    by (vm_compute; discriminate).
  split; [exact Hr|]. split; [exact Hone|].
  exact (undo_then_redo_restores _ (two_entries_at 1) Hr Hone).
Defined.

Lemma failures_on_a_chart :
  let s := chart_on_display in
  let s1 := processPrompt (lit "add a legend") true (Throws []) (lit "7") 7 s in
  let s2 := handleUpdateVizFromCode parse_braces_only s in
  (isEmpty (trim (lit "add a legend")) = false /\
   vizStack s1 = vizStack s /\ stackIndex s1 = stackIndex s /\
   currentViz s1 = currentViz s /\
   exists text, text <> [] /\ toast s1 = Some (mkToast text error)) /\
  (currentViz s = Some (sample recharts "chart") /\
   updatedVizFromCode parse_braces_only (sample recharts "chart") (editableCode s)
     = Throws (lit "Unexpected token") /\
   vizStack s2 = vizStack s /\ stackIndex s2 = stackIndex s /\
   currentViz s2 = currentViz s /\
   toast s2 = Some (mkToast (lit "Invalid syntax: Unexpected token") error)).
Proof.
  cbv zeta.
  destruct (failure_keeps_stack_and_reports _ parse_braces_only chart_on_display)
    as [Hgen Hedit].
  split.
  - split; [reflexivity|].
    destruct (Hgen (lit "add a legend") true [] (lit "7") 7) as (Hs & Hi & Hc & Ht).
    repeat split; try assumption. apply Ht. reflexivity.
  - assert (Hcur : currentViz chart_on_display = Some (sample recharts "chart"))
      by reflexivity.
    assert (Hthrows : updatedVizFromCode parse_braces_only (sample recharts "chart")
                        (editableCode chart_on_display) = Throws (lit "Unexpected token"))
      by reflexivity.
    split; [exact Hcur|]. split; [exact Hthrows|].
    exact (Hedit _ _ Hcur Hthrows).
Defined.

Lemma push_after_undo_on_two_entries :
  let s := two_entries_at 0 in
  let viz := sample svg "third" in
  let r := sample mermaid "refined" in
  let s' := processPrompt (lit "make it blue") true (Returns r) (lit "9") 9 s in
  -1 <= stackIndex s < len (vizStack s) /\
  vizStack (pushToStack viz s) = [sample mermaid "first"; viz] /\
  stackIndex (pushToStack viz s) = 1 /\
  len (vizStack (pushToStack viz s)) = 2 /\
  currentViz (pushToStack viz s) = Some viz /\
  vizStack s' = [sample mermaid "first"; withIdAndPrompt (lit "9") (lit "make it blue") r] /\
  stackIndex s' = 1 /\
  len (vizStack s') = 2.
Proof.
  cbv zeta.
  assert (Hr : -1 <= stackIndex (two_entries_at 0) < len (vizStack (two_entries_at 0)))
    by (vm_compute; split; [discriminate | reflexivity]).
  destruct (push_discards_then_appends _ (sample svg "third") (two_entries_at 0) Hr)
    as (Hs & Hi & Hl & Hc & Hrefine).
  assert (H0 : 0 <= stackIndex (two_entries_at 0)) by (vm_compute; discriminate).
  destruct (Hrefine (lit "make it blue") (sample mermaid "refined") (lit "9") 9 H0
              eq_refl eq_refl) as (Hs' & Hi' & Hl').
  repeat split; try assumption; try (vm_compute; discriminate).
Defined.

Lemma sixth_item_evicts_the_oldest :
  let s := initialState full_history in
  let r := sample mermaid "fresh" in
  let item := mkItem (withIdAndPrompt (lit "6") (lit "new") r) (lit "new") 6 in
  let s' := processPrompt (lit "new") false (Returns r) (lit "6") 6 s in
  isEmpty (trim (lit "new")) = false /\
  isSupported (visualizationType r) = true /\
  len (history s) = 5 /\
  history s' = [item; item_at 5; item_at 4; item_at 3; item_at 2] /\
  len (history s') <= 5 /\
  savedHistory s' = history s'.
Proof.
  cbv zeta.
  destruct (history_newest_first_at_most_five _ (lit "new") false (sample mermaid "fresh")
              (lit "6") 6 (initialState full_history) eq_refl eq_refl)
    as (Hh & Hlen & _ & _ & Hsaved).
  split; [reflexivity|]. split; [reflexivity|]. split; [reflexivity|].
  split; [exact Hh|]. split; [exact Hlen | exact Hsaved].
Defined.

Lemma customizing_keeps_stack_ok :
  let s := two_entries_at 0 in
  stack_ok s /\
  stack_ok (step parse_braces_only (Customize (sample svg "styled")) s).
Proof.
  cbv zeta.
  assert (Hok : stack_ok (two_entries_at 0)).
  { split; [vm_compute; split; discriminate|].
    split; vm_compute; discriminate. }
  split; [exact Hok|].
  exact (every_step_keeps_stack_ok _ parse_braces_only (Customize (sample svg "styled"))
           _ Hok).
Defined.

Lemma editing_a_diagram_with_any_text :
  let s := setEditableCode (lit "this is no diagram") (two_entries_at 0) in
  let cur := sample mermaid "first" in
  let s' := handleUpdateVizFromCode parse_braces_only s in
  currentViz s = Some cur /\
  visualizationType cur = mermaid /\
  currentViz s' = Some (withMermaidCode (lit "this is no diagram") cur) /\
  len (vizStack s') = 2 /\
  toast s' = Some (mkToast (lit "Visualization updated from code") success).
Proof.
  cbv zeta.
  assert (Hcur : currentViz (setEditableCode (lit "this is no diagram") (two_entries_at 0))
                 = Some (sample mermaid "first")) by reflexivity.
  destruct (manual_edit_accepts_diagram_text _ parse_braces_only _ _ Hcur)
    as (Hm & _ & _).
  destruct (Hm eq_refl) as (Hc & _ & Hl & Ht).
  repeat split; assumption.
Defined.

End SessionFacts.

(* ================================================================== *)
(** * Part III: properties of strings and of the matcher               *)
(* ================================================================== *)

Module StringFacts.
Import Js.

Lemma startsWith_app p r : startsWith p (p ++ r) = true.
Proof.
  induction p as [|x p IH]; simpl; [reflexivity|].
  rewrite N.eqb_refl. exact IH.
Qed.

Lemma startsWith_inv p : forall s, startsWith p s = true -> exists r, s = p ++ r.
Proof.
  induction p as [|x p IH]; intros s H.
  - exists s. reflexivity.
  - destruct s as [|y s]; simpl in H; [discriminate|].
    apply andb_true_iff in H. destruct H as [Hxy Hs].
    apply N.eqb_eq in Hxy. subst y.
    destruct (IH s Hs) as [r ->]. exists r. reflexivity.
Qed.

Lemma startsWith_nil_r p : startsWith p [] = true -> p = [].
Proof. destruct p; simpl; [reflexivity | discriminate]. Qed.

Lemma includes_here p s : startsWith p s = true -> includes p s = true.
Proof. intros H. destruct s; simpl; rewrite H; reflexivity. Qed.

Lemma includes_cons p x s : includes p s = true -> includes p (x :: s) = true.
Proof. intros H. simpl. rewrite H. apply orb_true_r. Qed.

Lemma includes_app_l p a s : includes p s = true -> includes p (a ++ s) = true.
Proof. intros H. induction a as [|x a IH]; [exact H | apply includes_cons, IH]. Qed.

(** [includes] finds an occurrence exactly when there is one. *)
Lemma includes_intro p a b : includes p (a ++ p ++ b) = true.
Proof. apply includes_app_l, includes_here, startsWith_app. Qed.

Lemma includes_inv p : forall s, includes p s = true -> exists a b, s = a ++ p ++ b.
Proof.
  induction s as [|x s IH]; intros H.
  - simpl in H. rewrite orb_false_r in H. apply startsWith_nil_r in H. subst p.
    exists [], []. reflexivity.
  - simpl in H. apply orb_true_iff in H. destruct H as [H|H].
    + destruct (startsWith_inv _ _ H) as [r Hr]. exists [], r. exact Hr.
    + destruct (IH H) as (a & b & ->). exists (x :: a), b. reflexivity.
Qed.

Lemma includes_false_cons p x s :
  includes p (x :: s) = false -> startsWith p (x :: s) = false /\ includes p s = false.
Proof. simpl. intros H. apply orb_false_iff in H. exact H. Qed.

(** A text that contains [p ++ q] contains [p]. *)
Lemma includes_prefix p q s : includes (p ++ q) s = true -> includes p s = true.
Proof.
  intros H. destruct (includes_inv _ _ H) as (a & b & ->).
  rewrite <- app_assoc. apply includes_intro.
Qed.

Lemma trimStart_suffix s : exists ws, s = ws ++ trimStart s /\ forallb isSpace ws = true.
Proof.
  induction s as [|x s IH]; simpl.
  - exists []. split; reflexivity.
  - destruct (isSpace x) eqn:E.
    + destruct IH as (ws & Hs & Hws). exists (x :: ws). split.
      * simpl. f_equal. exact Hs.
      * simpl. rewrite E. exact Hws.
    + exists []. split; reflexivity.
Qed.

(** What [trim] gives is a piece of its argument, between two runs of
    white space. *)
Lemma trim_middle s :
  exists ws1 ws2, s = ws1 ++ trim s ++ ws2 /\
                  forallb isSpace ws1 = true /\ forallb isSpace ws2 = true.
Proof.
  destruct (trimStart_suffix s) as (ws1 & Hs & Hws1).
  destruct (trimStart_suffix (rev (trimStart s))) as (ws2 & Hr & Hws2).
  exists ws1, (rev ws2). repeat split.
  - unfold trim, trimEnd. rewrite <- rev_app_distr, <- Hr, rev_involutive. exact Hs.
  - exact Hws1.
  - rewrite forallb_forall in *. intros x Hx. apply Hws2. apply in_rev. exact Hx.
Qed.

Lemma trimStart_fixed x s : isSpace x = false -> trimStart (x :: s) = x :: s.
Proof. intros H. simpl. rewrite H. reflexivity. Qed.

Lemma split_lines_nonempty s : split_lines s <> [].
Proof.
  destruct s as [|c s]; simpl; [discriminate|].
  destruct (c =? LF); [discriminate|]. destruct (split_lines s); discriminate.
Qed.

(** Joining the lines of a text gives the text back. *)
Lemma join_split s : join_lines (split_lines s) = s.
Proof.
  induction s as [|c s IH]; [reflexivity|]. simpl.
  destruct (N.eqb_spec c LF) as [->|Hc].
  - pose proof (split_lines_nonempty s) as Hne.
    destruct (split_lines s) as [|l ls] eqn:E; [contradiction|].
    change (join_lines ([] :: l :: ls)) with ([] ++ LF :: join_lines (l :: ls)).
    rewrite IH. reflexivity.
  - pose proof (split_lines_nonempty s) as Hne.
    destruct (split_lines s) as [|l ls] eqn:E; [contradiction|].
    destruct ls as [|l' ls'].
    + simpl in *. f_equal. exact IH.
    + change (join_lines ((c :: l) :: l' :: ls')) with (c :: (l ++ LF :: join_lines (l' :: ls'))).
      f_equal. exact IH.
Qed.

Lemma split_lines_no_LF s : Forall (fun l => ~ In LF l) (split_lines s).
Proof.
  induction s as [|c s IH]; simpl.
  - constructor; [intros []|constructor].
  - destruct (N.eqb_spec c LF) as [->|Hc].
    + constructor; [intros []|exact IH].
    + destruct (split_lines s) as [|l ls]; [constructor; [|constructor]|].
      * intros [H|[]]. congruence.
      * inversion IH as [|? ? Hl Hls]; subst. constructor; [|exact Hls].
        intros [H|H]; [congruence | exact (Hl H)].
Qed.

Lemma split_lines_line l : ~ In LF l -> split_lines l = [l].
Proof.
  induction l as [|c l IH]; intros H; [reflexivity|]. simpl.
  destruct (N.eqb_spec c LF) as [->|Hc]; [exfalso; apply H; left; reflexivity|].
  rewrite IH by (intros Hin; apply H; right; exact Hin). reflexivity.
Qed.

Lemma split_lines_app_LF l s :
  ~ In LF l -> split_lines (l ++ LF :: s) = l :: split_lines s.
Proof.
  induction l as [|c l IH]; intros H; simpl.
  - reflexivity.
  - destruct (N.eqb_spec c LF) as [->|Hc]; [exfalso; apply H; left; reflexivity|].
    rewrite IH by (intros Hin; apply H; right; exact Hin). reflexivity.
Qed.

(** Splitting what was joined gives the lines back, when no line holds a
    line feed and there is at least one line. *)
Lemma split_join ls :
  ls <> [] -> Forall (fun l => ~ In LF l) ls -> split_lines (join_lines ls) = ls.
Proof.
  induction ls as [|l ls IH]; intros Hne Hall; [contradiction|].
  inversion Hall as [|? ? Hl Hls]; subst.
  destruct ls as [|l' ls'].
  - simpl. apply split_lines_line. exact Hl.
  - change (join_lines (l :: l' :: ls')) with (l ++ LF :: join_lines (l' :: ls')).
    rewrite split_lines_app_LF by exact Hl. f_equal. apply IH; [discriminate | exact Hls].
Qed.

Lemma forallb_impl (p p' : jschar -> bool) l :
  (forall x, p x = true -> p' x = true) -> forallb p l = true -> forallb p' l = true.
Proof.
  intros Himp H. rewrite forallb_forall in *. intros x Hx. apply Himp, H, Hx.
Qed.

(** A piece made of characters of a class, against a text that starts with
    a known character. *)
Lemma peel_class (p : jschar -> bool) l R c R' :
  forallb p l = true -> l ++ R = c :: R' ->
  (l = [] /\ R = c :: R') \/
  (p c = true /\ exists l', l = c :: l' /\ forallb p l' = true /\ l' ++ R = R').
Proof.
  intros Hl H. destruct l as [|z l']; [left; auto|right].
  injection H as -> H. simpl in Hl. apply andb_true_iff in Hl. destruct Hl as [Hc Hl].
  split; [exact Hc|]. exists l'. auto.
Qed.

Lemma peel_not (p : jschar -> bool) l R c R' :
  forallb p l = true -> p c = false -> l ++ R = c :: R' -> l = [] /\ R = c :: R'.
Proof.
  intros Hl Hc H. destruct (peel_class p l R c R' Hl H) as [?|[Hc' _]]; [assumption|].
  congruence.
Qed.

(** A character outside a class is not inside a piece of that class. *)
Lemma locate_after (p : jschar -> bool) c : forall l A K R,
  forallb p l = true -> p c = false -> A ++ c :: K = l ++ R ->
  exists A', A = l ++ A' /\ A' ++ c :: K = R.
Proof.
  induction l as [|x l IH]; intros A K R Hl Hc H.
  - exists A. auto.
  - simpl in Hl. apply andb_true_iff in Hl. destruct Hl as [Hx Hl].
    destruct A as [|a A].
    + injection H as -> _. congruence.
    + injection H as -> H. destruct (IH _ _ _ Hl Hc H) as (A' & -> & HR).
      exists A'. auto.
Qed.

Lemma includes_trimStart x O s :
  isSpace x = false -> includes (x :: O) s = true -> includes (x :: O) (trimStart s) = true.
Proof.
  intros Hx. induction s as [|a s IH]; intros H; [exact H|].
  simpl trimStart. destruct (isSpace a) eqn:Ha; [|exact H].
  apply IH. simpl in H. apply orb_true_iff in H. destruct H as [H|H]; [|exact H].
  apply andb_true_iff in H. destruct H as [Hxa _]. apply N.eqb_eq in Hxa. congruence.
Qed.

Lemma includes_rev O s : includes O s = true -> includes (rev O) (rev s) = true.
Proof.
  intros H. destruct (includes_inv _ _ H) as (a & b & ->).
  rewrite !rev_app_distr, <- app_assoc. apply includes_intro.
Qed.

(** Trimming keeps an occurrence of a text that neither starts nor ends
    with white space. *)
Lemma includes_trim O x y s :
  hd_error O = Some x -> hd_error (rev O) = Some y ->
  isSpace x = false -> isSpace y = false ->
  includes O s = true -> includes O (trim s) = true.
Proof.
  intros Hx Hy Hsx Hsy H. unfold trim, trimEnd.
  rewrite <- (rev_involutive O). apply includes_rev.
  destruct (rev O) as [|y' O'] eqn:Hr; [discriminate|]. injection Hy as ->.
  apply includes_trimStart; [exact Hsy|].
  rewrite <- Hr. apply includes_rev.
  destruct O as [|x' O'']; [discriminate|]. injection Hx as ->.
  apply includes_trimStart; assumption.
Qed.

End StringFacts.

Module RegexFacts.
Import Js Regex StringFacts.

(** How many characters a quantified class may take. *)
Definition quant_ok (q : quant) (n : nat) : Prop :=
  match q with
  | One => n = 1%nat
  | Opt => (n <= 1)%nat
  | Plus => (1 <= n)%nat
  | Star | LazyStar => True
  end.

(** The declarative reading of a pattern: [m] is cut into one piece per
    class, each piece made of characters of the class and of a length the
    quantifier allows; [caps] are the pieces of the capturing classes. *)
Fixpoint Matches (r : regex) (prev : option jschar) (m : jsstring)
    (caps : list jsstring) : Prop :=
  match r with
  | [] => m = [] /\ caps = []
  | Bol :: r' => at_line_start prev = true /\ Matches r' prev m caps
  | Cls cap p q :: r' =>
      exists piece m' caps',
        m = piece ++ m' /\ forallb p piece = true /\
        quant_ok q (List.length piece) /\
        Matches r' (last_of piece prev) m' caps' /\
        caps = (if cap then piece :: caps' else caps')
  end.

(** The pattern of a literal text. *)
Definition literal (p : jsstring) : regex :=
  map (fun c => Cls false (isChar c) One) p.

Section LoopFacts.
Context {R : Type}.
Implicit Types (k : jsstring -> jsstring -> option R).

Lemma greedy_ext p k1 k2 :
  (forall a b, k1 a b = k2 a b) -> forall s, greedy p k1 s = greedy p k2 s.
Proof.
  intros H s. revert k1 k2 H.
  induction s as [|x s IH]; intros k1 k2 H; simpl.
  - apply H.
  - rewrite (IH (fun c => k1 (x :: c)) (fun c => k2 (x :: c))) by (intros; apply H).
    rewrite H. reflexivity.
Qed.

Lemma lazy_ext p k1 k2 :
  (forall a b, k1 a b = k2 a b) -> forall s, lazy p k1 s = lazy p k2 s.
Proof.
  intros H s. revert k1 k2 H.
  induction s as [|x s IH]; intros k1 k2 H; simpl.
  - rewrite H. reflexivity.
  - rewrite (IH (fun c => k1 (x :: c)) (fun c => k2 (x :: c))) by (intros; apply H).
    rewrite H. reflexivity.
Qed.

Lemma greedy_sound p : forall s k r,
  greedy p k s = Some r ->
  exists c rest, s = c ++ rest /\ forallb p c = true /\ k c rest = Some r.
Proof.
  induction s as [|x s IH]; intros k r H; simpl in H.
  - exists [], []. auto.
  - destruct (p x) eqn:Hp; [|exists [], (x :: s); auto].
    destruct (greedy p (fun c => k (x :: c)) s) as [r0|] eqn:G.
    + injection H as ->. destruct (IH _ _ G) as (c & rest & -> & Hc & Hk).
      exists (x :: c), rest. simpl. rewrite Hp. auto.
    + exists [], (x :: s). auto.
Qed.

Lemma lazy_sound p : forall s k r,
  lazy p k s = Some r ->
  exists c rest, s = c ++ rest /\ forallb p c = true /\ k c rest = Some r.
Proof.
  induction s as [|x s IH]; intros k r H; simpl in H.
  - destruct (k [] []) eqn:K; [|discriminate]. exists [], []. rewrite K. auto.
  - destruct (k [] (x :: s)) eqn:K; [exists [], (x :: s); rewrite K; auto|].
    destruct (p x) eqn:Hp; [|discriminate].
    destruct (IH _ _ H) as (c & rest & -> & Hc & Hk).
    exists (x :: c), rest. simpl. rewrite Hp. auto.
Qed.

(** When every character up to a stop satisfies the class and the
    continuation takes the whole run, the greedy loop gives exactly that. *)
Lemma greedy_whole_run p k run rest r :
  forallb p run = true ->
  k run rest = Some r ->
  greedy p k (run ++ rest) = match greedy p (fun c => k (run ++ c)) rest with
                             | Some r' => Some r'
                             | None => Some r
                             end.
Proof.
  revert k r. induction run as [|x run IH]; intros k r Hrun Hk.
  - simpl. destruct (greedy p (fun c => k c) rest) eqn:G.
    + rewrite <- G. apply greedy_ext. reflexivity.
    + exfalso.
      assert (G' : greedy p k rest = None)
        by (rewrite <- G; apply greedy_ext; reflexivity).
      clear G. revert k Hk G'. induction rest as [|y rest IHr]; intros k Hk G'.
      * simpl in G'. congruence.
      * simpl in G'. destruct (p y); [|congruence].
        destruct (greedy p (fun c => k (y :: c)) rest); congruence.
  - simpl in Hrun. apply andb_true_iff in Hrun. destruct Hrun as [Hx Hrun].
    simpl. rewrite Hx.
    rewrite (IH (fun c => k (x :: c)) r Hrun Hk).
    destruct (greedy p (fun c => k (x :: run ++ c)) rest); reflexivity.
Qed.

End LoopFacts.

Lemma last_of_cons x pre prev : last_of (x :: pre) prev = last_of pre (Some x).
Proof.
  unfold last_of. simpl. destruct (rev pre) as [|c l]; reflexivity.
Qed.

Lemma last_of_nil prev : last_of [] prev = prev.
Proof. reflexivity. Qed.

Lemma last_of_app_cons pre x prev : last_of (pre ++ [x]) prev = Some x.
Proof. unfold last_of. rewrite rev_app_distr. reflexivity. Qed.

(** What follows a class: the rest of the pattern, with the piece kept
    when the class captures. *)
Definition cont (cap : bool) (r' : regex) (prev : option jschar)
    (consumed rest : jsstring) : option (list jsstring * jsstring) :=
  match match_atoms r' (last_of consumed prev) rest with
  | Some (caps, rest') => Some (if cap then consumed :: caps else caps, rest')
  | None => None
  end.

Lemma match_atoms_One cap p r' prev s :
  match_atoms (Cls cap p One :: r') prev s
    = match s with
      | x :: s' => if p x then cont cap r' prev [x] s' else None
      | [] => None
      end.
Proof. reflexivity. Qed.

Lemma match_atoms_Opt cap p r' prev s :
  match_atoms (Cls cap p Opt :: r') prev s
    = match s with
      | x :: s' =>
          if p x then match cont cap r' prev [x] s' with
                      | Some res => Some res
                      | None => cont cap r' prev [] s
                      end
          else cont cap r' prev [] s
      | [] => cont cap r' prev [] s
      end.
Proof. reflexivity. Qed.

Lemma match_atoms_Star cap p r' prev s :
  match_atoms (Cls cap p Star :: r') prev s = greedy p (cont cap r' prev) s.
Proof. reflexivity. Qed.

Lemma match_atoms_Plus cap p r' prev s :
  match_atoms (Cls cap p Plus :: r') prev s
    = match s with
      | x :: s' => if p x then greedy p (fun c => cont cap r' prev (x :: c)) s' else None
      | [] => None
      end.
Proof. reflexivity. Qed.

Lemma match_atoms_LazyStar cap p r' prev s :
  match_atoms (Cls cap p LazyStar :: r') prev s = lazy p (cont cap r' prev) s.
Proof. reflexivity. Qed.

Lemma match_atoms_Bol r' prev s :
  match_atoms (Bol :: r') prev s
    = if at_line_start prev then match_atoms r' prev s else None.
Proof. reflexivity. Qed.

(** One class of a pattern takes a piece of the text. *)
Lemma match_Cls cap p q r' prev s caps rest :
  match_atoms (Cls cap p q :: r') prev s = Some (caps, rest) ->
  exists piece s' caps',
    s = piece ++ s' /\ forallb p piece = true /\ quant_ok q (List.length piece) /\
    match_atoms r' (last_of piece prev) s' = Some (caps', rest) /\
    caps = (if cap then piece :: caps' else caps').
Proof.
  set (k := fun consumed rest0 =>
              match match_atoms r' (last_of consumed prev) rest0 with
              | Some (caps0, rest') => Some (if cap then consumed :: caps0 else caps0, rest')
              | None => None
              end).
  assert (Hk : forall c s0, k c s0 = Some (caps, rest) ->
                 exists caps', match_atoms r' (last_of c prev) s0 = Some (caps', rest) /\
                               caps = (if cap then c :: caps' else caps')).
  { intros c s0. unfold k.
    destruct (match_atoms r' (last_of c prev) s0) as [[caps0 rest0]|]; [|discriminate].
    intros H. injection H as <- <-. exists caps0. auto. }
  intros H. change (match_atoms (Cls cap p q :: r') prev s)
    with (match q with
          | One => match s with
                   | x :: s' => if p x then k [x] s' else None
                   | [] => None
                   end
          | Opt => match s with
                   | x :: s' => if p x then match k [x] s' with
                                            | Some res => Some res
                                            | None => k [] s
                                            end
                                else k [] s
                   | [] => k [] s
                   end
          | Star => greedy p k s
          | Plus => match s with
                    | x :: s' => if p x then greedy p (fun c => k (x :: c)) s' else None
                    | [] => None
                    end
          | LazyStar => lazy p k s
          end) in H.
  destruct q.
  - destruct s as [|x s']; [discriminate|]. destruct (p x) eqn:Hp; [|discriminate].
    destruct (Hk _ _ H) as (caps' & Hm & Hc).
    exists [x], s', caps'. simpl. rewrite Hp. auto.
  - assert (Hnone : k [] s = Some (caps, rest) ->
              exists piece s' caps',
                s = piece ++ s' /\ forallb p piece = true /\
                quant_ok Opt (List.length piece) /\
                match_atoms r' (last_of piece prev) s' = Some (caps', rest) /\
                caps = (if cap then piece :: caps' else caps')).
    { intros H0. destruct (Hk _ _ H0) as (caps' & Hm & Hc).
      exists [], s, caps'. simpl. auto. }
    destruct s as [|x s']; [auto|]. destruct (p x) eqn:Hp; [|auto].
    destruct (k [x] s') eqn:K; [|auto].
    rewrite H in K. destruct (Hk _ _ K) as (caps' & Hm & Hc).
    exists [x], s', caps'. simpl. rewrite Hp. auto.
  - destruct (greedy_sound _ _ _ _ H) as (c & rest0 & -> & Hc & Hkc).
    destruct (Hk _ _ Hkc) as (caps' & Hm & Hcaps).
    exists c, rest0, caps'. simpl. auto.
  - destruct s as [|x s']; [discriminate|]. destruct (p x) eqn:Hp; [|discriminate].
    destruct (greedy_sound _ _ _ _ H) as (c & rest0 & -> & Hc & Hkc).
    destruct (Hk _ _ Hkc) as (caps' & Hm & Hcaps).
    exists (x :: c), rest0, caps'. simpl. rewrite Hp.
    repeat split; auto. lia.
  - destruct (lazy_sound _ _ _ _ H) as (c & rest0 & -> & Hc & Hkc).
    destruct (Hk _ _ Hkc) as (caps' & Hm & Hcaps).
    exists c, rest0, caps'. simpl. auto.
Qed.

(** The matcher is sound for the declarative reading. *)
Lemma match_atoms_sound r : forall prev s caps rest,
  match_atoms r prev s = Some (caps, rest) ->
  exists m, s = m ++ rest /\ Matches r prev m caps.
Proof.
  induction r as [|a r IH]; intros prev s caps rest H.
  - simpl in H. injection H as <- <-. exists []. simpl. auto.
  - destruct a as [|cap p q].
    + simpl in H. destruct (at_line_start prev) eqn:B; [|discriminate].
      destruct (IH _ _ _ _ H) as (m & -> & HM). exists m. simpl. auto.
    + destruct (match_Cls _ _ _ _ _ _ _ _ H) as (piece & s' & caps' & -> & Hp & Hq & Hm & Hc).
      destruct (IH _ _ _ _ Hm) as (m & -> & HM).
      exists (piece ++ m). split; [apply app_assoc|].
      simpl. exists piece, m, caps'. auto.
Qed.

(** ** Global replacement *)

Lemma replace_from_nil r f prev :
  replace_from r f prev O [] = match match_atoms r prev [] with
                               | Some (caps, _) => f [] caps
                               | None => []
                               end.
Proof. reflexivity. Qed.

Lemma replace_from_skip r f : forall pre prev s,
  replace_from r f prev (List.length pre) (pre ++ s)
    = replace_from r f (last_of pre prev) O s.
Proof.
  induction pre as [|x pre IH]; intros prev s.
  - reflexivity.
  - rewrite last_of_cons. simpl. apply IH.
Qed.

Lemma replace_from_no_match r f prev x s :
  match_atoms r prev (x :: s) = None ->
  replace_from r f prev O (x :: s) = x :: replace_from r f (Some x) O s.
Proof. intros H. simpl. rewrite H. reflexivity. Qed.

Lemma replace_from_cons r f prev x s :
  replace_from r f prev O (x :: s)
    = match match_atoms r prev (x :: s) with
      | Some (caps, rest) =>
          f (firstn (List.length (x :: s) - List.length rest) (x :: s)) caps ++
          match (List.length (x :: s) - List.length rest)%nat with
          | O => x :: replace_from r f (Some x) O s
          | S n => replace_from r f (Some x) n s
          end
      | None => x :: replace_from r f (Some x) O s
      end.
Proof. reflexivity. Qed.

Lemma replace_from_match r f prev s caps rest m :
  match_atoms r prev s = Some (caps, rest) ->
  s = m ++ rest -> m <> [] ->
  replace_from r f prev O s = f m caps ++ replace_from r f (last_of m prev) O rest.
Proof.
  intros H -> Hm. destruct m as [|x m]; [contradiction|].
  change ((x :: m) ++ rest) with (x :: (m ++ rest)) in *.
  rewrite replace_from_cons, H.
  replace (List.length (x :: m ++ rest) - List.length rest)%nat
    with (S (List.length m))
    by (change (List.length (x :: m ++ rest)) with (S (List.length (m ++ rest)));
        rewrite length_app; lia).
  change (firstn (S (List.length m)) (x :: m ++ rest))
    with (x :: firstn (List.length m) (m ++ rest)).
  rewrite firstn_app, Nat.sub_diag, firstn_all. simpl firstn. rewrite app_nil_r.
  rewrite replace_from_skip, last_of_cons. reflexivity.
Qed.

(** ** Literal patterns *)

Lemma match_literal p : forall prev s,
  match_atoms (literal p) prev s
    = if startsWith p s then Some ([], skipn (List.length p) s) else None.
Proof.
  induction p as [|x p IH]; intros prev s.
  - reflexivity.
  - destruct s as [|y s]; [reflexivity|].
    simpl. unfold isChar. destruct (x =? y); [|reflexivity].
    simpl. fold (literal p). rewrite IH. destruct (startsWith p s); reflexivity.
Qed.

(** Replacing a literal text that does not occur changes nothing. *)
Lemma replace_literal_absent p f :
  p <> [] -> forall s prev,
  includes p s = false -> replace_from (literal p) f prev O s = s.
Proof.
  intros Hp. induction s as [|x s IH]; intros prev H.
  - rewrite replace_from_nil, match_literal.
    destruct p; [contradiction | reflexivity].
  - apply includes_false_cons in H. destruct H as [Hhere Hlater].
    rewrite replace_from_no_match by (rewrite match_literal, Hhere; reflexivity).
    rewrite IH by assumption. reflexivity.
Qed.

(** ** Occurrences that survive a global replacement *)

(** No match starts at any position of [T], whatever follows it. *)
Fixpoint unmatched (r : regex) (prev : option jschar) (T B : jsstring) : Prop :=
  match T with
  | [] => True
  | x :: T' => match_atoms r prev (x :: T' ++ B) = None /\ unmatched r (Some x) T' B
  end.

Lemma unmatched_copy r f : forall T prev B,
  unmatched r prev T B ->
  replace_from r f prev O (T ++ B) = T ++ replace_from r f (last_of T prev) O B.
Proof.
  induction T as [|x T IH]; intros prev B H; [reflexivity|].
  destruct H as [Hx HT]. simpl app.
  rewrite replace_from_no_match by exact Hx.
  rewrite IH by exact HT. rewrite last_of_cons. reflexivity.
Qed.

Lemma unmatched_suffix r : forall K S prev B,
  unmatched r prev (K ++ S) B -> unmatched r (last_of K prev) S B.
Proof.
  induction K as [|x K IH]; intros S prev B H; [exact H|].
  destruct H as [_ H]. rewrite last_of_cons. apply IH, H.
Qed.

Lemma unmatched_app r : forall K S prev B,
  unmatched r prev K (S ++ B) -> unmatched r (last_of K prev) S B ->
  unmatched r prev (K ++ S) B.
Proof.
  induction K as [|x K IH]; intros S prev B HK HS; [exact HS|].
  destruct HK as [Hx HK]. rewrite last_of_cons in HS. split.
  - rewrite <- app_assoc. exact Hx.
  - apply IH; assumption.
Qed.

Lemma last_of_app A K prev prev' : K <> [] -> last_of (A ++ K) prev = last_of K prev'.
Proof.
  intros HK. destruct (exists_last HK) as (K' & x & ->).
  rewrite app_assoc, !last_of_app_cons. reflexivity.
Qed.

Section Survive.
Variables (r : regex) (f : replacer) (O T : jsstring).

Hypothesis nonempty_match : forall prev s caps rest,
  match_atoms r prev s = Some (caps, rest) -> exists m, s = m ++ rest /\ m <> [].

(** The scan arrives at the occurrence. *)
Hypothesis at_O : forall prev B,
  includes T (replace_from r f prev 0%nat (O ++ B)) = true.

(** A match starts before the occurrence and ends in it or after it. *)
Hypothesis entering : forall prev A B caps rest m,
  A <> [] ->
  match_atoms r prev (A ++ O ++ B) = Some (caps, rest) ->
  A ++ O ++ B = m ++ rest -> (List.length A < List.length m)%nat ->
  includes T (f m caps ++ replace_from r f (last_of m prev) 0%nat rest) = true.

Lemma survives_from : forall n A prev B,
  (List.length A <= n)%nat ->
  includes T (replace_from r f prev 0%nat (A ++ O ++ B)) = true.
Proof.
  induction n as [|n IH]; intros A prev B Hn.
  - destruct A; [apply at_O | simpl in Hn; lia].
  - destruct A as [|a A]; [apply at_O|].
    destruct (match_atoms r prev ((a :: A) ++ O ++ B)) as [[caps rest]|] eqn:Hm.
    + destruct (nonempty_match _ _ _ _ Hm) as (m & Hs & Hne).
      rewrite (replace_from_match r f prev _ caps rest m Hm Hs Hne).
      destruct (Nat.lt_ge_cases (List.length (a :: A)) (List.length m)) as [Hlt|Hge].
      * apply (entering prev (a :: A) B caps rest m); [discriminate | | |]; assumption.
      * destruct (app_eq_app _ _ _ _ Hs) as [l [[HA Hrest]|[Hm' HOB]]].
        -- rewrite Hrest. apply includes_app_l.
           rewrite app_assoc, <- app_assoc. apply IH.
           assert (Hl : List.length (a :: A) = List.length (m ++ l)) by (rewrite HA; reflexivity).
           rewrite length_app in Hl. destruct m; [contradiction|]. simpl in *. lia.
        -- assert (Hl : List.length m = List.length ((a :: A) ++ l)) by (rewrite Hm'; reflexivity).
           rewrite length_app in Hl. destruct l as [|y l]; [|simpl in Hl, Hge; lia].
           rewrite app_nil_r in Hm'. simpl in HOB. subst m rest.
           apply includes_app_l.
           change (O ++ B) with ([] ++ O ++ B). apply IH. simpl. lia.
    + change ((a :: A) ++ O ++ B) with (a :: (A ++ O ++ B)) in *.
      rewrite replace_from_no_match by exact Hm.
      apply includes_cons. apply IH. simpl in Hn. lia.
Qed.

(** An occurrence of [O] in the text leaves an occurrence of [T] in the
    result. *)
Lemma survives s :
  includes O s = true -> includes T (replace_all r f s) = true.
Proof.
  intros H. destruct (includes_inv _ _ H) as (A & B & ->).
  apply (survives_from (List.length A)). apply Nat.le_refl.
Qed.

End Survive.

(** A pattern with a class that must take a character matches no empty
    text. *)
Definition mandatory (a : atom) : bool :=
  match a with
  | Cls _ _ One | Cls _ _ Plus => true
  | _ => false
  end.

Lemma Matches_nonempty r : forall prev m caps,
  existsb mandatory r = true -> Matches r prev m caps -> m <> [].
Proof.
  induction r as [|a r IH]; intros prev m caps Hex HM; [discriminate|].
  destruct a as [|cap p q].
  - destruct HM as [_ HM]. exact (IH _ _ _ Hex HM).
  - destruct HM as (piece & m' & caps' & -> & _ & Hq & HM & _).
    destruct q; simpl in Hq, Hex;
      try (destruct piece; [simpl in Hq; lia | discriminate]);
      intros Happ; apply app_eq_nil in Happ; destruct Happ as [_ ->];
      exact (IH _ _ _ Hex HM eq_refl).
Qed.

Lemma match_nonempty r prev s caps rest :
  existsb mandatory r = true ->
  match_atoms r prev s = Some (caps, rest) -> exists m, s = m ++ rest /\ m <> [].
Proof.
  intros Hex H. destruct (match_atoms_sound _ _ _ _ _ H) as (m & Hs & HM).
  exists m. split; [exact Hs | exact (Matches_nonempty _ _ _ _ Hex HM)].
Qed.

(** ** Literal patterns and occurrences *)

(** Two texts that differ at a position both have. *)
Fixpoint clash (a b : jsstring) : bool :=
  match a, b with
  | x :: a', y :: b' => negb (x =? y) || clash a' b'
  | _, _ => false
  end.

Fixpoint suffixes (l : jsstring) : list jsstring :=
  match l with
  | [] => []
  | x :: l' => (x :: l') :: suffixes l'
  end.

Lemma clash_startsWith : forall a b B,
  clash a b = true -> startsWith a (b ++ B) = false.
Proof.
  induction a as [|x a IH]; intros b B H; [discriminate|].
  destruct b as [|y b]; [discriminate|]. simpl in *.
  destruct (x =? y); simpl in *; [apply IH, H | reflexivity].
Qed.

Lemma suffixes_in : forall A K, K <> [] -> In K (suffixes (A ++ K)).
Proof.
  induction A as [|a A IH]; intros K HK.
  - destruct K; [contradiction | left; reflexivity].
  - right. apply IH, HK.
Qed.

Lemma literal_copy l0 L' f : forall T prev B,
  ~ In l0 T ->
  replace_from (literal (l0 :: L')) f prev 0%nat (T ++ B)
    = T ++ replace_from (literal (l0 :: L')) f (last_of T prev) 0%nat B.
Proof.
  intros T prev B H. apply unmatched_copy. revert prev.
  induction T as [|x T IH]; intros prev; [exact I|]. split.
  - rewrite match_literal. simpl.
    destruct (N.eqb_spec l0 x) as [->|Hx]; [exfalso; apply H; left; reflexivity|].
    reflexivity.
  - apply IH. intros Hin. apply H. right. exact Hin.
Qed.

(** Replacing a literal text by another keeps the occurrences of [O] when
    the literal does not start with a character of [O] and none of its
    proper suffixes can run into the beginning [O1] of [O]. *)
Lemma skipn_exact {A} (p r : list A) : skipn (List.length p) (p ++ r) = r.
Proof. induction p as [|x p IH]; [reflexivity | exact IH]. Qed.

Lemma literal_survives l0 L' R O1 O2 s :
  ~ In l0 (O1 ++ O2) ->
  forallb (fun K => clash K O1) (suffixes L') = true ->
  includes (O1 ++ O2) s = true ->
  includes (O1 ++ O2) (replace_all (literal (l0 :: L')) (fun _ _ => R) s) = true.
Proof.
  intros Hhead Hclash. apply survives.
  - intros prev s0 caps rest H. rewrite match_literal in H.
    destruct (startsWith (l0 :: L') s0) eqn:Hs; [|discriminate].
    destruct (startsWith_inv _ _ Hs) as [r0 ->].
    rewrite skipn_exact in H. injection H as <- <-.
    exists (l0 :: L'). split; [reflexivity | discriminate].
  - intros prev B. rewrite literal_copy by exact Hhead.
    apply (includes_intro (O1 ++ O2) []).
  - intros prev A B caps rest m HA Hm Hs Hlen. exfalso.
    rewrite match_literal in Hm.
    destruct (startsWith (l0 :: L') (A ++ (O1 ++ O2) ++ B)) eqn:Hst; [|discriminate].
    destruct (startsWith_inv _ _ Hst) as [r0 Hr0].
    rewrite Hr0, skipn_exact in Hm. injection Hm as _ Hrest.
    assert (Hm : m = l0 :: L').
    { rewrite Hr0 in Hs. subst r0.
      apply app_inv_tail in Hs. symmetry. exact Hs. }
    subst m. destruct (app_eq_app _ _ _ _ Hs) as [l [[HA' _]|[HL HOB]]].
    + assert (Hl : List.length A = List.length ((l0 :: L') ++ l)) by (rewrite HA'; reflexivity).
      rewrite length_app in Hl. lia.
    + destruct l as [|y l].
      { rewrite app_nil_r in HL. rewrite HL in Hlen. lia. }
      destruct A as [|a A]; [contradiction|].
      injection HL as _ HL'.
      assert (Hin : In (y :: l) (suffixes L'))
        by (rewrite HL'; apply suffixes_in; discriminate).
      rewrite forallb_forall in Hclash. specialize (Hclash _ Hin).
      pose proof (clash_startsWith _ _ (O2 ++ B) Hclash) as Hno.
      rewrite app_assoc, HOB, startsWith_app in Hno. discriminate.
Qed.

(** ** Patterns that end with a capture the replacement ends with *)

Section TailCapture.
Variables (r : regex) (f : replacer) (alpha isE q : jschar -> bool).

(** What a match looks like: some text, a character of the class [isE],
    characters of the class [q] and a last piece [w]; all of it is made
    of characters of the class [alpha], and the replacement ends with
    [w]. *)
Hypothesis shape : forall prev s caps rest,
  match_atoms r prev s = Some (caps, rest) ->
  exists X1 e X2 w g,
    s = (X1 ++ e :: X2 ++ w) ++ rest /\
    f (X1 ++ e :: X2 ++ w) caps = g ++ w /\
    forallb alpha (X1 ++ e :: X2 ++ w) = true /\
    isE e = true /\ forallb q X2 = true.

Lemma shape_nonempty prev s caps rest :
  match_atoms r prev s = Some (caps, rest) -> exists m, s = m ++ rest /\ m <> [].
Proof.
  intros H. destruct (shape _ _ _ _ H) as (X1 & e & X2 & w & g & Hs & _).
  exists (X1 ++ e :: X2 ++ w). split; [exact Hs|].
  destruct X1; discriminate.
Qed.

(** No match starts in a stretch without [isE] characters that is followed
    by a character outside [alpha]. *)
Lemma no_E_unmatched : forall U sepc rest prev,
  alpha sepc = false -> forallb (fun x => negb (isE x)) U = true ->
  unmatched r prev U (sepc :: rest).
Proof.
  induction U as [|x U IH]; intros sepc rest prev Hsep HU; [exact I|].
  simpl in HU. apply andb_true_iff in HU. destruct HU as [Hx HU].
  split; [|apply IH; assumption].
  destruct (match_atoms r prev (x :: U ++ sepc :: rest)) as [[caps rest']|] eqn:Hm;
    [|reflexivity].
  exfalso. destruct (shape _ _ _ _ Hm) as (X1 & e & X2 & w & g & Hs & _ & Halpha & HE & _).
  change (x :: U ++ sepc :: rest) with ((x :: U) ++ sepc :: rest) in Hs.
  destruct (app_eq_app _ _ _ _ Hs) as [l [[HU' _]|[Hm' Hsep']]].
  - assert (Hin : In e (x :: U)) by (rewrite HU'; rewrite <- app_assoc; apply in_elt).
    assert (HnE : forallb (fun x => negb (isE x)) (x :: U) = true)
      by (simpl; rewrite Hx, HU; reflexivity).
    rewrite forallb_forall in HnE. specialize (HnE _ Hin). rewrite HE in HnE. discriminate.
  - destruct l as [|y l].
    + rewrite app_nil_r in Hm'.
      assert (Hin : In e (x :: U)) by (rewrite <- Hm'; apply in_elt).
      assert (HnE : forallb (fun x => negb (isE x)) (x :: U) = true)
        by (simpl; rewrite Hx, HU; reflexivity).
      rewrite forallb_forall in HnE. specialize (HnE _ Hin). rewrite HE in HnE. discriminate.
    + injection Hsep' as -> _.
      rewrite Hm', forallb_app in Halpha. apply andb_true_iff in Halpha.
      destruct Halpha as [_ Halpha]. simpl in Halpha. rewrite Hsep in Halpha. discriminate.
Qed.

Section Target.
Variables (t0 : jschar) (T1' : jsstring) (sepc : jschar) (T2 : jsstring).
Let T1 := t0 :: T1'.
Let T := T1 ++ sepc :: T2.

Hypothesis head_not_q : q t0 = false.
Hypothesis sep_not_alpha : alpha sepc = false.
Hypothesis T1_no_E : forallb (fun x => negb (isE x)) T1 = true.
Hypothesis tail_unmatched : forall B, unmatched r (last_of T1 None) (sepc :: T2) B.

Lemma target_unmatched prev B : unmatched r prev T B.
Proof.
  unfold T. apply unmatched_app.
  - apply no_E_unmatched; assumption.
  - pose proof (last_of_app [] T1 prev None) as Hlast. simpl app in Hlast.
    rewrite Hlast by discriminate. apply tail_unmatched.
Qed.

Lemma tail_capture_entering prev A B caps rest m :
  A <> [] ->
  match_atoms r prev (A ++ T ++ B) = Some (caps, rest) ->
  A ++ T ++ B = m ++ rest -> (List.length A < List.length m)%nat ->
  includes T (f m caps ++ replace_from r f (last_of m prev) 0%nat rest) = true.
Proof.
  intros HA Hm Hs Hlen.
  destruct (shape _ _ _ _ Hm) as (X1 & e & X2 & w & g & Hs' & Hf & Halpha & HE & Hq).
  assert (Hmeq : m = X1 ++ e :: X2 ++ w).
  { rewrite Hs in Hs'. apply app_inv_tail in Hs'. exact Hs'. }
  rewrite <- Hmeq in Hf, Halpha. clear Hs'.
  destruct (app_eq_app _ _ _ _ Hs) as [K [[HA' _]|[HmK HTB]]].
  { assert (Hl : List.length A = List.length (m ++ K)) by (rewrite HA'; reflexivity).
    rewrite length_app in Hl. lia. }
  assert (HK : K <> []).
  { intros ->. rewrite app_nil_r in HmK. rewrite HmK in Hlen. lia. }
  (* the match ends in T1 *)
  assert (Hin1 : exists l2, T1 = K ++ l2 /\ rest = l2 ++ sepc :: T2 ++ B).
  { unfold T in HTB. rewrite <- app_assoc in HTB.
    change ((sepc :: T2) ++ B) with (sepc :: T2 ++ B) in HTB.
    destruct (app_eq_app _ _ _ _ HTB) as [l2 [[HT1 Hrest]|[HK' Hsep]]].
    - exists l2. split; assumption.
    - destruct l2 as [|y l2].
      + exists []. rewrite app_nil_r in HK'. simpl in Hsep.
        split; [rewrite app_nil_r; symmetry; exact HK' | symmetry; exact Hsep].
      + exfalso. injection Hsep as -> _.
        rewrite HmK, HK', !forallb_app in Halpha.
        apply andb_true_iff in Halpha. destruct Halpha as [_ Halpha].
        apply andb_true_iff in Halpha. destruct Halpha as [_ Halpha].
        simpl in Halpha. rewrite sep_not_alpha in Halpha. discriminate. }
  destruct Hin1 as (l2 & HT1 & Hrest).
  assert (HKnoE : forall x, In x K -> isE x = false).
  { intros x Hx. pose proof T1_no_E as HnE. rewrite HT1, forallb_app in HnE.
    apply andb_true_iff in HnE. destruct HnE as [HnE _].
    rewrite forallb_forall in HnE. specialize (HnE _ Hx).
    destruct (isE x); [discriminate | reflexivity]. }
  assert (HKhead : exists K', K = t0 :: K').
  { destruct K as [|k K']; [contradiction|]. unfold T1 in HT1.
    injection HT1 as -> _. exists K'. reflexivity. }
  destruct HKhead as [K' HK'].
  (* the part of the match inside T1 is the end of the last piece *)
  assert (Hw : exists l0, w = l0 ++ K).
  { assert (Heq : (X1 ++ e :: X2) ++ w = A ++ K).
    { rewrite <- HmK, Hmeq, <- app_assoc. reflexivity. }
    destruct (app_eq_app _ _ _ _ Heq) as [l3 [[HX HK3]|[HA3 Hw]]].
    - destruct l3 as [|y l3]; [exists []; symmetry; exact HK3|].
      exfalso. rewrite HK' in HK3. injection HK3 as <- HK3.
      destruct (app_eq_app _ _ _ _ HX) as [l4 [[HX1 He]|[HA4 He]]].
      + assert (Hin : In e K).
        { rewrite HK'. rewrite HK3.
          change (t0 :: l3 ++ w) with ((t0 :: l3) ++ w).
          apply in_or_app. left. rewrite He. apply in_elt. }
        rewrite (HKnoE _ Hin) in HE. discriminate.
      + destruct l4 as [|y l4].
        * simpl in He. injection He as -> _.
          assert (Hin : In t0 K) by (rewrite HK'; left; reflexivity).
          rewrite (HKnoE _ Hin) in HE. discriminate.
        * injection He as _ HX2. rewrite HX2, forallb_app in Hq.
          apply andb_true_iff in Hq. destruct Hq as [_ Hq].
          simpl in Hq. rewrite head_not_q in Hq. discriminate.
    - exists l3. exact Hw. }
  destruct Hw as [l0 Hw].
  rewrite Hf, Hw, Hrest.
  assert (Hun : unmatched r (last_of m prev) (l2 ++ sepc :: T2) B).
  { rewrite HmK, (last_of_app A K prev prev) by exact HK.
    apply unmatched_suffix.
    replace (K ++ l2 ++ sepc :: T2) with T
      by (unfold T; rewrite HT1, <- app_assoc; reflexivity).
    apply target_unmatched. }
  replace (l2 ++ sepc :: T2 ++ B) with ((l2 ++ sepc :: T2) ++ B)
    by (rewrite <- app_assoc; reflexivity).
  rewrite (unmatched_copy r f _ _ _ Hun).
  replace ((g ++ l0 ++ K) ++ (l2 ++ sepc :: T2) ++
           replace_from r f (last_of (l2 ++ sepc :: T2) (last_of m prev)) 0%nat B)
    with ((g ++ l0) ++ T ++
          replace_from r f (last_of (l2 ++ sepc :: T2) (last_of m prev)) 0%nat B).
  - apply includes_intro.
  - unfold T. rewrite HT1. rewrite <- !app_assoc. reflexivity.
Qed.

(** An occurrence of [T] is still there after the replacement. *)
Lemma tail_capture_survives s :
  includes T s = true -> includes T (replace_all r f s) = true.
Proof.
  apply survives.
  - apply shape_nonempty.
  - intros prev B. rewrite (unmatched_copy r f _ _ _ (target_unmatched prev B)).
    apply (includes_intro T []).
  - apply tail_capture_entering.
Qed.

End Target.
End TailCapture.

Lemma greedy_run_stop {R} p (k : jsstring -> jsstring -> option R) run y rest r :
  forallb p run = true -> p y = false -> k run (y :: rest) = Some r ->
  greedy p k (run ++ y :: rest) = Some r.
Proof.
  intros Hrun Hy Hk. rewrite (greedy_whole_run p k run (y :: rest) r Hrun Hk).
  simpl. rewrite Hy, app_nil_r, Hk. reflexivity.
Qed.

Lemma match_literal_prefix p r' : forall prev s,
  match_atoms (literal p ++ r') prev (p ++ s) = match_atoms r' (last_of p prev) s.
Proof.
  induction p as [|x p IH]; intros prev s; [reflexivity|].
  change (literal (x :: p) ++ r') with (Cls false (isChar x) One :: (literal p ++ r')).
  change ((x :: p) ++ s) with (x :: (p ++ s)).
  rewrite match_atoms_One. unfold isChar at 1. rewrite N.eqb_refl.
  unfold cont. rewrite IH.
  change (last_of [x] prev) with (Some x). rewrite (last_of_cons x p prev).
  destruct (match_atoms r' (last_of p (Some x)) s) as [[caps rest]|]; reflexivity.
Qed.

Lemma greedy_stop {R} p (k : jsstring -> jsstring -> option R) y rest :
  p y = false -> greedy p k (y :: rest) = k [] (y :: rest).
Proof. intros H. simpl. rewrite H. reflexivity. Qed.

End RegexFacts.

(* ================================================================== *)
(** * Part IV: properties of the normalizer                            *)
(* ================================================================== *)

Module NormalizerFacts.
Import Js Regex Normalizer StringFacts RegexFacts.

(** Some inputs for the concrete runs. *)
Definition sample_flow : jsstring :=
  lit "graph TD" ++ [LF] ++ lit "A[Start] --> B{Is it?}" ++ [LF]
    ++ lit "B -->|yes| C(Done)".

Definition sample_subgraph : jsstring :=
  lit "flowchart TD" ++ [LF] ++ lit "subgraph S[My Label]".

Definition sample_sequence : jsstring :=
  lit "sequenceDiagram" ++ [CR; LF] ++ lit "A->>B: hi".

Definition sample_pie : jsstring := lit "pie title Pets".

Definition sample_enums : jsstring :=
  lit "classDiagram" ++ [LF] ++ lit "enum Foo {" ++ [LF] ++ lit "}" ++ [LF]
    ++ lit "enum Bar".

Definition sample_class : jsstring :=
  lit "classDiagram" ++ [LF] ++ lit "class Shape {" ++ [LF] ++ lit "+area()" ++ [LF]
    ++ lit "}" ++ [LF] ++ lit "Circle -> Shape" ++ [LF] ++ lit "enum Color {" ++ [LF]
    ++ lit "RED" ++ [LF] ++ lit "}".

(** The characters the arrow pattern and the visibility pattern can
    match. *)
Definition arrow_alphabet (x : jschar) : bool :=
  isWord x || isSpace x || isChar (chr "-") x || isChar (chr ">") x.

Definition after_dash (x : jschar) : bool := isSpace x || isChar (chr ">") x.

Definition visibility_alphabet (x : jschar) : bool :=
  isSpace x || isVisibility x || isWord x.

(** ** Texts that no family rule applies to *)

Lemma replace_all_literal_absent p f s :
  p <> [] -> includes p s = false -> replace_all (literal p) f s = s.
Proof. intros Hp H. apply replace_literal_absent; assumption. Qed.

(** A text without escaped newlines, CR LF pairs, non-breaking spaces and
    code fences is only trimmed by the first step. *)
Lemma normalizeEnv_clean code :
  includes [BACKSLASH; chr "n"] code = false ->
  includes [CR; LF] code = false ->
  includes [NBSP] code = false ->
  includes (lit "```") code = false ->
  normalizeEnv code = trim code.
Proof.
  intros Hn Hcrlf Hnbsp Hfence. unfold normalizeEnv.
  change re_escaped_newline with (literal [BACKSLASH; chr "n"]).
  change re_crlf with (literal [CR; LF]).
  change re_nbsp with (literal [NBSP]).
  change re_fence_mermaid with (literal (lit "```mermaid")).
  change re_fence with (literal (lit "```")).
  rewrite (replace_all_literal_absent [BACKSLASH; chr "n"]) by (assumption || discriminate).
  rewrite (replace_all_literal_absent [CR; LF]) by (assumption || discriminate).
  rewrite (replace_all_literal_absent [NBSP]) by (assumption || discriminate).
  rewrite (replace_all_literal_absent (lit "```mermaid")).
  - rewrite (replace_all_literal_absent (lit "```")) by (assumption || discriminate).
    reflexivity.
  - discriminate.
  - destruct (includes (lit "```mermaid") code) eqn:E; [|reflexivity].
    change (lit "```mermaid") with (lit "```" ++ lit "mermaid") in E.
    apply includes_prefix in E. congruence.
Qed.

(** C6, as amended.  When the first line of the normalized text begins
    none of the three families, what comes back is the text after the
    first step (escaped newlines and CR LF pairs turned into line feeds,
    non-breaking spaces into blanks, code fences removed, white space
    trimmed at both ends) and nothing more.  It is the input itself when
    the input holds none of these and has no white space at its ends. *)
Theorem no_family_returns_normalized_text code :
  startsWith (lit "classDiagram") (header_of (normalizeEnv code)) = false ->
  startsWith (lit "usecaseDiagram") (header_of (normalizeEnv code)) = false ->
  startsWith (lit "flowchart") (header_of (normalizeEnv code)) = false ->
  startsWith (lit "graph") (header_of (normalizeEnv code)) = false ->
  fixMermaidCode code = normalizeEnv code /\
  (includes [BACKSLASH; chr "n"] code = false ->
   includes [CR; LF] code = false ->
   includes [NBSP] code = false ->
   includes (lit "```") code = false ->
   trim code = code ->
   fixMermaidCode code = code).
Proof.
  intros Hclass Husecase Hflow Hgraph.
  assert (Hfix : fixMermaidCode code = normalizeEnv code).
  { unfold fixMermaidCode. unfold header_of in *.
    rewrite Hclass, Husecase, Hflow, Hgraph. reflexivity. }
  split; [exact Hfix|].
  intros Hn Hcrlf Hnbsp Hfence Htrim.
  rewrite Hfix, normalizeEnv_clean by assumption. exact Htrim.
Qed.

(** ** The label patterns as a scan of the line *)

(** A closing delimiter [c] comes before any line terminator. *)
Fixpoint closes (c : jschar) (s : jsstring) : bool :=
  match s with
  | [] => false
  | y :: s' => isChar c y || (isDot y && closes c s')
  end.

(** The end of a label: an optional double quote and the closing
    delimiter; what is left after them. *)
Definition label_end (c : jschar) (s : jsstring) : option jsstring :=
  match s with
  | [] => None
  | y :: s' =>
      if isChar c y then Some s'
      else if isChar QUOTE y && startsWith [c] s' then Some (tl s')
      else None
  end.

(** The lazy capture: the shortest run of [.] characters that is followed
    by the end of a label; the capture and what is left after the label. *)
Fixpoint label_body (c : jschar) (s : jsstring) : option (jsstring * jsstring) :=
  match label_end c s with
  | Some r => Some ([], r)
  | None =>
      match s with
      | y :: s' =>
          if isDot y then
            match label_body c s' with
            | Some (cap, r) => Some (y :: cap, r)
            | None => None
            end
          else None
      | [] => None
      end
  end.

(** The text after the optional opening double quote. *)
Definition after_quote (s : jsstring) : jsstring :=
  match s with
  | y :: s' => if isChar QUOTE y then s' else s
  | [] => []
  end.

(** The same rewriting as one pass over the line, character by character.
    Outside a label the pass copies; at an opening delimiter whose label
    closes it goes on in [Opened]; in [Opened] it makes sure a double
    quote follows the delimiter; in [Inside] it copies the label and puts
    a double quote before the closing delimiter, unless, in [InsideQ], one
    was just copied. *)
Inductive mode := Outside | Opened | Inside | InsideQ.

Definition inside_step (c : jschar) (quoted : bool) (y : jschar) : jsstring * mode :=
  if isChar c y then ((if quoted then [y] else [QUOTE; y]), Outside)
  else if isChar QUOTE y then ([y], InsideQ)
  else ([y], Inside).

Definition label_step (o c : jschar) (m : mode) (y : jschar) (s' : jsstring)
  : jsstring * mode :=
  match m with
  | Outside => ([y], if isChar o y && closes c s' then Opened else Outside)
  | Opened =>
      if isChar QUOTE y then ([y], Inside)
      else (QUOTE :: fst (inside_step c false y), snd (inside_step c false y))
  | Inside => inside_step c false y
  | InsideQ => inside_step c true y
  end.

Fixpoint label_run (o c : jschar) (m : mode) (s : jsstring) : jsstring :=
  match s with
  | [] => []
  | y :: s' =>
      fst (label_step o c m y s') ++ label_run o c (snd (label_step o c m y s')) s'
  end.

(** [t] is [s] with double quotes put in at some places. *)
Inductive qins : jsstring -> jsstring -> Prop :=
| qins_nil : qins [] []
| qins_keep x s t : qins s t -> qins (x :: s) (x :: t)
| qins_quote s t : qins s t -> qins s (QUOTE :: t).

Section Labels.
Variables o c : jschar.
Hypothesis c_not_quote : c <> QUOTE.
Hypothesis o_not_quote : o <> QUOTE.

Lemma isChar_true a b : isChar a b = true -> a = b.
Proof. apply N.eqb_eq. Qed.

Lemma isChar_c_quote : isChar c QUOTE = false.
Proof. apply N.eqb_neq. exact c_not_quote. Qed.

Lemma isChar_o_quote : isChar o QUOTE = false.
Proof. apply N.eqb_neq. exact o_not_quote. Qed.

Lemma match_label_end prev s :
  match_atoms [Cls false (isChar QUOTE) Opt; Cls false (isChar c) One] prev s
    = match label_end c s with
      | Some r => Some ([], r)
      | None => None
      end.
Proof.
  rewrite match_atoms_Opt. unfold cont. rewrite !match_atoms_One. unfold cont.
  destruct s as [|y s']; [reflexivity|].
  unfold label_end.
  destruct (isChar QUOTE y) eqn:Hq.
  - apply isChar_true in Hq. subst y. rewrite isChar_c_quote.
    rewrite match_atoms_One.
    destruct s' as [|z t]; [reflexivity|].
    simpl startsWith. simpl tl. fold (isChar c z).
    destruct (isChar c z); reflexivity.
  - destruct (isChar c y); reflexivity.
Qed.

Lemma lazy_label_body : forall s (k : jsstring -> jsstring -> option (list jsstring * jsstring)) g,
  (forall cns rest, k cns rest = match label_end c rest with
                                 | Some r => Some (g cns, r)
                                 | None => None
                                 end) ->
  lazy isDot k s = match label_body c s with
                   | Some (cap, r) => Some (g cap, r)
                   | None => None
                   end.
Proof.
  induction s as [|y s IH]; intros k g Hk.
  - simpl. rewrite Hk. reflexivity.
  - cbn [lazy label_body]. rewrite Hk.
    destruct (label_end c (y :: s)) as [r|]; [reflexivity|].
    destruct (isDot y); [|reflexivity].
    rewrite (IH (fun c0 => k (y :: c0)) (fun cns => g (y :: cns))) by (intros; apply Hk).
    destruct (label_body c s) as [[cap r]|]; reflexivity.
Qed.

Lemma match_label_body prev s :
  match_atoms [Cls true isDot LazyStar; Cls false (isChar QUOTE) Opt;
               Cls false (isChar c) One] prev s
    = match label_body c s with
      | Some (cap, r) => Some ([cap], r)
      | None => None
      end.
Proof.
  rewrite match_atoms_LazyStar.
  apply lazy_label_body with (g := fun cns => [cns]).
  intros cns rest. unfold cont. rewrite match_label_end.
  destruct (label_end c rest); reflexivity.
Qed.

Lemma label_end_quote s : label_end c s = None -> label_end c (QUOTE :: s) = None.
Proof.
  intros H. unfold label_end. rewrite isChar_c_quote.
  assert (Hs : startsWith [c] s = false).
  { destruct s as [|z t]; [reflexivity|]. unfold label_end in H.
    destruct (isChar c z) eqn:E; [discriminate|].
    simpl. unfold isChar in E. rewrite E. reflexivity. }
  rewrite Hs, andb_false_r. reflexivity.
Qed.

Lemma label_body_quote s : label_body c s = None -> label_body c (QUOTE :: s) = None.
Proof.
  intros H. cbn [label_body].
  assert (He : label_end c s = None).
  { destruct s as [|z t]; [reflexivity|]. cbn [label_body] in H.
    destruct (label_end c (z :: t)); [discriminate | reflexivity]. }
  rewrite (label_end_quote _ He). rewrite H. destruct (isDot QUOTE); reflexivity.
Qed.

(** The whole pattern at one position. *)
Lemma match_label prev x s :
  match_atoms (re_label o c) prev (x :: s)
    = if isChar o x
      then match label_body c (after_quote s) with
           | Some (cap, r) => Some ([cap], r)
           | None => None
           end
      else None.
Proof.
  unfold re_label. rewrite match_atoms_One. destruct (isChar o x); [|reflexivity].
  unfold cont at 1. rewrite match_atoms_Opt. unfold cont.
  destruct s as [|y s'].
  - rewrite !match_label_body. simpl. reflexivity.
  - rewrite !match_label_body.
    unfold after_quote. destruct (isChar QUOTE y) eqn:Hq.
    + destruct (label_body c s') as [[cap r]|] eqn:Hb; [reflexivity|].
      apply isChar_true in Hq. subst y.
      rewrite (label_body_quote _ Hb). reflexivity.
    + destruct (label_body c (y :: s')) as [[cap r]|]; reflexivity.
Qed.

Lemma match_label_nil prev : match_atoms (re_label o c) prev [] = None.
Proof. reflexivity. Qed.

Lemma startsWith_one z t : startsWith [c] (z :: t) = isChar c z.
Proof. simpl. apply andb_true_r. Qed.

Lemma closes_label_body : forall s,
  closes c s = match label_body c s with Some _ => true | None => false end.
Proof.
  induction s as [|y s IH]; [reflexivity|].
  cbn [closes label_body]. unfold label_end.
  destruct (isChar c y) eqn:Hc; [reflexivity|]. rewrite orb_false_l.
  destruct (isChar QUOTE y) eqn:Hq.
  - apply isChar_true in Hq. subst y.
    change (isDot QUOTE) with true. rewrite andb_true_l.
    destruct s as [|z t]; [reflexivity|].
    rewrite startsWith_one, andb_true_l.
    destruct (isChar c z) eqn:Hz.
    + cbn [closes]. rewrite Hz. reflexivity.
    + rewrite IH. destruct (label_body c (z :: t)) as [[cap r]|]; reflexivity.
  - rewrite andb_false_l. destruct (isDot y); [|reflexivity].
    rewrite andb_true_l, IH. destruct (label_body c s) as [[cap r]|]; reflexivity.
Qed.

Lemma closes_after_quote s : closes c (after_quote s) = closes c s.
Proof.
  destruct s as [|y s']; [reflexivity|]. unfold after_quote.
  destruct (isChar QUOTE y) eqn:Hq; [|reflexivity].
  apply isChar_true in Hq. subst y.
  cbn [closes]. rewrite isChar_c_quote. reflexivity.
Qed.

Lemma label_body_suffix : forall s cap r,
  label_body c s = Some (cap, r) -> exists m, s = m ++ r /\ m <> [].
Proof.
  induction s as [|y s IH]; intros cap r H; [discriminate|].
  cbn [label_body] in H. unfold label_end in H.
  destruct (isChar c y).
  - injection H as <- <-. exists [y]. split; [reflexivity | discriminate].
  - destruct (isChar QUOTE y && startsWith [c] s) eqn:E.
    + injection H as <- <-. apply andb_true_iff in E. destruct E as [_ E].
      destruct s as [|z t]; [discriminate|].
      exists [y; z]. split; [reflexivity | discriminate].
    + destruct (isDot y); [|discriminate].
      destruct (label_body c s) as [[cap' r']|] eqn:Hb; [|discriminate].
      injection H as <- <-. destruct (IH _ _ eq_refl) as (m & -> & _).
      exists (y :: m). split; [reflexivity | discriminate].
Qed.

Lemma insideQ_eq s :
  startsWith [c] s = false -> label_run o c InsideQ s = label_run o c Inside s.
Proof.
  destruct s as [|y s']; [reflexivity|]. rewrite startsWith_one. intros H.
  cbn [label_run label_step]. unfold inside_step. rewrite H. reflexivity.
Qed.

Lemma inside_run : forall s cap r,
  label_body c s = Some (cap, r) ->
  label_run o c Inside s = cap ++ QUOTE :: c :: label_run o c Outside r.
Proof.
  induction s as [|y s IH]; intros cap r H; [discriminate|].
  cbn [label_body] in H. unfold label_end in H.
  cbn [label_run label_step]. unfold inside_step.
  destruct (isChar c y) eqn:Hc.
  - injection H as <- <-. apply isChar_true in Hc. subst y. reflexivity.
  - destruct (isChar QUOTE y) eqn:Hq.
    + apply isChar_true in Hq. subst y. rewrite andb_true_l in H.
      destruct (startsWith [c] s) eqn:Hs.
      * injection H as <- <-. destruct s as [|z t]; [discriminate|].
        rewrite startsWith_one in Hs.
        cbn [fst snd label_run label_step]. unfold inside_step. rewrite Hs.
        apply isChar_true in Hs. subst z. reflexivity.
      * change (isDot QUOTE) with true in H. cbv iota in H.
        destruct (label_body c s) as [[cap' r']|] eqn:Hb; [|discriminate].
        injection H as <- <-. cbn [fst snd].
        rewrite insideQ_eq by exact Hs. rewrite (IH _ _ eq_refl). reflexivity.
    + rewrite andb_false_l in H. destruct (isDot y); [|discriminate].
      destruct (label_body c s) as [[cap' r']|] eqn:Hb; [|discriminate].
      injection H as <- <-. cbn [fst snd]. rewrite (IH _ _ eq_refl). reflexivity.
Qed.

Lemma opened_run s cap r :
  label_body c (after_quote s) = Some (cap, r) ->
  label_run o c Opened s = QUOTE :: cap ++ QUOTE :: c :: label_run o c Outside r.
Proof.
  destruct s as [|y s']; [discriminate|]. unfold after_quote.
  cbn [label_run label_step].
  destruct (isChar QUOTE y) eqn:Hq; intros H.
  - apply isChar_true in Hq. subst y. cbn [fst snd].
    rewrite (inside_run _ _ _ H). reflexivity.
  - rewrite <- (inside_run _ _ _ H). reflexivity.
Qed.

(** The global replacement of one label pattern is the pass over the
    line. *)
Lemma replace_label_run : forall n s prev,
  (List.length s <= n)%nat ->
  replace_from (re_label o c) (label_replacement o c) prev O s
    = label_run o c Outside s.
Proof.
  induction n as [|n IH]; intros s prev Hn.
  - destruct s; [reflexivity | simpl in Hn; lia].
  - destruct s as [|x s]; [reflexivity|].
    assert (Hs : (List.length s <= n)%nat) by (simpl in Hn; lia).
    cbn [label_run label_step fst snd].
    destruct (match_atoms (re_label o c) prev (x :: s)) as [[caps rest]|] eqn:Hm.
    + rewrite match_label in Hm.
      destruct (isChar o x) eqn:Ho; [|discriminate].
      destruct (label_body c (after_quote s)) as [[cap r]|] eqn:Hb; [|discriminate].
      injection Hm as <- <-.
      assert (Hcl : closes c s = true)
        by (rewrite <- closes_after_quote, closes_label_body, Hb; reflexivity).
      rewrite Hcl. simpl andb. cbv iota.
      destruct (label_body_suffix _ _ _ Hb) as (m & Hm & Hne).
      assert (Hsplit : exists q, s = q ++ after_quote s).
      { destruct s as [|y s']; [exists []; reflexivity|]. unfold after_quote.
        destruct (isChar QUOTE y); [exists [y] | exists []]; reflexivity. }
      destruct Hsplit as [q Hq].
      assert (Hwhole : x :: s = (x :: q ++ m) ++ r).
      { rewrite Hq at 1. rewrite Hm. simpl. rewrite <- app_assoc. reflexivity. }
      rewrite (replace_from_match (re_label o c) (label_replacement o c) prev
                 (x :: s) [cap] r (x :: q ++ m));
        [| rewrite match_label, Ho, Hb; reflexivity | exact Hwhole | discriminate].
      rewrite IH.
      * rewrite (opened_run _ _ _ Hb). apply isChar_true in Ho. subst x.
        unfold label_replacement, group. simpl nth. simpl.
        rewrite <- app_assoc. reflexivity.
      * assert (Hl : List.length (x :: s) = List.length ((x :: q ++ m) ++ r))
          by (rewrite <- Hwhole; reflexivity).
        rewrite length_app in Hl. simpl in Hl, Hn. lia.
    + rewrite replace_from_no_match by exact Hm. rewrite IH by exact Hs.
      rewrite match_label in Hm.
      destruct (isChar o x) eqn:Ho; [|reflexivity].
      assert (Hcl : closes c s = false).
      { rewrite <- closes_after_quote, closes_label_body.
        destruct (label_body c (after_quote s)) as [[cap r]|]; [discriminate | reflexivity]. }
      rewrite Hcl. reflexivity.
Qed.

Lemma quote_labels_run line : quote_labels o c line = label_run o c Outside line.
Proof. apply (replace_label_run (List.length line)). apply Nat.le_refl. Qed.

(** ** Inserted double quotes *)

Lemma qins_refl s : qins s s.
Proof. induction s; constructor; assumption. Qed.

Lemma qins_trans : forall t u, qins t u -> forall s, qins s t -> qins s u.
Proof.
  induction 1 as [|x t u Htu IH|t u Htu IH]; intros s Hst.
  - exact Hst.
  - inversion Hst; subst.
    + apply qins_keep, IH. assumption.
    + apply qins_quote, IH. assumption.
  - apply qins_quote, IH. exact Hst.
Qed.

Lemma qins_app_quote pre s t :
  Forall (eq QUOTE) pre -> qins s t -> qins s (pre ++ t).
Proof.
  induction 1 as [|q pre Hq Hpre IH]; intros H; [exact H|].
  subst q. simpl. apply qins_quote, IH, H.
Qed.

(** Every step of the pass copies its character, after some double
    quotes. *)
Lemma label_step_shape m y s' :
  exists pre, fst (label_step o c m y s') = pre ++ [y] /\ Forall (eq QUOTE) pre.
Proof.
  destruct m; unfold label_step, inside_step; cbn [fst].
  - exists []. auto.
  - destruct (isChar QUOTE y).
    + exists []. auto.
    + destruct (isChar c y); [exists [QUOTE; QUOTE]; auto|].
      destruct (isChar QUOTE y); exists [QUOTE]; auto.
  - destruct (isChar c y); [exists [QUOTE]; auto|].
    destruct (isChar QUOTE y); exists []; auto.
  - destruct (isChar c y); [exists []; auto|].
    destruct (isChar QUOTE y); exists []; auto.
Qed.

Lemma label_run_qins : forall s m, qins s (label_run o c m s).
Proof.
  induction s as [|y s IH]; intros m; [constructor|].
  cbn [label_run].
  destruct (label_step_shape m y s) as (pre & -> & Hpre).
  rewrite <- app_assoc. apply qins_app_quote; [exact Hpre|].
  simpl. apply qins_keep, IH.
Qed.

Lemma qins_closes s t : qins s t -> closes c s = closes c t.
Proof.
  induction 1 as [|x s t H IH|s t H IH]; [reflexivity| |].
  - cbn [closes]. rewrite IH. reflexivity.
  - cbn [closes]. rewrite isChar_c_quote. exact IH.
Qed.

Lemma qins_no_new_char x s t : qins s t -> x <> QUOTE -> In x t -> In x s.
Proof.
  intros H Hx. induction H as [|y s t H IH|s t H IH]; intros Hin.
  - exact Hin.
  - destruct Hin as [->|Hin]; [left; reflexivity | right; apply IH, Hin].
  - destruct Hin as [Hq|Hin]; [congruence | apply IH, Hin].
Qed.

Lemma qins_startsWith p : ~ In QUOTE p -> forall s t,
  qins s t -> startsWith p t = true -> startsWith p s = true.
Proof.
  induction p as [|y p IH]; intros Hp s t H Hst; [reflexivity|].
  assert (Hp' : ~ In QUOTE p) by (intros Hin; apply Hp; right; exact Hin).
  assert (Hy : y <> QUOTE) by (intros ->; apply Hp; left; reflexivity).
  induction H as [|x s t H IHq|s t H IHq].
  - discriminate.
  - simpl in *. apply andb_true_iff in Hst. destruct Hst as [Hyx Hrest].
    rewrite Hyx. simpl. exact (IH Hp' _ _ H Hrest).
  - simpl in Hst. apply andb_true_iff in Hst. destruct Hst as [Hyq _].
    apply N.eqb_eq in Hyq. contradiction.
Qed.

(** Putting double quotes in creates no occurrence of a text without
    double quotes. *)
Lemma qins_includes p : ~ In QUOTE p -> forall s t,
  qins s t -> includes p t = true -> includes p s = true.
Proof.
  intros Hp s t H. induction H as [|x s t H IH|s t H IH]; intros Hin.
  - exact Hin.
  - simpl in Hin. apply orb_true_iff in Hin. destruct Hin as [Hin|Hin].
    + apply includes_here. apply (qins_startsWith p Hp _ (x :: t)); [|exact Hin].
      apply qins_keep, H.
    + apply includes_cons, IH, Hin.
  - simpl in Hin. apply orb_true_iff in Hin. destruct Hin as [Hin|Hin].
    + apply includes_here. apply (qins_startsWith p Hp _ (QUOTE :: t)); [|exact Hin].
      apply qins_quote, H.
    + apply IH, Hin.
Qed.

(** ** Lines the pass leaves as they are *)

Lemma fixed_Inside_InsideQ s :
  label_run o c Inside s = s -> label_run o c InsideQ s = s.
Proof.
  destruct s as [|y s']; [reflexivity|].
  cbn [label_run label_step]. unfold inside_step.
  destruct (isChar c y) eqn:Hc; [|trivial].
  cbn [fst snd]. intros H. injection H as Hq _.
  apply isChar_true in Hc. congruence.
Qed.

Lemma label_run_stable : forall s t, qins s t ->
  forall m, label_run o c m s = s -> label_run o c m t = t.
Proof.
  induction 1 as [|x s t H IH|s t H IH]; intros m Hfix.
  - reflexivity.
  - revert Hfix. cbn [label_run]. destruct m; cbn [label_step].
    + rewrite (qins_closes _ _ H). cbn [fst snd]. intros Hfix.
      injection Hfix as Hfix. simpl. f_equal. apply IH, Hfix.
    + destruct (isChar QUOTE x) eqn:Hq.
      * cbn [fst snd]. intros Hfix. injection Hfix as Hfix.
        simpl. f_equal. apply IH, Hfix.
      * cbn [fst snd]. intros Hfix. injection Hfix as Hx _.
        subst x. unfold isChar in Hq. rewrite N.eqb_refl in Hq. discriminate.
    + unfold inside_step. destruct (isChar c x) eqn:Hc.
      * cbn [fst snd]. intros Hfix. injection Hfix as Hx _.
        apply isChar_true in Hc. congruence.
      * destruct (isChar QUOTE x); cbn [fst snd]; intros Hfix;
          injection Hfix as Hfix; simpl; f_equal; apply IH, Hfix.
    + unfold inside_step.
      destruct (isChar c x); [|destruct (isChar QUOTE x)]; cbn [fst snd];
        intros Hfix; injection Hfix as Hfix; simpl; f_equal; apply IH, Hfix.
  - cbn [label_run]. destruct m; cbn [label_step].
    + rewrite isChar_o_quote. cbn [fst snd andb]. simpl. f_equal. apply IH, Hfix.
    + change (isChar QUOTE QUOTE) with true. cbn [fst snd]. simpl. f_equal.
      pose proof (IH Opened Hfix) as Ht.
      destruct t as [|y t']; [reflexivity|].
      revert Ht. cbn [label_run label_step].
      destruct (isChar QUOTE y) eqn:Hq.
      * cbn [fst snd]. intros Ht. injection Ht as Ht.
        unfold inside_step. apply isChar_true in Hq. subst y.
        rewrite isChar_c_quote. change (isChar QUOTE QUOTE) with true.
        cbn [fst snd]. simpl. f_equal. apply fixed_Inside_InsideQ, Ht.
      * cbn [fst snd]. intros Ht. injection Ht as Hy _.
        subst y. unfold isChar in Hq. rewrite N.eqb_refl in Hq. discriminate.
    + unfold inside_step. rewrite isChar_c_quote. change (isChar QUOTE QUOTE) with true.
      cbn [fst snd]. simpl. f_equal. apply fixed_Inside_InsideQ, IH, Hfix.
    + unfold inside_step. rewrite isChar_c_quote. change (isChar QUOTE QUOTE) with true.
      cbn [fst snd]. simpl. f_equal. apply IH, Hfix.
Qed.

(** The pass changes nothing in what it produced. *)
Lemma label_run_idempotent : forall s m,
  label_run o c m (label_run o c m s) = label_run o c m s.
Proof.
  induction s as [|y s IH]; intros m; [reflexivity|].
  assert (HInside : label_run o c Inside (label_run o c Inside (y :: s))
                    = label_run o c Inside (y :: s)).
  { cbn [label_run label_step]. unfold inside_step.
    destruct (isChar c y) eqn:Hc; [|destruct (isChar QUOTE y) eqn:Hq]; cbn [fst snd].
    - cbn [app label_run label_step]. unfold inside_step.
      rewrite isChar_c_quote. change (isChar QUOTE QUOTE) with true.
      cbn [fst snd app label_run label_step]. unfold inside_step. rewrite Hc.
      cbn [fst snd app]. rewrite IH. reflexivity.
    - cbn [app label_run label_step]. unfold inside_step. rewrite Hc, Hq.
      cbn [fst snd app]. rewrite IH. reflexivity.
    - cbn [app label_run label_step]. unfold inside_step. rewrite Hc, Hq.
      cbn [fst snd app]. rewrite IH. reflexivity. }
  destruct m.
  - cbn [label_run label_step fst snd app].
    rewrite <- (qins_closes _ _ (label_run_qins s _)). rewrite IH. reflexivity.
  - cbn [label_run label_step]. destruct (isChar QUOTE y) eqn:Hq.
    + cbn [fst snd app label_run label_step]. rewrite Hq.
      cbn [fst snd app]. rewrite IH. reflexivity.
    + cbn [fst snd].
      change (label_run o c Opened (QUOTE :: label_run o c Inside (y :: s))
              = QUOTE :: label_run o c Inside (y :: s)).
      change (QUOTE :: label_run o c Inside (label_run o c Inside (y :: s))
              = QUOTE :: label_run o c Inside (y :: s)).
      rewrite HInside. reflexivity.
  - exact HInside.
  - cbn [label_run label_step]. unfold inside_step.
    destruct (isChar c y) eqn:Hc; [|destruct (isChar QUOTE y) eqn:Hq];
      cbn [fst snd app label_run label_step]; unfold inside_step;
      rewrite ?Hc, ?Hq; cbn [fst snd app]; rewrite IH; reflexivity.
Qed.

End Labels.

(** ** The three label patterns and the flow rule *)

Ltac not_in_literal :=
  let H := fresh in
  intros H; vm_compute in H;
  repeat (destruct H as [H|H]; [discriminate H|]); exact H.

Lemma quote_labels_qins o c line :
  c <> QUOTE -> o <> QUOTE -> qins line (quote_labels o c line).
Proof. intros Hc Ho. rewrite quote_labels_run by assumption. apply label_run_qins. Qed.

Lemma quote_labels_idempotent o c line :
  c <> QUOTE -> o <> QUOTE ->
  quote_labels o c (quote_labels o c line) = quote_labels o c line.
Proof.
  intros Hc Ho. rewrite !quote_labels_run by assumption.
  apply label_run_idempotent. exact Hc.
Qed.

Lemma quote_labels_stable o c s t :
  c <> QUOTE -> o <> QUOTE ->
  qins s t -> quote_labels o c s = s -> quote_labels o c t = t.
Proof.
  intros Hc Ho Hq. rewrite !quote_labels_run by assumption.
  apply label_run_stable; assumption.
Qed.

Lemma protect_labels_qins line : qins line (protect_labels line).
Proof.
  unfold protect_labels.
  eapply qins_trans; [apply quote_labels_qins; discriminate|].
  eapply qins_trans; [apply quote_labels_qins; discriminate|].
  apply quote_labels_qins; discriminate.
Qed.

(** The chain of the three replacements changes nothing in its own
    output. *)
Lemma protect_labels_idempotent line :
  protect_labels (protect_labels line) = protect_labels line.
Proof.
  unfold protect_labels.
  set (l1 := quote_labels (chr "[") (chr "]") line).
  set (l2 := quote_labels (chr "(") (chr ")") l1).
  set (l3 := quote_labels (chr "{") (chr "}") l2).
  assert (H12 : qins l1 l2) by (apply quote_labels_qins; discriminate).
  assert (H23 : qins l2 l3) by (apply quote_labels_qins; discriminate).
  assert (F1 : quote_labels (chr "[") (chr "]") l3 = l3).
  { apply (quote_labels_stable _ _ l1); try discriminate.
    - exact (qins_trans _ _ H23 _ H12).
    - apply quote_labels_idempotent; discriminate. }
  assert (F2 : quote_labels (chr "(") (chr ")") l3 = l3).
  { apply (quote_labels_stable _ _ l2); try discriminate.
    - exact H23.
    - apply quote_labels_idempotent; discriminate. }
  assert (F3 : quote_labels (chr "{") (chr "}") l3 = l3)
    by (apply quote_labels_idempotent; discriminate).
  rewrite F1, F2, F3. reflexivity.
Qed.

Lemma fixFlowLine_qins line : qins line (fixFlowLine line).
Proof.
  unfold fixFlowLine.
  destruct (includes (lit "flowchart") line || includes (lit "graph") line);
    [apply qins_refl | apply protect_labels_qins].
Qed.

Lemma fixFlowLine_idempotent line : fixFlowLine (fixFlowLine line) = fixFlowLine line.
Proof.
  unfold fixFlowLine.
  destruct (includes (lit "flowchart") line || includes (lit "graph") line) eqn:E.
  - rewrite E. reflexivity.
  - destruct (includes (lit "flowchart") (protect_labels line)
              || includes (lit "graph") (protect_labels line)) eqn:E2.
    + exfalso. apply orb_false_iff in E. destruct E as [Ef Eg].
      apply orb_true_iff in E2. destruct E2 as [E2|E2];
        apply (qins_includes _) with (s := line) in E2;
        try apply protect_labels_qins; try congruence; not_in_literal.
    + apply protect_labels_idempotent.
Qed.

Lemma fixFlowLine_no_LF line : ~ In LF line -> ~ In LF (fixFlowLine line).
Proof.
  intros H Hin. apply H.
  apply (qins_no_new_char LF line (fixFlowLine line)).
  - apply fixFlowLine_qins.
  - discriminate.
  - exact Hin.
Qed.

(** The lines of what the flow rule returns are the rewritten lines. *)
Lemma fixFlowchart_lines text :
  split_lines (fixFlowchart (split_lines text)) = map fixFlowLine (split_lines text).
Proof.
  unfold fixFlowchart. apply split_join.
  - pose proof (split_lines_nonempty text) as Hne.
    destruct (split_lines text); [contradiction | discriminate].
  - pose proof (split_lines_no_LF text) as Hall.
    induction Hall as [|l ls Hl Hls IH]; constructor.
    + apply fixFlowLine_no_LF, Hl.
    + exact IH.
Qed.

Lemma fixFlowchart_idempotent text :
  fixFlowchart (split_lines (fixFlowchart (split_lines text)))
    = fixFlowchart (split_lines text).
Proof.
  rewrite fixFlowchart_lines. unfold fixFlowchart. rewrite map_map.
  f_equal. apply map_ext. apply fixFlowLine_idempotent.
Qed.

(** A header of the flow family is a header of no other family. *)
Lemma flow_header_dispatch fixed :
  startsWith (lit "flowchart") (header_of fixed)
    || startsWith (lit "graph") (header_of fixed) = true ->
  startsWith (lit "classDiagram") (header_of fixed) = false /\
  startsWith (lit "usecaseDiagram") (header_of fixed) = false.
Proof.
  intros H. apply orb_true_iff in H.
  destruct H as [H|H]; apply startsWith_inv in H; destruct H as [r ->];
    split; reflexivity.
Qed.

Lemma fixMermaidCode_flow code :
  startsWith (lit "flowchart") (header_of (normalizeEnv code))
    || startsWith (lit "graph") (header_of (normalizeEnv code)) = true ->
  fixMermaidCode code = fixFlowchart (split_lines (normalizeEnv code)).
Proof.
  intros H. destruct (flow_header_dispatch _ H) as [Hc Hu].
  unfold fixMermaidCode. unfold header_of in *. rewrite Hc, Hu, H. reflexivity.
Qed.

(** C2.  On a text whose first line begins with [flowchart] or [graph]
    the flow rule (the map over the lines and the join) applied to its own
    result gives that result again; and this rule is what fixMermaidCode
    applies to the normalized text of such an input. *)
Theorem flow_rule_twice_is_once text :
  startsWith (lit "flowchart") (header_of text)
    || startsWith (lit "graph") (header_of text) = true ->
  fixFlowchart (split_lines (fixFlowchart (split_lines text)))
    = fixFlowchart (split_lines text) /\
  (forall code, normalizeEnv code = text ->
     fixMermaidCode code = fixFlowchart (split_lines text) /\
     fixFlowchart (split_lines (fixMermaidCode code)) = fixMermaidCode code).
Proof.
  intros H. split; [apply fixFlowchart_idempotent|].
  intros code <-. rewrite (fixMermaidCode_flow code H).
  split; [reflexivity | apply fixFlowchart_idempotent].
Qed.

Lemma startsWith_trim_includes p l :
  startsWith p (trim l) = true -> includes p l = true.
Proof.
  intros H. destruct (startsWith_inv _ _ H) as [r Hr].
  destruct (trim_middle l) as (ws1 & ws2 & Hl & _).
  rewrite Hl, Hr, <- app_assoc. apply includes_intro.
Qed.

(** C9, as amended.  For an input of the flow family the output has the
    lines of the normalized text, one for one: a line that contains
    [flowchart] or [graph] anywhere is left as it is, and every other line
    goes through the three label replacements.  The header line is one of
    the lines left as they are. *)
Theorem labels_quoted_except_on_keyword_lines code :
  startsWith (lit "flowchart") (header_of (normalizeEnv code))
    || startsWith (lit "graph") (header_of (normalizeEnv code)) = true ->
  List.length (split_lines (fixMermaidCode code))
    = List.length (split_lines (normalizeEnv code)) /\
  (forall n line,
     nth_error (split_lines (normalizeEnv code)) n = Some line ->
     nth_error (split_lines (fixMermaidCode code)) n
       = Some (if includes (lit "flowchart") line || includes (lit "graph") line
               then line else protect_labels line)) /\
  nth_error (split_lines (fixMermaidCode code)) 0
    = nth_error (split_lines (normalizeEnv code)) 0.
Proof.
  intros H. rewrite (fixMermaidCode_flow code H), fixFlowchart_lines.
  split; [apply length_map|]. split.
  - intros n line Hn. rewrite nth_error_map, Hn. reflexivity.
  - unfold header_of, first_line in H.
    pose proof (split_lines_nonempty (normalizeEnv code)) as Hne.
    destruct (split_lines (normalizeEnv code)) as [|l0 ls]; [contradiction|].
    simpl hd in H. simpl. f_equal. unfold fixFlowLine.
    apply orb_true_iff in H.
    destruct H as [H|H]; apply startsWith_trim_includes in H; rewrite H;
      [reflexivity | rewrite orb_true_r; reflexivity].
Qed.

(** ** Concrete runs of the flow rule and of the default case *)

Lemma flow_rule_twice_on_a_graph :
  let text := normalizeEnv sample_flow in
  startsWith (lit "flowchart") (header_of text)
    || startsWith (lit "graph") (header_of text) = true /\
  fixFlowchart (split_lines text) <> text /\
  fixFlowchart (split_lines (fixFlowchart (split_lines text)))
    = fixFlowchart (split_lines text) /\
  fixFlowchart (split_lines (fixMermaidCode sample_flow)) = fixMermaidCode sample_flow.
Proof.
  cbv zeta.
  assert (H : startsWith (lit "flowchart") (header_of (normalizeEnv sample_flow))
              || startsWith (lit "graph") (header_of (normalizeEnv sample_flow)) = true)
    by (vm_compute; reflexivity).
  destruct (flow_rule_twice_is_once (normalizeEnv sample_flow) H) as [Htwice Hcode].
  destruct (Hcode sample_flow eq_refl) as [_ Hfix].
  split; [exact H|]. split; [vm_compute; discriminate|].
  split; assumption.
Defined.

(** C6 as the spec states it fails on a text with a CR LF pair: no family
    rule applies, and what comes back has a line feed where the input had
    the pair. *)
Lemma sequence_diagram_with_CR_LF_is_changed :
  startsWith (lit "classDiagram") (header_of sample_sequence) = false /\
  startsWith (lit "usecaseDiagram") (header_of sample_sequence) = false /\
  startsWith (lit "flowchart") (header_of sample_sequence) = false /\
  startsWith (lit "graph") (header_of sample_sequence) = false /\
  fixMermaidCode sample_sequence = lit "sequenceDiagram" ++ [LF] ++ lit "A->>B: hi" /\
  fixMermaidCode sample_sequence <> sample_sequence.
Proof.
  repeat split; try (vm_compute; reflexivity). vm_compute. discriminate.
Qed.

Lemma pie_chart_comes_back_as_it_is :
  startsWith (lit "classDiagram") (header_of (normalizeEnv sample_pie)) = false /\
  startsWith (lit "usecaseDiagram") (header_of (normalizeEnv sample_pie)) = false /\
  startsWith (lit "flowchart") (header_of (normalizeEnv sample_pie)) = false /\
  startsWith (lit "graph") (header_of (normalizeEnv sample_pie)) = false /\
  trim sample_pie = sample_pie /\
  fixMermaidCode sample_pie = normalizeEnv sample_pie /\
  fixMermaidCode sample_pie = sample_pie.
Proof.
  assert (H1 : startsWith (lit "classDiagram") (header_of (normalizeEnv sample_pie)) = false)
    by (vm_compute; reflexivity).
  assert (H2 : startsWith (lit "usecaseDiagram") (header_of (normalizeEnv sample_pie)) = false)
    by (vm_compute; reflexivity).
  assert (H3 : startsWith (lit "flowchart") (header_of (normalizeEnv sample_pie)) = false)
    by (vm_compute; reflexivity).
  assert (H4 : startsWith (lit "graph") (header_of (normalizeEnv sample_pie)) = false)
    by (vm_compute; reflexivity).
  assert (H5 : trim sample_pie = sample_pie) by (vm_compute; reflexivity).
  destruct (no_family_returns_normalized_text sample_pie H1 H2 H3 H4) as [Hn Hsame].
  split; [exact H1|]. split; [exact H2|]. split; [exact H3|]. split; [exact H4|].
  split; [exact H5|]. split; [exact Hn|].
  apply Hsame; try assumption; vm_compute; reflexivity.
Defined.

(** C9 as the spec states it fails on a [subgraph] line: it is not the
    header, it has a label in brackets, and it comes back as it was,
    because it contains [graph]. *)
Lemma subgraph_line_keeps_its_label :
  startsWith (lit "flowchart") (header_of (normalizeEnv sample_subgraph)) = true /\
  nth_error (split_lines (normalizeEnv sample_subgraph)) 1
    = Some (lit "subgraph S[My Label]") /\
  nth_error (split_lines (fixMermaidCode sample_subgraph)) 1
    = Some (lit "subgraph S[My Label]") /\
  protect_labels (lit "subgraph S[My Label]")
    = lit "subgraph S[" ++ [QUOTE] ++ lit "My Label" ++ [QUOTE] ++ lit "]" /\
  nth_error (split_lines (fixMermaidCode sample_subgraph)) 1
    <> Some (protect_labels (lit "subgraph S[My Label]")).
Proof.
  repeat split; try (vm_compute; reflexivity). vm_compute. discriminate.
Qed.

Lemma labels_quoted_on_a_graph :
  startsWith (lit "flowchart") (header_of (normalizeEnv sample_flow))
    || startsWith (lit "graph") (header_of (normalizeEnv sample_flow)) = true /\
  List.length (split_lines (fixMermaidCode sample_flow)) = 3%nat /\
  nth_error (split_lines (fixMermaidCode sample_flow)) 0 = Some (lit "graph TD") /\
  nth_error (split_lines (fixMermaidCode sample_flow)) 1
    = Some (protect_labels (lit "A[Start] --> B{Is it?}")) /\
  protect_labels (lit "A[Start] --> B{Is it?}")
    = lit "A[" ++ [QUOTE] ++ lit "Start" ++ [QUOTE] ++ lit "] --> B{" ++ [QUOTE]
        ++ lit "Is it?" ++ [QUOTE] ++ lit "}".
Proof.
  assert (H : startsWith (lit "flowchart") (header_of (normalizeEnv sample_flow))
              || startsWith (lit "graph") (header_of (normalizeEnv sample_flow)) = true)
    by (vm_compute; reflexivity).
  destruct (labels_quoted_except_on_keyword_lines sample_flow H) as (Hlen & Hline & Hhead).
  split; [exact H|]. split; [rewrite Hlen; vm_compute; reflexivity|].
  split; [rewrite Hhead; vm_compute; reflexivity|].
  split; [| vm_compute; reflexivity].
  rewrite (Hline 1%nat (lit "A[Start] --> B{Is it?}")) by (vm_compute; reflexivity).
  reflexivity.
Defined.

(** ** Class diagrams: the enum rewriting *)

Lemma word_not_space x : isWord x = true -> isSpace x = false.
Proof.
  intros H. apply not_true_iff_false. intros Hs.
  unfold isWord in H. unfold isSpace, isLineTerminator in Hs.
  rewrite ?orb_true_iff, ?andb_true_iff, ?N.leb_le, ?N.eqb_eq in H.
  rewrite ?orb_true_iff, ?andb_true_iff, ?N.leb_le, ?N.eqb_eq in Hs. lia.
Qed.

Lemma word_not_char c x : isWord c = false -> isWord x = true -> isChar c x = false.
Proof.
  intros Hc Hx. unfold isChar. destruct (N.eqb_spec c x) as [->|]; congruence.
Qed.

Lemma one_piece c piece :
  forallb (isChar c) piece = true -> List.length piece = 1%nat -> piece = [c].
Proof.
  destruct piece as [|x [|y l]]; try discriminate. simpl.
  rewrite andb_true_r. intros H _. apply N.eqb_eq in H. subst x. reflexivity.
Qed.

Lemma plus_piece (piece : jsstring) : (1 <= List.length piece)%nat -> piece <> [].
Proof. destruct piece; simpl; [lia | discriminate]. Qed.

(** What a match of the enum pattern is made of. *)
Lemma enum_match_shape prev s caps rest :
  match_atoms re_enum prev s = Some (caps, rest) ->
  exists sp w sp2,
    s = (lit "enum" ++ sp ++ w ++ sp2 ++ [chr "{"]) ++ rest /\
    forallb isSpace sp = true /\ sp <> [] /\
    forallb isWord w = true /\ w <> [] /\
    forallb isSpace sp2 = true /\ caps = [w].
Proof.
  intros H. destruct (match_atoms_sound _ _ _ _ _ H) as (m & -> & HM).
  change re_enum with
    [Cls false (isChar (chr "e")) One; Cls false (isChar (chr "n")) One;
     Cls false (isChar (chr "u")) One; Cls false (isChar (chr "m")) One;
     Cls false isSpace Plus; Cls true isWord Plus;
     Cls false isSpace Star; Cls false (isChar (chr "{")) One] in HM.
  cbn [Matches] in HM.
  destruct HM as (p1 & m1 & c1 & -> & Hp1 & Hq1 & HM & ->).
  destruct HM as (p2 & m2 & c2 & -> & Hp2 & Hq2 & HM & ->).
  destruct HM as (p3 & m3 & c3 & -> & Hp3 & Hq3 & HM & ->).
  destruct HM as (p4 & m4 & c4 & -> & Hp4 & Hq4 & HM & ->).
  destruct HM as (sp & m5 & c5 & -> & Hsp & Hqsp & HM & ->).
  destruct HM as (w & m6 & c6 & -> & Hw & Hqw & HM & ->).
  destruct HM as (sp2 & m7 & c7 & -> & Hsp2 & _ & HM & ->).
  destruct HM as (p8 & m8 & c8 & -> & Hp8 & Hq8 & [-> ->] & ->).
  rewrite (one_piece _ _ Hp1 Hq1), (one_piece _ _ Hp2 Hq2),
          (one_piece _ _ Hp3 Hq3), (one_piece _ _ Hp4 Hq4), (one_piece _ _ Hp8 Hq8).
  exists sp, w, sp2. rewrite app_nil_r.
  repeat split; try assumption; try (apply plus_piece; assumption).
Qed.

Lemma word_not_visibility x : isWord x = true -> isVisibility x = false.
Proof.
  intros H. apply not_true_iff_false. intros Hv.
  unfold isWord in H. unfold isVisibility in Hv.
  change (chr "+") with 43 in Hv. change (chr "-") with 45 in Hv.
  change (chr "#") with 35 in Hv. change (chr "~") with 126 in Hv.
  rewrite ?orb_true_iff, ?andb_true_iff, ?N.leb_le, ?N.eqb_eq in H.
  rewrite ?orb_true_iff, ?N.eqb_eq in Hv. lia.
Qed.

(** What a match of the arrow pattern is made of. *)
Lemma arrow_shape prev s caps rest :
  match_atoms re_arrow prev s = Some (caps, rest) ->
  exists X1 e X2 w g,
    s = (X1 ++ e :: X2 ++ w) ++ rest /\
    arrow_replacement (X1 ++ e :: X2 ++ w) caps = g ++ w /\
    forallb arrow_alphabet (X1 ++ e :: X2 ++ w) = true /\
    isChar (chr "-") e = true /\ forallb after_dash X2 = true.
Proof.
  intros H. destruct (match_atoms_sound _ _ _ _ _ H) as (m & -> & HM).
  change re_arrow with
    [Cls true isWord Plus; Cls false isSpace Star;
     Cls false (isChar (chr "-")) One; Cls false (isChar (chr ">")) One;
     Cls false isSpace Star; Cls true isWord Plus] in HM.
  cbn [Matches] in HM.
  destruct HM as (w1 & m1 & c1 & -> & Hw1 & _ & HM & ->).
  destruct HM as (sp1 & m2 & c2 & -> & Hsp1 & _ & HM & ->).
  destruct HM as (d & m3 & c3 & -> & Hd & Hqd & HM & ->).
  destruct HM as (gt & m4 & c4 & -> & Hgt & Hqgt & HM & ->).
  destruct HM as (sp2 & m5 & c5 & -> & Hsp2 & _ & HM & ->).
  destruct HM as (w2 & m6 & c6 & -> & Hw2 & _ & [-> ->] & ->).
  rewrite (one_piece _ _ Hd Hqd), (one_piece _ _ Hgt Hqgt).
  exists (w1 ++ sp1), (chr "-"), (chr ">" :: sp2), w2, (w1 ++ lit " --|> ").
  assert (Hm : w1 ++ sp1 ++ [chr "-"] ++ [chr ">"] ++ sp2 ++ w2 ++ []
               = (w1 ++ sp1) ++ chr "-" :: (chr ">" :: sp2) ++ w2).
  { rewrite app_nil_r, <- !app_assoc. reflexivity. }
  rewrite Hm. split; [reflexivity|]. split.
  { unfold arrow_replacement, group. simpl nth. rewrite <- app_assoc. reflexivity. }
  split; [|split; [reflexivity|]].
  - rewrite !forallb_app. simpl forallb. rewrite forallb_app.
    repeat (apply andb_true_iff; split); try reflexivity.
    + apply (forallb_impl isWord); [|exact Hw1]. intros x Hx.
      unfold arrow_alphabet. rewrite Hx. reflexivity.
    + apply (forallb_impl isSpace); [|exact Hsp1]. intros x Hx.
      unfold arrow_alphabet. rewrite Hx, orb_true_r. reflexivity.
    + apply (forallb_impl isSpace); [|exact Hsp2]. intros x Hx.
      unfold arrow_alphabet. rewrite Hx, orb_true_r. reflexivity.
    + apply (forallb_impl isWord); [|exact Hw2]. intros x Hx.
      unfold arrow_alphabet. rewrite Hx. reflexivity.
  - simpl. apply (forallb_impl isSpace); [|exact Hsp2]. intros x Hx.
    unfold after_dash. rewrite Hx. reflexivity.
Qed.

(** What a match of the visibility pattern is made of. *)
Lemma visibility_shape prev s caps rest :
  match_atoms re_visibility prev s = Some (caps, rest) ->
  exists X1 e X2 w g,
    s = (X1 ++ e :: X2 ++ w) ++ rest /\
    visibility_replacement (X1 ++ e :: X2 ++ w) caps = g ++ w /\
    forallb visibility_alphabet (X1 ++ e :: X2 ++ w) = true /\
    isVisibility e = true /\ forallb (fun _ => false) X2 = true.
Proof.
  intros H. destruct (match_atoms_sound _ _ _ _ _ H) as (m & -> & HM).
  unfold re_visibility in HM. cbn [Matches] in HM.
  destruct HM as (_ & ws & m1 & c1 & -> & Hws & _ & HM & ->).
  destruct HM as (v & m2 & c2 & -> & Hv & Hqv & HM & ->).
  destruct HM as (w3 & m3 & c3 & -> & Hw3 & _ & [-> ->] & ->).
  destruct v as [|e [|e' v']]; try discriminate Hqv.
  simpl in Hv. rewrite andb_true_r in Hv.
  exists ws, e, [], w3, (ws ++ [e] ++ lit " ").
  rewrite app_nil_r. split; [reflexivity|]. split.
  { unfold visibility_replacement, group. simpl nth. simpl app.
    rewrite <- app_assoc. reflexivity. }
  split; [|split; [exact Hv | reflexivity]].
  rewrite forallb_app. simpl forallb. apply andb_true_iff. split.
  - apply (forallb_impl isSpace); [|exact Hws]. intros x Hx.
    unfold visibility_alphabet. rewrite Hx. reflexivity.
  - apply andb_true_iff. split.
    + unfold visibility_alphabet. rewrite Hv, orb_true_r. reflexivity.
    + apply (forallb_impl isWord); [|exact Hw3]. intros x Hx.
      unfold visibility_alphabet. rewrite Hx, !orb_true_r. reflexivity.
Qed.

Section EnumName.
Variable name : jsstring.
Hypothesis name_word : forallb isWord name = true.
Hypothesis name_nonempty : name <> [].

Lemma not_in_name x : isWord x = false -> ~ In x name.
Proof.
  intros Hx Hin. pose proof name_word as Hw. rewrite forallb_forall in Hw.
  rewrite (Hw _ Hin) in Hx. discriminate.
Qed.

Lemma not_in_enum_text x :
  isWord x = false -> x <> chr " " -> x <> chr "{" ->
  ~ In x (lit "enum " ++ name ++ lit " {").
Proof.
  intros Hx Hsp Hbr Hin.
  apply in_app_or in Hin. destruct Hin as [Hin|Hin].
  - simpl in Hin.
    repeat (destruct Hin as [Hin|Hin];
      [subst x; first [ discriminate Hx | elim Hsp; reflexivity
                      | elim Hbr; reflexivity ]|]).
    exact Hin.
  - apply in_app_or in Hin. destruct Hin as [Hin|Hin].
    + exact (not_in_name x Hx Hin).
    + simpl in Hin.
      repeat (destruct Hin as [Hin|Hin];
      [subst x; first [ discriminate Hx | elim Hsp; reflexivity
                      | elim Hbr; reflexivity ]|]).
      exact Hin.
Qed.

(** The first step keeps an occurrence of [enum], the name and the
    brace. *)
Lemma normalizeEnv_keeps_enum code :
  includes (lit "enum " ++ name ++ lit " {") code = true ->
  includes (lit "enum " ++ name ++ lit " {") (normalizeEnv code) = true.
Proof.
  intros H. unfold normalizeEnv.
  apply (includes_trim _ (chr "e") (chr "{")); try reflexivity.
  { rewrite !rev_app_distr. reflexivity. }
  change re_fence with (literal (BACKTICK :: [BACKTICK; BACKTICK])).
  apply literal_survives;
    [apply not_in_enum_text; (reflexivity || discriminate) | vm_compute; reflexivity |].
  change re_fence_mermaid with (literal (BACKTICK :: lit "``mermaid")).
  apply literal_survives;
    [apply not_in_enum_text; (reflexivity || discriminate) | vm_compute; reflexivity |].
  change re_nbsp with (literal (NBSP :: [])).
  apply literal_survives;
    [apply not_in_enum_text; (reflexivity || discriminate) | vm_compute; reflexivity |].
  change re_crlf with (literal (CR :: [LF])).
  apply literal_survives;
    [apply not_in_enum_text; (reflexivity || discriminate) | vm_compute; reflexivity |].
  change re_escaped_newline with (literal (BACKSLASH :: [chr "n"])).
  apply literal_survives;
    [apply not_in_enum_text; (reflexivity || discriminate) | vm_compute; reflexivity |].
  exact H.
Qed.

Lemma match_enum_brace prev B :
  match_atoms [Cls false isSpace Star; Cls false (isChar (chr "{")) One] prev
    (chr " " :: chr "{" :: B) = Some ([], B).
Proof. reflexivity. Qed.

Lemma match_enum_name prev B :
  match_atoms [Cls true isWord Plus; Cls false isSpace Star;
               Cls false (isChar (chr "{")) One] prev
    (name ++ chr " " :: chr "{" :: B) = Some ([name], B).
Proof.
  pose proof name_word as Hw.
  destruct name as [|n0 name'] eqn:Hname; [contradiction|].
  simpl in Hw. apply andb_true_iff in Hw. destruct Hw as [Hn0 Hw].
  change ((n0 :: name') ++ chr " " :: chr "{" :: B)
    with (n0 :: (name' ++ chr " " :: chr "{" :: B)).
  rewrite match_atoms_Plus. rewrite Hn0.
  apply greedy_run_stop; [exact Hw | reflexivity|].
  unfold cont. rewrite match_enum_brace. reflexivity.
Qed.

Lemma greedy_space_before_name {R} (k : jsstring -> jsstring -> option R) rest :
  greedy isSpace k (name ++ rest) = k [] (name ++ rest).
Proof.
  pose proof name_word as Hw.
  destruct name as [|n0 name']; [contradiction|].
  simpl in Hw. apply andb_true_iff in Hw. destruct Hw as [Hn0 _].
  apply greedy_stop, word_not_space, Hn0.
Qed.

(** At an occurrence the enum pattern matches, and captures the name. *)
Lemma match_enum_here prev B :
  match_atoms re_enum prev ((lit "enum " ++ name ++ lit " {") ++ B) = Some ([name], B).
Proof.
  change re_enum with
    (literal (lit "enum") ++
     [Cls false isSpace Plus; Cls true isWord Plus; Cls false isSpace Star;
      Cls false (isChar (chr "{")) One]).
  replace ((lit "enum " ++ name ++ lit " {") ++ B)
    with (lit "enum" ++ chr " " :: (name ++ chr " " :: chr "{" :: B))
    by (simpl; rewrite <- app_assoc; reflexivity).
  rewrite match_literal_prefix, match_atoms_Plus.
  change (isSpace (chr " ")) with true. cbv iota.
  rewrite greedy_space_before_name.
  unfold cont. rewrite match_enum_name. reflexivity.
Qed.

(** No match of the enum pattern starts before an occurrence and runs
    into it. *)
Lemma enum_no_overlap prev A B caps rest m :
  A <> [] ->
  match_atoms re_enum prev (A ++ (lit "enum " ++ name ++ lit " {") ++ B) = Some (caps, rest) ->
  A ++ (lit "enum " ++ name ++ lit " {") ++ B = m ++ rest ->
  (List.length A < List.length m)%nat -> False.
Proof.
  intros HA Hm Hs Hlen.
  destruct (enum_match_shape _ _ _ _ Hm)
    as (sp & w & sp2 & Hs' & Hsp & Hspne & Hw & Hwne & Hsp2 & _).
  assert (Hmeq : m = lit "enum" ++ sp ++ w ++ sp2 ++ [chr "{"]).
  { rewrite Hs in Hs'. apply app_inv_tail in Hs'. exact Hs'. }
  clear Hs' Hm.
  destruct (app_eq_app _ _ _ _ Hs) as [K [[HA' _]|[HmK HOB]]].
  { assert (Hl : List.length A = List.length (m ++ K)) by (rewrite HA'; reflexivity).
    rewrite length_app in Hl. lia. }
  replace ((lit "enum " ++ name ++ lit " {") ++ B)
    with (101 :: 110 :: 117 :: 109 :: 32 :: (name ++ 32 :: 123 :: B)) in HOB
    by (simpl; rewrite <- app_assoc; reflexivity).
  destruct K as [|k K'].
  { rewrite app_nil_r in HmK. rewrite HmK in Hlen. lia. }
  injection HOB as <- HK'.
  rewrite Hmeq in HmK. change (lit "enum") with [101; 110; 117; 109] in HmK.
  change (chr "{") with 123 in HmK.
  destruct A as [|a0 [|a1 [|a2 [|a3 A4]]]]; try contradiction; try discriminate HmK.
  injection HmK as _ _ _ _ HmK.
  destruct (locate_after isSpace 101 sp A4 K' _ Hsp eq_refl (eq_sym HmK)) as (A5 & _ & HA5).
  destruct (app_eq_app _ _ _ _ HA5) as [l [[_ Hl]|[Hwl Hl]]].
  - destruct (locate_after isSpace 101 sp2 l K' _ Hsp2 eq_refl (eq_sym Hl)) as (A7 & _ & HA7).
    destruct A7 as [|a7 [|a8 A9]]; discriminate HA7.
  - destruct l as [|y l'].
    + simpl in Hl. symmetry in Hl.
      destruct (peel_not isSpace sp2 _ 101 _ Hsp2 eq_refl Hl) as [_ Habs]. discriminate Habs.
    + injection Hl as <- Hl. subst K'.
      assert (Hl' : forallb isWord l' = true).
      { rewrite Hwl, forallb_app in Hw. apply andb_true_iff in Hw.
        destruct Hw as [_ Hw]. simpl in Hw. exact Hw. }
      rewrite <- !app_assoc in HK'. simpl in HK'. symmetry in HK'.
      (* the characters n, u, m *)
      destruct (peel_class isWord _ _ _ _ Hl' HK') as [[_ H1]|(_ & l1 & _ & Hl1 & H1)].
      { destruct (peel_not isSpace sp2 _ 110 _ Hsp2 eq_refl H1) as [_ Habs]. discriminate Habs. }
      destruct (peel_class isWord _ _ _ _ Hl1 H1) as [[_ H2]|(_ & l2 & _ & Hl2 & H2)].
      { destruct (peel_not isSpace sp2 _ 117 _ Hsp2 eq_refl H2) as [_ Habs]. discriminate Habs. }
      destruct (peel_class isWord _ _ _ _ Hl2 H2) as [[_ H3]|(_ & l3 & _ & Hl3 & H3)].
      { destruct (peel_not isSpace sp2 _ 109 _ Hsp2 eq_refl H3) as [_ Habs]. discriminate Habs. }
      (* the blank after them *)
      destruct (peel_not isWord l3 _ 32 _ Hl3 eq_refl H3) as [_ H4].
      destruct (peel_class isSpace _ _ _ _ Hsp2 H4) as [[_ Habs]|(_ & sp2' & _ & Hsp2' & H5)];
        [discriminate Habs|].
      (* the name *)
      pose proof name_word as Hname.
      destruct name as [|n0 name']; [contradiction|].
      simpl in Hname. apply andb_true_iff in Hname. destruct Hname as [Hn0 _].
      simpl in H5.
      destruct (peel_class isSpace _ _ _ _ Hsp2' H5) as [[_ Habs]|(Habs & _)].
      * injection Habs as <- _. discriminate Hn0.
      * rewrite (word_not_space _ Hn0) in Habs. discriminate Habs.
Qed.

Lemma enum_nonempty_match prev s caps rest :
  match_atoms re_enum prev s = Some (caps, rest) -> exists m, s = m ++ rest /\ m <> [].
Proof. apply match_nonempty. reflexivity. Qed.

(** The enum replacement turns an occurrence into the class text. *)
Lemma enum_pass s :
  includes (lit "enum " ++ name ++ lit " {") s = true ->
  includes (lit "class " ++ name ++ lit " {" ++ [LF] ++ lit "    <<enumeration>>")
    (replace_all re_enum enum_replacement s) = true.
Proof.
  apply survives.
  - apply enum_nonempty_match.
  - intros prev B.
    assert (Hne : lit "enum " ++ name ++ lit " {" <> []) by discriminate.
    rewrite (replace_from_match re_enum enum_replacement prev _ [name] B
               (lit "enum " ++ name ++ lit " {") (match_enum_here prev B) eq_refl Hne).
    unfold enum_replacement, group. simpl nth.
    apply includes_here, startsWith_app.
  - intros prev A B caps rest m HA Hm Hs Hlen. exfalso.
    exact (enum_no_overlap prev A B caps rest m HA Hm Hs Hlen).
Qed.

(** The text the enum replacement writes, cut at its brace. *)
Lemma class_text_cut :
  lit "class " ++ name ++ lit " {" ++ [LF] ++ lit "    <<enumeration>>"
    = (chr "c" :: lit "lass " ++ name ++ lit " ")
        ++ chr "{" :: LF :: lit "    <<enumeration>>".
Proof. simpl. rewrite <- app_assoc. reflexivity. Qed.

Lemma class_text_last :
  last_of (chr "c" :: lit "lass " ++ name ++ lit " ") None = Some (chr " ").
Proof.
  replace (chr "c" :: lit "lass " ++ name ++ lit " ")
    with ((chr "c" :: lit "lass " ++ name) ++ [chr " "])
    by (simpl; rewrite <- ?app_assoc; reflexivity).
  apply last_of_app_cons.
Qed.

Lemma class_text_without (isE : jschar -> bool) :
  (forall x, isWord x = true -> isE x = false) ->
  isE 32 = false ->
  forallb (fun x => negb (isE x)) (chr "c" :: lit "lass " ++ name ++ lit " ") = true.
Proof.
  intros Hword Hsp.
  change (chr "c" :: lit "lass " ++ name ++ lit " ")
    with (lit "class " ++ name ++ lit " ").
  rewrite !forallb_app. repeat (apply andb_true_iff; split);
    try reflexivity;
    try (rewrite Hword by reflexivity; reflexivity);
    try (change (chr " ") with 32; rewrite Hsp; reflexivity).
  apply (forallb_impl isWord); [|exact name_word].
  intros x Hx. rewrite (Hword x Hx). reflexivity.
Qed.

(** The arrow replacement keeps the class text. *)
Lemma arrow_pass s :
  includes (lit "class " ++ name ++ lit " {" ++ [LF] ++ lit "    <<enumeration>>") s = true ->
  includes (lit "class " ++ name ++ lit " {" ++ [LF] ++ lit "    <<enumeration>>")
    (replace_all re_arrow arrow_replacement s) = true.
Proof.
  rewrite class_text_cut.
  apply (tail_capture_survives re_arrow arrow_replacement
           arrow_alphabet (isChar (chr "-")) after_dash arrow_shape).
  - reflexivity.
  - reflexivity.
  - apply class_text_without; [|reflexivity].
    intros x Hx. apply word_not_char; [reflexivity | exact Hx].
  - intros B. rewrite class_text_last.
    cbn [unmatched app lit map list_ascii_of_string].
    repeat split; vm_compute; reflexivity.
Qed.

(** The visibility replacement keeps the class text. *)
Lemma visibility_pass s :
  includes (lit "class " ++ name ++ lit " {" ++ [LF] ++ lit "    <<enumeration>>") s = true ->
  includes (lit "class " ++ name ++ lit " {" ++ [LF] ++ lit "    <<enumeration>>")
    (replace_all re_visibility visibility_replacement s) = true.
Proof.
  rewrite class_text_cut.
  apply (tail_capture_survives re_visibility visibility_replacement
           visibility_alphabet isVisibility (fun _ => false) visibility_shape).
  - reflexivity.
  - reflexivity.
  - apply class_text_without; [|reflexivity].
    intros x Hx. apply word_not_visibility, Hx.
  - intros B. rewrite class_text_last.
    cbn [unmatched app lit map list_ascii_of_string].
    repeat split; vm_compute; reflexivity.
Qed.

End EnumName.

(** ** No declaration is left *)

(** The pattern matches at some position of the text. *)
Fixpoint has_match (r : regex) (prev : option jschar) (s : jsstring) : bool :=
  match s with
  | [] => match match_atoms r prev [] with Some _ => true | None => false end
  | x :: s' =>
      match match_atoms r prev s with
      | Some _ => true
      | None => has_match r (Some x) s'
      end
  end.

(** The texts the pattern of the enum rule matches. *)
Definition enum_text (M : jsstring) : Prop :=
  exists sp w sp2,
    M = lit "enum" ++ sp ++ w ++ sp2 ++ [chr "{"] /\
    forallb isSpace sp = true /\ sp <> [] /\
    forallb isWord w = true /\ w <> [] /\
    forallb isSpace sp2 = true.

(** The pattern of the enum rule matches at no position of the text. *)
Definition no_enum (s : jsstring) : Prop :=
  forall A B prev, s = A ++ B -> match_atoms re_enum prev B = None.

Definition wordOrSpace (c : jschar) : bool := isWord c || isSpace c.

Lemma enum_sound prev s caps rest :
  match_atoms re_enum prev s = Some (caps, rest) ->
  exists M, s = M ++ rest /\ enum_text M.
Proof.
  intros H. destruct (enum_match_shape _ _ _ _ H)
    as (sp & w & sp2 & -> & H1 & H2 & H3 & H4 & H5 & _).
  exists (lit "enum" ++ sp ++ w ++ sp2 ++ [chr "{"]). split; [reflexivity|].
  exists sp, w, sp2. repeat split; assumption.
Qed.

Lemma greedy_complete {R} (p : jschar -> bool) (c : jsstring) :
  forall (k : jsstring -> jsstring -> option R) (s' : jsstring),
  forallb p c = true -> k c s' <> None -> greedy p k (c ++ s') <> None.
Proof.
  induction c as [|y c IH]; intros k s' Hc Hk.
  - simpl app. destruct s' as [|x s']; [exact Hk|].
    simpl. destruct (p x); [|exact Hk].
    destruct (greedy p (fun c => k (x :: c)) s'); [discriminate | exact Hk].
  - simpl in Hc. apply andb_true_iff in Hc. destruct Hc as [Hy Hc].
    simpl. rewrite Hy.
    pose proof (IH (fun c0 => k (y :: c0)) s' Hc Hk) as H.
    destruct (greedy p (fun c0 => k (y :: c0)) (c ++ s')); [discriminate | contradiction].
Qed.

Lemma cont_complete cap r' prev c rest :
  match_atoms r' (last_of c prev) rest <> None -> cont cap r' prev c rest <> None.
Proof.
  unfold cont. destruct (match_atoms r' (last_of c prev) rest) as [[caps rest']|];
    [discriminate | intros H; contradiction].
Qed.

Lemma enum_complete M :
  enum_text M -> forall prev rest, match_atoms re_enum prev (M ++ rest) <> None.
Proof.
  intros (sp & w & sp2 & -> & Hsp & Hsp0 & Hw & Hw0 & Hsp2) prev rest.
  change re_enum with
    (literal (lit "enum") ++
     [Cls false isSpace Plus; Cls true isWord Plus;
      Cls false isSpace Star; Cls false (isChar (chr "{")) One]).
  rewrite <- !app_assoc. rewrite match_literal_prefix.
  destruct sp as [|s0 sp]; [congruence|].
  simpl in Hsp. apply andb_true_iff in Hsp. destruct Hsp as [Hs0 Hsp].
  rewrite match_atoms_Plus. simpl app. cbv iota. rewrite Hs0.
  apply greedy_complete; [exact Hsp|]. apply cont_complete.
  destruct w as [|w0 w]; [congruence|].
  simpl in Hw. apply andb_true_iff in Hw. destruct Hw as [Hw0' Hw].
  rewrite match_atoms_Plus. simpl app. cbv iota. rewrite Hw0'.
  apply greedy_complete; [exact Hw|]. apply cont_complete.
  rewrite match_atoms_Star.
  apply greedy_complete; [exact Hsp2|]. apply cont_complete.
  rewrite match_atoms_One. simpl app.
  change (isChar (chr "{") (chr "{")) with true. cbv iota.
  apply cont_complete. discriminate.
Qed.

Lemma enum_none_any_prev prev s :
  match_atoms re_enum prev s = None -> forall prev', match_atoms re_enum prev' s = None.
Proof.
  intros H prev'. destruct (match_atoms re_enum prev' s) as [[caps rest]|] eqn:E;
    [|reflexivity].
  destruct (enum_sound _ _ _ _ E) as (M & -> & HM).
  exfalso. exact (enum_complete M HM prev rest H).
Qed.

Lemma no_enum_nil : no_enum [].
Proof.
  intros A B prev H. symmetry in H. apply app_eq_nil in H. destruct H as [_ ->].
  reflexivity.
Qed.

Lemma no_enum_suffix A B : no_enum (A ++ B) -> no_enum B.
Proof.
  intros H A' B' prev ->. apply (H (A ++ A') B' prev). rewrite app_assoc. reflexivity.
Qed.

Lemma no_enum_cons x s :
  (forall prev, match_atoms re_enum prev (x :: s) = None) -> no_enum s -> no_enum (x :: s).
Proof.
  intros Hx Hs A B prev H. destruct A as [|a A].
  - simpl in H. subst B. apply Hx.
  - injection H as _ H. exact (Hs A B prev H).
Qed.

Lemma no_enum_app R T :
  (forall A1 a A2 prev, R = A1 ++ a :: A2 -> match_atoms re_enum prev (a :: A2 ++ T) = None) ->
  no_enum T -> no_enum (R ++ T).
Proof.
  induction R as [|x R IH]; intros HR HT; [exact HT|].
  simpl app. apply no_enum_cons.
  - intros prev. apply (HR [] x R prev). reflexivity.
  - apply IH; [|exact HT]. intros A1 a A2 prev ->.
    apply (HR (x :: A1) a A2 prev). reflexivity.
Qed.

Lemma no_enum_here s prev : no_enum s -> match_atoms re_enum prev s = None.
Proof. intros H. apply (H [] s prev). reflexivity. Qed.

Lemma has_match_no_enum s : no_enum s -> forall prev, has_match re_enum prev s = false.
Proof.
  induction s as [|x s IH]; intros H prev.
  - cbn [has_match]. rewrite (no_enum_here [] prev H). reflexivity.
  - cbn [has_match]. rewrite (no_enum_here (x :: s) prev H).
    apply IH. exact (no_enum_suffix [x] s H).
Qed.

(** The first character of a match. *)
Lemma enum_first_char c t prev :
  (c =? chr "e") = false -> match_atoms re_enum prev (c :: t) = None.
Proof.
  intros H.
  change re_enum with
    (Cls false (isChar (chr "e")) One ::
     (literal (lit "num") ++
      [Cls false isSpace Plus; Cls true isWord Plus;
       Cls false isSpace Star; Cls false (isChar (chr "{")) One])).
  rewrite match_atoms_One. unfold isChar. rewrite N.eqb_sym, H. reflexivity.
Qed.

Lemma space_is_not_e c : isSpace c = true -> (c =? chr "e") = false.
Proof.
  intros H. destruct (N.eqb_spec c (chr "e")) as [->|]; [discriminate H | reflexivity].
Qed.

Lemma visibility_is_not_e c : isVisibility c = true -> (c =? chr "e") = false.
Proof.
  intros H. destruct (N.eqb_spec c (chr "e")) as [->|]; [discriminate H | reflexivity].
Qed.

(** Two runs of one class that stop at characters outside it are equal. *)
Lemma same_run (p : jschar -> bool) l1 :
  forall l2 c1 r1 c2 r2,
  forallb p l1 = true -> forallb p l2 = true ->
  p c1 = false -> p c2 = false ->
  l1 ++ c1 :: r1 = l2 ++ c2 :: r2 ->
  l1 = l2 /\ c1 :: r1 = c2 :: r2.
Proof.
  induction l1 as [|x l1 IH]; intros l2 c1 r1 c2 r2 H1 H2 Hc1 Hc2 H.
  - destruct l2 as [|y l2]; [split; [reflexivity | exact H]|].
    simpl in H. injection H as -> _. simpl in H2. rewrite Hc1 in H2. discriminate H2.
  - destruct l2 as [|y l2].
    + simpl in H. injection H as -> _. simpl in H1. rewrite Hc2 in H1. discriminate H1.
    + simpl in H. injection H as -> H. simpl in H1, H2.
      apply andb_true_iff in H1. apply andb_true_iff in H2.
      destruct (IH l2 c1 r1 c2 r2 (proj2 H1) (proj2 H2) Hc1 Hc2 H) as [-> Hr].
      split; [reflexivity | exact Hr].
Qed.

Lemma forallb_rev_true (p : jschar -> bool) l : forallb p l = true -> forallb p (rev l) = true.
Proof.
  intros H. apply forallb_forall. intros x Hx. apply in_rev in Hx.
  exact (proj1 (forallb_forall p l) H x Hx).
Qed.

Lemma rev_head (l : jsstring) : l <> [] -> exists a t, rev l = a :: t /\ In a l.
Proof.
  intros H. destruct (rev l) as [|a t] eqn:E.
  - apply (f_equal (@rev _)) in E. rewrite rev_involutive in E. contradiction.
  - exists a, t. split; [reflexivity|]. apply in_rev. rewrite E. left. reflexivity.
Qed.

Lemma enum_text_last M :
  enum_text M -> exists body, M = body ++ [chr "{"] /\ forallb wordOrSpace body = true.
Proof.
  intros (sp & w & sp2 & -> & Hsp & _ & Hw & _ & Hsp2).
  exists (lit "enum" ++ sp ++ w ++ sp2). split; [rewrite <- !app_assoc; reflexivity|].
  assert (Hs : forall l, forallb isSpace l = true -> forallb wordOrSpace l = true).
  { intros l. apply forallb_impl. intros x Hx. unfold wordOrSpace. rewrite Hx.
    apply orb_true_r. }
  assert (Hword : forall l, forallb isWord l = true -> forallb wordOrSpace l = true).
  { intros l. apply forallb_impl. intros x Hx. unfold wordOrSpace. rewrite Hx.
    reflexivity. }
  rewrite !forallb_app, (Hs sp Hsp), (Hword w Hw), (Hs sp2 Hsp2). reflexivity.
Qed.

(** A match does not end with [class], a blank, a name, a blank and the
    brace. *)
Lemma enum_text_is_no_class M P w :
  enum_text M -> forallb isWord w = true -> w <> [] ->
  M = P ++ lit "class " ++ w ++ lit " {" -> False.
Proof.
  intros (sp & w0 & sp2 & -> & Hsp & Hsp0 & Hw0 & Hw00 & Hsp2) Hw Hwne H.
  apply (f_equal (@rev _)) in H.
  rewrite !rev_app_distr in H. simpl rev in H. rewrite <- !app_assoc in H.
  simpl app in H. injection H as H.
  destruct (rev_head w0 Hw00) as (a & ta & Ea & Ia).
  destruct (rev_head w Hwne) as (b & tb & Eb & Ib).
  destruct (rev_head sp Hsp0) as (s1 & ts & Es & Is).
  assert (Ha : isWord a = true) by exact (proj1 (forallb_forall _ _) Hw0 a Ia).
  assert (Hb : isWord b = true) by exact (proj1 (forallb_forall _ _) Hw b Ib).
  assert (Hs1 : isSpace s1 = true) by exact (proj1 (forallb_forall _ _) Hsp s1 Is).
  (* the blank before the brace *)
  rewrite Ea, Eb in H. simpl app in H.
  destruct (same_run isSpace (rev sp2) [chr " "] a _ b _
              (forallb_rev_true _ _ Hsp2) eq_refl
              (word_not_space _ Ha) (word_not_space _ Hb) H) as [_ H'].
  (* the name *)
  assert (H1 : rev w0 ++ s1 :: ts ++ lit "mune"
               = rev w ++ chr " " :: lit "ssalc" ++ rev P).
  { rewrite Ea, Eb. rewrite Es in H'. exact H'. }
  clear H'. rename H1 into H'.
  assert (Hs1w : isWord s1 = false).
  { destruct (isWord s1) eqn:E; [|reflexivity].
    rewrite (word_not_space _ E) in Hs1. discriminate Hs1. }
  destruct (same_run isWord (rev w0) (rev w) s1 _ (chr " ") _
              (forallb_rev_true _ _ Hw0) (forallb_rev_true _ _ Hw)
              Hs1w eq_refl H') as [_ H''].
  (* the blank after the keyword *)
  assert (H2 : rev sp ++ chr "m" :: lit "une" = [chr " "] ++ chr "s" :: lit "salc" ++ rev P).
  { rewrite Es. exact H''. }
  clear H''. rename H2 into H''.
  destruct (same_run isSpace (rev sp) [chr " "] (chr "m") _ (chr "s") _
              (forallb_rev_true _ _ Hsp) eq_refl eq_refl eq_refl H'') as [_ H3].
  discriminate H3.
Qed.

(** A match does not begin inside a word that is followed by a blank and
    the brace. *)
Lemma enum_text_is_no_word_tail M Z sigma T :
  enum_text M -> forallb isWord sigma = true ->
  M ++ Z = sigma ++ chr " " :: chr "{" :: T -> False.
Proof.
  intros (sp & w & sp2 & -> & Hsp & Hsp0 & Hw & Hw0 & Hsp2) Hsigma H.
  destruct sp as [|s0 sp]; [congruence|].
  simpl in Hsp. apply andb_true_iff in Hsp. destruct Hsp as [Hs0 Hsp].
  rewrite <- !app_assoc in H.
  assert (Hs0w : isWord s0 = false).
  { destruct (isWord s0) eqn:E; [|reflexivity].
    rewrite (word_not_space _ E) in Hs0. discriminate Hs0. }
  destruct (same_run isWord (lit "enum") sigma s0 _ (chr " ") _
              eq_refl Hsigma Hs0w eq_refl H) as [_ H'].
  injection H' as _ H'.
  destruct w as [|w0 w]; [congruence|].
  simpl in Hw. apply andb_true_iff in Hw. destruct Hw as [Hw0' _].
  destruct (peel_not isSpace sp _ (chr "{") T Hsp eq_refl H') as [_ H''].
  injection H'' as -> _. discriminate Hw0'.
Qed.

Lemma enum_text_alphabet M c :
  enum_text M -> In c M -> wordOrSpace c = true \/ c = chr "{".
Proof.
  intros HM Hin. destruct (enum_text_last M HM) as (body & -> & Hbody).
  apply in_app_or in Hin. destruct Hin as [Hin | [<- | []]].
  - left. exact (proj1 (forallb_forall _ _) Hbody c Hin).
  - right. reflexivity.
Qed.

(** An enum text that begins in [P ++ A ++ B] lies within [P ++ A]. *)
Definition blocked (A B : jsstring) : Prop :=
  forall P M Z, enum_text M -> P ++ A ++ B = M ++ Z -> exists Z', P ++ A = M ++ Z'.

Lemma blocked_nil A : blocked A [].
Proof. intros P M Z _ H. exists Z. rewrite app_nil_r in H. exact H. Qed.

Lemma blocked_cons x A B : blocked A B -> blocked (x :: A) B.
Proof.
  intros H P M Z HM HP.
  destruct (H (P ++ [x]) M Z HM) as [Z' HZ].
  - rewrite <- app_assoc. exact HP.
  - exists Z'. rewrite <- app_assoc in HZ. exact HZ.
Qed.

Lemma blocked_by (A B : jsstring) :
  (forall P M l Z, enum_text M -> l <> [] -> M = (P ++ A) ++ l -> B = l ++ Z -> False) ->
  blocked A B.
Proof.
  intros H P M Z HM HP. rewrite app_assoc in HP.
  destruct (app_eq_app _ _ _ _ HP) as [l [[H1 H2] | [H1 H2]]].
  - exists l. exact H1.
  - destruct l as [|x l].
    + exists []. rewrite app_nil_r in *. symmetry. exact H1.
    + exfalso. apply (H P M (x :: l) Z HM); [discriminate | exact H1 | exact H2].
Qed.

Lemma blocked_arrow A T : blocked A (lit " --|> " ++ T).
Proof.
  apply blocked_by. intros P M l Z HM Hl HMl HB.
  change (lit " --|> " ++ T) with (chr " " :: chr "-" :: (lit "-|> " ++ T)) in HB.
  destruct l as [|x [|y l]]; [congruence | |].
  - simpl in HB. injection HB as <- _.
    destruct (enum_text_last M HM) as (body & Hb & _). rewrite Hb in HMl.
    apply app_inj_tail in HMl. destruct HMl as [_ HMl].
    vm_compute in HMl. discriminate HMl.
  - simpl in HB. injection HB as <- <- _.
    assert (Hin : In (chr "-") M).
    { rewrite HMl. apply in_or_app. right. right. left. reflexivity. }
    destruct (enum_text_alphabet M _ HM Hin) as [Hc | Hc]; vm_compute in Hc; discriminate Hc.
Qed.

Lemma visibility_not_in_enum_text M v :
  enum_text M -> isVisibility v = true -> ~ In v M.
Proof.
  intros HM Hv Hin.
  destruct (enum_text_alphabet M v HM Hin) as [Hc | ->];
    [|vm_compute in Hv; discriminate Hv].
  unfold wordOrSpace in Hc. apply orb_true_iff in Hc. destruct Hc as [Hc | Hc].
  - rewrite (word_not_visibility _ Hc) in Hv. discriminate Hv.
  - unfold isVisibility in Hv.
    rewrite !orb_true_iff, !N.eqb_eq in Hv.
    destruct Hv as [[[-> | ->] | ->] | ->]; vm_compute in Hc; discriminate Hc.
Qed.

Lemma blocked_visibility A v T : isVisibility v = true -> blocked (A ++ [v]) T.
Proof.
  intros Hv. apply blocked_by. intros P M l Z HM Hl HMl HB.
  apply (visibility_not_in_enum_text M v HM Hv).
  rewrite HMl. apply in_or_app. left. apply in_or_app. right.
  apply in_or_app. right. left. reflexivity.
Qed.

Lemma blocked_class w T :
  forallb isWord w = true -> w <> [] ->
  blocked [] (lit "class " ++ w ++ lit " {" ++ T).
Proof.
  intros Hw Hw0. apply blocked_by. intros P M l Z HM Hl HMl HB.
  rewrite app_nil_r in HMl.
  destruct (enum_text_last M HM) as (body & Hb & Hbody).
  destruct (exists_last Hl) as (l' & z & ->).
  rewrite Hb, app_assoc in HMl. apply app_inj_tail in HMl. destruct HMl as [Hbody' <-].
  assert (Hl' : forallb wordOrSpace l' = true).
  { rewrite Hbody', forallb_app in Hbody. apply andb_true_iff in Hbody. apply Hbody. }
  assert (HK : forallb wordOrSpace (lit "class " ++ w ++ [chr " "]) = true).
  { rewrite !forallb_app. apply andb_true_iff. split; [reflexivity|].
    apply andb_true_iff. split; [|reflexivity].
    apply (forallb_impl isWord); [|exact Hw]. intros x Hx.
    unfold wordOrSpace. rewrite Hx. reflexivity. }
  assert (HB' : (lit "class " ++ w ++ [chr " "]) ++ chr "{" :: T = l' ++ chr "{" :: Z).
  { rewrite <- !app_assoc in HB. rewrite <- !app_assoc. exact HB. }
  destruct (same_run wordOrSpace _ _ (chr "{") T (chr "{") Z HK Hl' eq_refl eq_refl HB')
    as [HKl _].
  apply (enum_text_is_no_class M P w HM Hw Hw0).
  rewrite Hb, Hbody', <- HKl, <- !app_assoc. reflexivity.
Qed.

(** What a pass of the rules gives: the output begins with a part of the
    input that no enum text crosses, and no enum text is in it. *)
Definition good (s out : jsstring) : Prop :=
  (exists A B rest, out = A ++ B /\ s = A ++ rest /\ blocked A B) /\ no_enum out.

Section Pass.
Variables (r : regex) (f : replacer) (Inv : jsstring -> Prop).
Hypothesis r_nonempty : forall prev s caps rest,
  match_atoms r prev s = Some (caps, rest) -> exists m, s = m ++ rest /\ m <> [].
Hypothesis Inv_suffix : forall A B, Inv (A ++ B) -> Inv B.
Hypothesis here : forall prev x s',
  Inv (x :: s') -> match_atoms r prev (x :: s') = None ->
  forall prev', match_atoms re_enum prev' (x :: s') = None.
Hypothesis step : forall prev s caps rest m out',
  match_atoms r prev s = Some (caps, rest) -> s = m ++ rest -> m <> [] ->
  Inv s -> good rest out' -> good s (f m caps ++ out').

Lemma pass_good (n : nat) :
  forall s prev, (List.length s <= n)%nat -> Inv s -> good s (replace_from r f prev 0 s).
Proof.
  induction n as [|n IH]; intros s prev Hlen HInv.
  - destruct s as [|x s]; [|simpl in Hlen; lia].
    rewrite replace_from_nil.
    destruct (match_atoms r prev []) as [[caps rest]|] eqn:E.
    { destruct (r_nonempty _ _ _ _ E) as (m & Hm & Hne).
      symmetry in Hm. apply app_eq_nil in Hm. destruct Hm as [-> _]. congruence. }
    split; [|exact no_enum_nil].
    exists [], [], []. split; [reflexivity|]. split; [reflexivity|]. apply blocked_nil.
  - destruct s as [|x s].
    { apply (IH [] prev); [simpl; lia | exact HInv]. }
    simpl in Hlen.
    destruct (match_atoms r prev (x :: s)) as [[caps rest]|] eqn:E.
    + destruct (r_nonempty _ _ _ _ E) as (m & Hm & Hne).
      rewrite (replace_from_match r f prev (x :: s) caps rest m E Hm Hne).
      apply (step prev (x :: s) caps rest m _ E Hm Hne HInv).
      apply IH.
      * apply (f_equal (@List.length _)) in Hm. rewrite length_app in Hm.
        simpl in Hm. destruct m; [congruence|]. simpl in Hm. lia.
      * apply (Inv_suffix m). rewrite <- Hm. exact HInv.
    + rewrite (replace_from_no_match r f prev x s E).
      assert (HInv' : Inv s) by (apply (Inv_suffix [x]); exact HInv).
      destruct (IH s (Some x) ltac:(lia) HInv')
        as [(A & B & rest & Hout & Hs & Hblocked) Hno].
      split.
      * exists (x :: A), B, rest. split; [rewrite Hout; reflexivity|].
        split; [rewrite Hs at 1; reflexivity|]. apply blocked_cons, Hblocked.
      * apply no_enum_cons; [|exact Hno]. intros prev0.
        destruct (match_atoms re_enum prev0 (x :: replace_from r f (Some x) 0 s))
          as [[caps rest0]|] eqn:E0; [|reflexivity].
        exfalso. destruct (enum_sound _ _ _ _ E0) as (M & HM & HMt).
        rewrite Hout in HM.
        destruct (Hblocked [x] M rest0 HMt HM) as [Z' HZ'].
        apply (enum_complete M HMt prev0 (Z' ++ rest)).
        rewrite app_assoc, <- HZ', <- app_assoc, <- Hs.
        apply (here prev x s HInv E).
Qed.

End Pass.

Lemma arrow_parts prev s caps rest :
  match_atoms re_arrow prev s = Some (caps, rest) ->
  exists w1 sp1 sp2 w2,
    s = (w1 ++ sp1 ++ lit "->" ++ sp2 ++ w2) ++ rest /\ caps = [w1; w2] /\
    forallb isWord w1 = true /\ forallb isWord w2 = true.
Proof.
  intros H. destruct (match_atoms_sound _ _ _ _ _ H) as (m & -> & HM).
  change re_arrow with
    [Cls true isWord Plus; Cls false isSpace Star;
     Cls false (isChar (chr "-")) One; Cls false (isChar (chr ">")) One;
     Cls false isSpace Star; Cls true isWord Plus] in HM.
  cbn [Matches] in HM.
  destruct HM as (w1 & m1 & c1 & -> & Hw1 & _ & HM & ->).
  destruct HM as (sp1 & m2 & c2 & -> & Hsp1 & _ & HM & ->).
  destruct HM as (d & m3 & c3 & -> & Hd & Hqd & HM & ->).
  destruct HM as (gt & m4 & c4 & -> & Hgt & Hqgt & HM & ->).
  destruct HM as (sp2 & m5 & c5 & -> & Hsp2 & _ & HM & ->).
  destruct HM as (w2 & m6 & c6 & -> & Hw2 & _ & [-> ->] & ->).
  rewrite (one_piece _ _ Hd Hqd), (one_piece _ _ Hgt Hqgt).
  exists w1, sp1, sp2, w2. rewrite app_nil_r.
  split; [reflexivity|]. split; [reflexivity|]. split; assumption.
Qed.

Lemma visibility_parts prev s caps rest :
  match_atoms re_visibility prev s = Some (caps, rest) ->
  exists ws v w,
    s = (ws ++ [v] ++ w) ++ rest /\ caps = [ws; [v]; w] /\
    forallb isSpace ws = true /\ isVisibility v = true /\ forallb isWord w = true.
Proof.
  intros H. destruct (match_atoms_sound _ _ _ _ _ H) as (m & -> & HM).
  unfold re_visibility in HM. cbn [Matches] in HM.
  destruct HM as (_ & ws & m1 & c1 & -> & Hws & _ & HM & ->).
  destruct HM as (v & m2 & c2 & -> & Hv & Hqv & HM & ->).
  destruct HM as (w3 & m3 & c3 & -> & Hw3 & _ & [-> ->] & ->).
  destruct v as [|e [|e' v']]; try discriminate Hqv.
  simpl in Hv. rewrite andb_true_r in Hv.
  exists ws, e, w3. rewrite app_nil_r.
  split; [reflexivity|]. split; [reflexivity|]. repeat split; assumption.
Qed.

(** A captured word that the replacement copies in front of the rest of
    its output. *)
Lemma capture_tail s pre w rest out' :
  s = pre ++ w ++ rest -> no_enum s -> good rest out' -> no_enum (w ++ out').
Proof.
  intros Hs Hno [(A & B & rest' & Hout & Hrest & Hblocked) Hno'].
  apply no_enum_app; [|exact Hno'].
  intros A1 a A2 prev Hw.
  destruct (match_atoms re_enum prev (a :: A2 ++ out')) as [[caps rest0]|] eqn:E;
    [|reflexivity].
  exfalso. destruct (enum_sound _ _ _ _ E) as (M & HM & HMt).
  rewrite Hout in HM.
  destruct (Hblocked (a :: A2) M rest0 HMt HM) as [Z' HZ'].
  apply (enum_complete M HMt prev (Z' ++ rest')).
  apply (Hno (pre ++ A1) (M ++ Z' ++ rest') prev).
  assert (HH : (a :: A2) ++ A ++ rest' = M ++ Z' ++ rest').
  { rewrite app_assoc, HZ', <- app_assoc. reflexivity. }
  rewrite Hs, Hw, Hrest, <- HH, <- !app_assoc. reflexivity.
Qed.

Lemma word_has_no_enum_text M Z sigma :
  enum_text M -> forallb isWord sigma = true -> sigma = M ++ Z -> False.
Proof.
  intros HM Hs H. destruct (enum_text_last M HM) as (body & -> & _).
  assert (Hin : In (chr "{") sigma).
  { rewrite H. apply in_or_app. left. apply in_or_app. right. left. reflexivity. }
  pose proof (proj1 (forallb_forall _ _) Hs _ Hin) as Hb. discriminate Hb.
Qed.

Lemma forallb_part (p : jschar -> bool) A1 a A2 :
  forallb p (A1 ++ a :: A2) = true -> p a = true /\ forallb p (a :: A2) = true.
Proof.
  rewrite forallb_app. intros H. apply andb_true_iff in H. destruct H as [_ H].
  split; [|exact H]. simpl in H. apply andb_true_iff in H. apply H.
Qed.

Lemma enum_step prev s caps rest m out' :
  match_atoms re_enum prev s = Some (caps, rest) -> s = m ++ rest -> m <> [] ->
  True -> good rest out' -> good s (enum_replacement m caps ++ out').
Proof.
  intros E Hs Hm _ [_ Hno].
  destruct (enum_match_shape _ _ _ _ E)
    as (sp & w & sp2 & _ & _ & _ & Hw & Hw0 & _ & ->).
  unfold enum_replacement. change (group 0 [w]) with w.
  rewrite <- !app_assoc.
  split.
  - exists [], (lit "class " ++ w ++ lit " {" ++ [LF] ++ lit "    <<enumeration>>" ++ out'), s.
    split; [reflexivity|]. split; [reflexivity|].
    apply blocked_class; assumption.
  - apply no_enum_app.
    { intros A1 a A2 prev0 HA. apply enum_first_char.
      assert (Hin : In a (lit "class ")) by (rewrite HA; apply in_elt).
      vm_compute in Hin.
      repeat (destruct Hin as [<- | Hin]; [reflexivity|]). destruct Hin. }
    apply no_enum_app.
    { intros A1 a A2 prev0 HA.
      destruct (match_atoms re_enum prev0
                  (a :: A2 ++ lit " {" ++ [LF] ++ lit "    <<enumeration>>" ++ out'))
        as [[caps0 rest0]|] eqn:E0; [|reflexivity].
      exfalso. destruct (enum_sound _ _ _ _ E0) as (M & HM & HMt).
      rewrite HA in Hw. destruct (forallb_part _ _ _ _ Hw) as [_ Hw'].
      apply (enum_text_is_no_word_tail M rest0 (a :: A2)
               ([LF] ++ lit "    <<enumeration>>" ++ out') HMt Hw').
      rewrite <- HM. reflexivity. }
    let C := eval vm_compute in (lit " {" ++ [LF] ++ lit "    <<enumeration>>") in
    change (no_enum (C ++ out')).
    cbn [app].
    repeat (apply no_enum_cons; [intros prev0; vm_compute; reflexivity|]).
    exact Hno.
Qed.

Lemma arrow_step prev s caps rest m out' :
  match_atoms re_arrow prev s = Some (caps, rest) -> s = m ++ rest -> m <> [] ->
  no_enum s -> good rest out' -> good s (arrow_replacement m caps ++ out').
Proof.
  intros E Hs Hm Hnos Hgood.
  destruct (arrow_parts _ _ _ _ E) as (w1 & sp1 & sp2 & w2 & Hs' & -> & Hw1 & Hw2).
  unfold arrow_replacement. change (group 0 [w1; w2]) with w1.
  change (group 1 [w1; w2]) with w2. rewrite <- !app_assoc.
  split.
  - exists w1, (lit " --|> " ++ w2 ++ out'), (sp1 ++ lit "->" ++ sp2 ++ w2 ++ rest).
    split; [reflexivity|]. split; [rewrite Hs', <- !app_assoc; reflexivity|].
    apply blocked_arrow.
  - apply no_enum_app.
    { intros A1 a A2 prev0 HA.
      destruct (match_atoms re_enum prev0 (a :: A2 ++ lit " --|> " ++ w2 ++ out'))
        as [[caps0 rest0]|] eqn:E0; [|reflexivity].
      exfalso. destruct (enum_sound _ _ _ _ E0) as (M & HM & HMt).
      destruct (blocked_arrow (a :: A2) (w2 ++ out') [] M rest0 HMt HM) as [Z' HZ'].
      rewrite HA in Hw1. destruct (forallb_part _ _ _ _ Hw1) as [_ Hw1'].
      exact (word_has_no_enum_text M Z' (a :: A2) HMt Hw1' HZ'). }
    apply no_enum_app.
    { intros A1 a A2 prev0 HA. apply enum_first_char.
      assert (Hin : In a (lit " --|> ")) by (rewrite HA; apply in_elt).
      vm_compute in Hin.
      repeat (destruct Hin as [<- | Hin]; [reflexivity|]). destruct Hin. }
    apply (capture_tail s (w1 ++ sp1 ++ lit "->" ++ sp2) w2 rest out');
      [rewrite Hs', <- !app_assoc; reflexivity | exact Hnos | exact Hgood].
Qed.

Lemma visibility_step prev s caps rest m out' :
  match_atoms re_visibility prev s = Some (caps, rest) -> s = m ++ rest -> m <> [] ->
  no_enum s -> good rest out' -> good s (visibility_replacement m caps ++ out').
Proof.
  intros E Hs Hm Hnos Hgood.
  destruct (visibility_parts _ _ _ _ E) as (ws & v & w & Hs' & -> & Hws & Hv & Hw).
  unfold visibility_replacement. change (group 0 [ws; [v]; w]) with ws.
  change (group 1 [ws; [v]; w]) with [v]. change (group 2 [ws; [v]; w]) with w.
  rewrite <- !app_assoc.
  split.
  - exists (ws ++ [v]), (lit " " ++ w ++ out'), (w ++ rest).
    split; [rewrite <- !app_assoc; reflexivity|].
    split; [rewrite Hs', <- !app_assoc; reflexivity|].
    apply blocked_visibility, Hv.
  - apply no_enum_app.
    { intros A1 a A2 prev0 HA. apply enum_first_char, space_is_not_e.
      rewrite HA in Hws. apply (forallb_part _ _ _ _ Hws). }
    simpl app. apply no_enum_cons.
    { intros prev0. apply enum_first_char, visibility_is_not_e, Hv. }
    apply no_enum_cons.
    { intros prev0. apply enum_first_char. reflexivity. }
    apply (capture_tail s (ws ++ [v]) w rest out');
      [rewrite Hs', <- !app_assoc; reflexivity | exact Hnos | exact Hgood].
Qed.

Lemma class_rules_leave_no_enum fixed : no_enum (fixClassDiagram fixed).
Proof.
  unfold fixClassDiagram, replace_all.
  assert (H1 : no_enum (replace_from re_enum enum_replacement None 0 fixed)).
  { apply (pass_good re_enum enum_replacement (fun _ => True)
             enum_nonempty_match (fun _ _ _ => I)
             (fun prev x s' _ H => enum_none_any_prev prev (x :: s') H)
             enum_step (List.length fixed) fixed None (le_n _) I). }
  set (O1 := replace_from re_enum enum_replacement None 0 fixed) in *.
  assert (H2 : no_enum (replace_from re_arrow arrow_replacement None 0 O1)).
  { apply (pass_good re_arrow arrow_replacement no_enum
             (fun prev s caps rest => match_nonempty re_arrow prev s caps rest eq_refl) no_enum_suffix
             (fun prev x s' Hno _ prev' => no_enum_here (x :: s') prev' Hno)
             arrow_step (List.length O1) O1 None (le_n _) H1). }
  set (O2 := replace_from re_arrow arrow_replacement None 0 O1) in *.
  apply (pass_good re_visibility visibility_replacement no_enum
           (fun prev s caps rest => match_nonempty re_visibility prev s caps rest eq_refl) no_enum_suffix
           (fun prev x s' Hno _ prev' => no_enum_here (x :: s') prev' Hno)
           visibility_step (List.length O2) O2 None (le_n _) H2).
Qed.

(** C5, as amended.  When the first line of the normalized text begins
    with [classDiagram] and the input contains [enum], a blank, a name
    made of word characters, a blank and an opening brace, the output
    contains [class], the name and the brace, followed by a line feed,
    four blanks and the stereotype [<<enumeration>>]; and no enum
    declaration is left in the output: the pattern of the rule ([enum],
    white space, a name, optional white space, an opening brace) matches
    at no position of it, so that no text [enum X {] occurs in it,
    whatever the name [X].  The text [enum] alone may remain. *)
Theorem enum_becomes_enumeration_class code name :
  name <> [] -> forallb isWord name = true ->
  startsWith (lit "classDiagram") (header_of (normalizeEnv code)) = true ->
  includes (lit "enum " ++ name ++ lit " {") code = true ->
  includes (lit "class " ++ name ++ lit " {" ++ [LF] ++ lit "    <<enumeration>>")
    (fixMermaidCode code) = true /\
  has_match re_enum None (fixMermaidCode code) = false /\
  (forall X, X <> [] -> forallb isWord X = true ->
     includes (lit "enum " ++ X ++ lit " {") (fixMermaidCode code) = false).
Proof.
  intros Hne Hword Hhead Henum.
  assert (Hout : fixMermaidCode code = fixClassDiagram (normalizeEnv code)).
  { unfold fixMermaidCode. unfold header_of in Hhead. rewrite Hhead. reflexivity. }
  pose proof (class_rules_leave_no_enum (normalizeEnv code)) as Hno.
  rewrite <- Hout in Hno.
  split; [|split].
  - rewrite Hout. unfold fixClassDiagram.
    apply visibility_pass; try assumption.
    apply arrow_pass; try assumption.
    apply enum_pass; try assumption.
    apply normalizeEnv_keeps_enum; assumption.
  - apply has_match_no_enum, Hno.
  - intros X HX0 HX.
    destruct (includes (lit "enum " ++ X ++ lit " {") (fixMermaidCode code)) eqn:E;
      [|reflexivity].
    destruct (includes_inv _ _ E) as (a & b & Hab).
    pose proof (Hno a ((lit "enum " ++ X ++ lit " {") ++ b) None Hab) as Hnone.
    rewrite (match_enum_here X HX HX0 None b) in Hnone. discriminate Hnone.
Qed.

(** C5 as the spec states it fails: the output below has the class for
    [Foo] and still contains [enum], in the stereotype and in the line
    [enum Bar], which has no brace and is not rewritten. *)
Lemma enum_keyword_can_remain :
  startsWith (lit "classDiagram") (header_of (normalizeEnv sample_enums)) = true /\
  includes (lit "enum Foo {") sample_enums = true /\
  fixMermaidCode sample_enums
    = lit "classDiagram" ++ [LF] ++ lit "class Foo {" ++ [LF]
        ++ lit "    <<enumeration>>" ++ [LF] ++ lit "}" ++ [LF] ++ lit "enum Bar" /\
  includes (lit "enum Bar") (fixMermaidCode sample_enums) = true /\
  includes (lit "enum") (fixMermaidCode sample_enums) <> false.
Proof.
  repeat split; try (vm_compute; reflexivity). vm_compute. discriminate.
Qed.

Lemma enum_Color_becomes_a_class :
  lit "Color" <> [] /\ forallb isWord (lit "Color") = true /\
  startsWith (lit "classDiagram") (header_of (normalizeEnv sample_class)) = true /\
  includes (lit "enum " ++ lit "Color" ++ lit " {") sample_class = true /\
  includes (lit "class " ++ lit "Color" ++ lit " {" ++ [LF] ++ lit "    <<enumeration>>")
    (fixMermaidCode sample_class) = true /\
  has_match re_enum None (fixMermaidCode sample_class) = false /\
  (forall X, X <> [] -> forallb isWord X = true ->
     includes (lit "enum " ++ X ++ lit " {") (fixMermaidCode sample_class) = false).
Proof.
  assert (H1 : lit "Color" <> []) by discriminate.
  assert (H2 : forallb isWord (lit "Color") = true) by (vm_compute; reflexivity).
  assert (H3 : startsWith (lit "classDiagram") (header_of (normalizeEnv sample_class)) = true)
    by (vm_compute; reflexivity).
  assert (H4 : includes (lit "enum " ++ lit "Color" ++ lit " {") sample_class = true)
    by (vm_compute; reflexivity).
  split; [exact H1|]. split; [exact H2|]. split; [exact H3|]. split; [exact H4|].
  exact (enum_becomes_enumeration_class sample_class (lit "Color") H1 H2 H3 H4).
Defined.


End NormalizerFacts.

(* ================================================================== *)
(** * Part V: more on the session                                      *)
(* ================================================================== *)

Module SessionFlows.
Import Js Session SessionFacts.
Local Open Scope Z_scope.

(** A history item for the concrete runs, under a given id. *)
Definition item_with_id (name : string) : HistoryItem jsstring :=
  mkItem (sample svg name) (lit "draw it") 1.

Definition with_delete_pending : AppState jsstring :=
  setDeleteId (Some (lit "first"))
    (setHistory [item_with_id "first"; item_with_id "second"] (two_entries_at 0)).

Section Flows.
Variable Json : Type.
Variable JSON_parse : jsstring -> outcome Json.
Variable JSON_stringify : Json -> jsstring.
Implicit Types (s : AppState Json) (viz cur : VizResponse Json).

Lemma eqb_refl (a : jsstring) : eqb a a = true.
Proof. induction a as [|x a IH]; simpl; [reflexivity|]. rewrite N.eqb_refl. exact IH. Qed.

Lemma eqb_eq (a b : jsstring) : eqb a b = true -> a = b.
Proof.
  revert b. induction a as [|x a IH]; intros [|y b] H; simpl in H; try discriminate.
  - reflexivity.
  - apply andb_true_iff in H. destruct H as [Hxy H].
    apply N.eqb_eq in Hxy. subst y. f_equal. apply IH, H.
Qed.

(** ** Writes, undo and redo *)

(** X1.  After a write there is nothing to redo: handleRedo leaves the state
    as it is. *)
Theorem redo_after_push_does_nothing viz s :
  -1 <= stackIndex s < len (vizStack s) ->
  handleRedo (pushToStack viz s) = pushToStack viz s.
Proof.
  intros Hr. destruct (pushToStack_spec _ viz s Hr) as (_ & Hi & Hl & _).
  unfold handleRedo. rewrite Hi, Hl.
  destruct (Z.ltb_spec (stackIndex s + 1) (stackIndex s + 2 - 1)); [lia | reflexivity].
Qed.

(** X2.  An undo right after a write on top of an entry shows that entry
    again, and the written entry is kept for a redo. *)
Theorem undo_after_push_shows_previous_entry viz s :
  0 <= stackIndex s < len (vizStack s) ->
  stackIndex (handleUndo (pushToStack viz s)) = stackIndex s /\
  currentViz (handleUndo (pushToStack viz s)) = currentViz s /\
  currentViz (handleRedo (handleUndo (pushToStack viz s))) = Some viz.
Proof.
  intros Hr.
  assert (Hr' : -1 <= stackIndex s < len (vizStack s)) by lia.
  destruct (pushToStack_spec _ viz s Hr') as (Hs & Hi & Hl & Hc).
  destruct (handleUndo_spec _ (pushToStack viz s)) as [Hus Hui].
  assert (Hidx : stackIndex (handleUndo (pushToStack viz s)) = stackIndex s).
  { rewrite Hui, Hi. destruct (Z.ltb_spec 0 (stackIndex s + 1)); lia. }
  split; [exact Hidx|]. split.
  - unfold currentViz at 1. rewrite Hidx, Hus, Hl.
    destruct (currentViz_in_range _ s Hr) as [Hcur _]. rewrite Hcur.
    destruct (Z.leb_spec 0 (stackIndex s)); [|lia].
    destruct (Z.ltb_spec (stackIndex s) (stackIndex s + 2)); [|lia].
    simpl andb. cbv iota. rewrite Hs.
    rewrite nth_error_app1 by (rewrite length_firstn; unfold len in *; lia).
    rewrite nth_error_firstn.
    destruct (Nat.ltb_spec (Z.to_nat (stackIndex s)) (Z.to_nat (stackIndex s + 1)));
      [reflexivity | lia].
  - destruct (handleRedo_spec _ (handleUndo (pushToStack viz s))) as [Hrs Hri].
    rewrite <- Hc. apply currentViz_ext.
    + rewrite Hrs. exact Hus.
    + rewrite Hri, Hus, Hidx, Hl, Hi.
      destruct (Z.ltb_spec (stackIndex s) (stackIndex s + 2 - 1)); lia.
Qed.

(** X3.  Redo followed by undo gives back the index and the entry, whenever
    there is something to redo. *)
Theorem redo_then_undo_restores s :
  0 <= stackIndex s < len (vizStack s) - 1 ->
  stackIndex (handleRedo s) = stackIndex s + 1 /\
  stackIndex (handleUndo (handleRedo s)) = stackIndex s /\
  vizStack (handleUndo (handleRedo s)) = vizStack s /\
  currentViz (handleUndo (handleRedo s)) = currentViz s.
Proof.
  intros Hr. destruct (handleRedo_spec _ s) as [Hrs Hri].
  destruct (handleUndo_spec _ (handleRedo s)) as [Hus Hui].
  assert (H1 : stackIndex (handleRedo s) = stackIndex s + 1).
  { rewrite Hri. destruct (Z.ltb_spec (stackIndex s) (len (vizStack s) - 1)); lia. }
  assert (H2 : stackIndex (handleUndo (handleRedo s)) = stackIndex s).
  { rewrite Hui, H1. destruct (Z.ltb_spec 0 (stackIndex s + 1)); lia. }
  assert (H3 : vizStack (handleUndo (handleRedo s)) = vizStack s)
    by (rewrite Hus; exact Hrs).
  repeat split; try assumption. apply currentViz_ext; assumption.
Qed.

(** X4.  With nothing on display undo, redo, the manual edit and regenerate
    all leave the state as it is. *)
Theorem nothing_to_do_on_an_empty_stack s generated newId now :
  vizStack s = [] -> stackIndex s = -1 ->
  handleUndo s = s /\ handleRedo s = s /\
  handleUpdateVizFromCode JSON_parse s = s /\
  handleRegenerate generated newId now s = s.
Proof.
  intros Hs Hi.
  assert (Hcur : currentViz s = None) by (unfold currentViz; rewrite Hi; reflexivity).
  repeat split.
  - unfold handleUndo. rewrite Hi. reflexivity.
  - unfold handleRedo. rewrite Hi, Hs. reflexivity.
  - unfold handleUpdateVizFromCode. rewrite Hcur. reflexivity.
  - unfold handleRegenerate. rewrite Hcur. reflexivity.
Qed.

(** ** Deleting and loading *)

Lemma confirmDelete_history s target :
  deleteId s = Some target -> isEmpty target = false ->
  history (confirmDelete s)
    = filter (fun h => negb (sameId (id (item_viz h)) target)) (history s).
Proof.
  intros Hd Ht. unfold confirmDelete. rewrite Hd, Ht.
  destruct (currentViz s) as [cur|]; [|reflexivity].
  destruct (sameId (id cur) target); reflexivity.
Qed.

Lemma confirmDelete_removes_the_item_aux s target :
  deleteId s = Some target -> isEmpty target = false ->
  (forall h, In h (history (confirmDelete s)) <->
             In h (history s) /\ sameId (id (item_viz h)) target = false) /\
  (forall cur, currentViz s = Some cur -> sameId (id cur) target = true ->
     vizStack (confirmDelete s) = [] /\ stackIndex (confirmDelete s) = -1).
Proof.
  intros Hd Ht. pose proof (confirmDelete_history s target Hd Ht) as Hh. split.
  - intros h. rewrite Hh, filter_In.
    destruct (sameId (id (item_viz h)) target); simpl; intuition congruence.
  - intros cur Hcur Hsame. unfold confirmDelete. rewrite Hd, Ht, Hcur, Hsame.
    split; reflexivity.
Qed.

(** X5.  confirmDelete drops from the history exactly the items whose id is
    the pending one, closes the dialog and says so; the stack is emptied
    when the entry on display has that id and is left alone otherwise. *)
Theorem confirmDelete_removes_the_item s target :
  deleteId s = Some target -> isEmpty target = false ->
  (forall h, In h (history (confirmDelete s)) <->
             In h (history s) /\ sameId (id (item_viz h)) target = false) /\
  len (history (confirmDelete s)) <= len (history s) /\
  deleteId (confirmDelete s) = None /\
  toast (confirmDelete s) = Some (mkToast (lit "Visualization deleted") success) /\
  (forall cur, currentViz s = Some cur -> sameId (id cur) target = true ->
     vizStack (confirmDelete s) = [] /\ stackIndex (confirmDelete s) = -1) /\
  (forall cur, currentViz s = Some cur -> sameId (id cur) target = false ->
     vizStack (confirmDelete s) = vizStack s /\
     stackIndex (confirmDelete s) = stackIndex s).
Proof.
  intros Hd Ht. pose proof (confirmDelete_history s target Hd Ht) as Hh.
  split; [|split; [|split; [|split; [|split]]]].
  - intros h. rewrite Hh, filter_In.
    destruct (sameId (id (item_viz h)) target); simpl; intuition congruence.
  - rewrite Hh. unfold len. pose proof (filter_length_le
      (fun h : HistoryItem Json => negb (sameId (id (item_viz h)) target)) (history s)).
    lia.
  - unfold confirmDelete. rewrite Hd, Ht. reflexivity.
  - unfold confirmDelete. rewrite Hd, Ht. reflexivity.
  - intros cur Hcur Hsame. unfold confirmDelete. rewrite Hd, Ht, Hcur, Hsame.
    split; reflexivity.
  - intros cur Hcur Hsame. unfold confirmDelete. rewrite Hd, Ht, Hcur, Hsame.
    split; reflexivity.
Qed.

(** X6.  loadFromHistory puts the item on display as the only entry of the
    stack, so that there is nothing to undo or to redo, and leaves the
    history as it is. *)
Theorem loadFromHistory_shows_the_item item s :
  currentViz (loadFromHistory item s) = Some (item_viz item) /\
  vizStack (loadFromHistory item s) = [item_viz item] /\
  history (loadFromHistory item s) = history s /\
  handleUndo (loadFromHistory item s) = loadFromHistory item s /\
  handleRedo (loadFromHistory item s) = loadFromHistory item s.
Proof. repeat split; reflexivity. Qed.

(** ** Runs *)

Lemma step_keeps_stack_ok e s : stack_ok s -> stack_ok (step JSON_parse e s).
Proof.
  intros Hok. destruct e; simpl step; try exact Hok.
  - apply processPrompt_ok; assumption.
  - unfold handleRegenerate.
    destruct (currentViz s) as [cur|]; [|assumption].
    destruct (originalPrompt cur) as [p|]; [|assumption].
    destruct (isEmpty p); [assumption|]. apply processPrompt_ok; assumption.
  - apply handleUndo_ok; assumption.
  - apply handleRedo_ok; assumption.
  - apply handleNewViz_ok.
  - apply handleUpdateVizFromCode_ok; assumption.
  - apply pushToStack_ok; assumption.
  - apply loadFromHistory_ok.
  - apply confirmDelete_ok; assumption.
Qed.

Lemma run_keeps_stack_ok es : forall s, stack_ok s -> stack_ok (run JSON_parse es s).
Proof.
  induction es as [|e es IH]; intros s Hok; [exact Hok|].
  simpl. apply IH, step_keeps_stack_ok, Hok.
Qed.

Lemma stack_ok_display s :
  stack_ok s -> (currentViz s = None <-> vizStack s = []).
Proof.
  intros [Hr Hiff]. split.
  - intros Hnone. apply Hiff.
    destruct (Z.eq_dec (stackIndex s) (-1)) as [|Hne]; [assumption|].
    assert (H : 0 <= stackIndex s < len (vizStack s)) by lia.
    destruct (currentViz_in_range _ s H) as [_ [cur Hcur]]. congruence.
  - intros Hnil. apply Hiff in Hnil. unfold currentViz. rewrite Hnil. reflexivity.
Qed.

(** X7.  Whatever the user does from the start of the session, the index
    stays inside the stack (or is [-1] on the empty stack), and something
    is on display exactly when the stack is not empty. *)
Theorem reachable_states_are_ok es saved :
  stack_ok (run JSON_parse es (initialState saved)) /\
  (currentViz (run JSON_parse es (initialState saved)) = None <->
   vizStack (run JSON_parse es (initialState saved)) = []).
Proof.
  assert (Hok : stack_ok (run JSON_parse es (initialState saved))).
  { apply run_keeps_stack_ok. apply stack_ok_empty; reflexivity. }
  split; [exact Hok | apply stack_ok_display, Hok].
Qed.

Lemma len_slice0_le {A} (l : list A) : len (slice0 l 5) <= 5.
Proof.
  rewrite slice0_firstn by lia. pose proof (len_firstn_le 5 l) as H.
  change (Z.of_nat 5) with 5 in H. exact H.
Qed.

Lemma processPrompt_history_bound promptText isRefinement generated newId now s :
  len (history s) <= 5 ->
  len (history (processPrompt promptText isRefinement generated newId now s)) <= 5.
Proof.
  intros H. unfold processPrompt.
  destruct (isEmpty (trim promptText)); [exact H|].
  destruct generated as [response|message]; [|exact H].
  destruct (isSupported (visualizationType response)); simpl negb; cbv iota; [|exact H].
  destruct isRefinement, (currentViz s), (eqb (prompt s) promptText);
    apply len_slice0_le.
Qed.

Lemma step_history_bound e s :
  len (history s) <= 5 -> len (history (step JSON_parse e s)) <= 5.
Proof.
  intros H. destruct e; simpl step; try exact H.
  - apply processPrompt_history_bound, H.
  - unfold handleRegenerate.
    destruct (currentViz s) as [cur|]; [|exact H].
    destruct (originalPrompt cur) as [p|]; [|exact H].
    destruct (isEmpty p); [exact H|]. apply processPrompt_history_bound, H.
  - unfold handleUndo. destruct (0 <? stackIndex s); exact H.
  - unfold handleRedo. destruct (stackIndex s <? len (vizStack s) - 1); exact H.
  - unfold handleUpdateVizFromCode.
    destruct (currentViz s) as [cur|]; [|exact H].
    destruct (updatedVizFromCode JSON_parse cur (editableCode s)); exact H.
  - unfold confirmDelete.
    destruct (deleteId s) as [target|] eqn:Hd; [|exact H].
    destruct (isEmpty target) eqn:Ht; [exact H|].
    pose proof (confirmDelete_history s target Hd Ht) as Hh.
    unfold confirmDelete in Hh. rewrite Hd, Ht in Hh. rewrite Hh.
    unfold len in *. pose proof (filter_length_le
      (fun h : HistoryItem Json => negb (sameId (id (item_viz h)) target)) (history s)).
    lia.
Qed.

(** X8.  A history of at most five items stays one of at most five items,
    whatever the user does. *)
Theorem history_stays_within_five es s :
  len (history s) <= 5 -> len (history (run JSON_parse es s)) <= 5.
Proof.
  revert s. induction es as [|e es IH]; intros s H; [exact H|].
  simpl. apply IH, step_history_bound, H.
Qed.

(** ** Generating *)

Lemma processPrompt_success_current promptText isRefinement response newId now s :
  isEmpty (trim promptText) = false ->
  isSupported (visualizationType response) = true ->
  currentViz (processPrompt promptText isRefinement (Returns response) newId now s)
    = Some (withIdAndPrompt newId promptText response).
Proof.
  intros Hblank Hsup. unfold processPrompt. rewrite Hblank, Hsup. simpl negb. cbv iota.
  destruct isRefinement; [destruct (currentViz s) as [cur|] eqn:Hcur|];
    destruct (eqb (prompt s) promptText); try reflexivity.
  - destruct (currentViz_Some _ s cur Hcur) as [Hr _].
    assert (Hr' : -1 <= stackIndex s < len (vizStack s)) by lia.
    destruct (pushToStack_spec _ (withIdAndPrompt newId promptText response) s Hr')
      as (_ & _ & _ & Hc).
    rewrite <- Hc. apply currentViz_ext; reflexivity.
  - destruct (currentViz_Some _ s cur Hcur) as [Hr _].
    assert (Hr' : -1 <= stackIndex s < len (vizStack s)) by lia.
    destruct (pushToStack_spec _ (withIdAndPrompt newId promptText response) s Hr')
      as (_ & _ & _ & Hc).
    rewrite <- Hc. apply currentViz_ext; reflexivity.
Qed.

Lemma processPrompt_scratch promptText response newId now s :
  isEmpty (trim promptText) = false ->
  isSupported (visualizationType response) = true ->
  vizStack (processPrompt promptText false (Returns response) newId now s)
    = [withIdAndPrompt newId promptText response] /\
  stackIndex (processPrompt promptText false (Returns response) newId now s) = 0 /\
  toast (processPrompt promptText false (Returns response) newId now s)
    = Some (mkToast (lit "Visualization generated") success).
Proof.
  intros Hblank Hsup. unfold processPrompt. rewrite Hblank, Hsup. simpl negb. cbv iota.
  destruct (eqb (prompt s) promptText); repeat split; reflexivity.
Qed.

(** X9.  Regenerating starts over: on success the stack holds the new entry
    only, made from the prompt of the entry that was on display, and there
    is nothing to undo or to redo. *)
Theorem regenerate_starts_over s cur p response newId now :
  currentViz s = Some cur -> originalPrompt cur = Some p ->
  isEmpty (trim p) = false ->
  isSupported (visualizationType response) = true ->
  vizStack (handleRegenerate (Returns response) newId now s)
    = [withIdAndPrompt newId p response] /\
  stackIndex (handleRegenerate (Returns response) newId now s) = 0 /\
  originalPrompt (withIdAndPrompt newId p response) = Some p /\
  handleUndo (handleRegenerate (Returns response) newId now s)
    = handleRegenerate (Returns response) newId now s /\
  handleRedo (handleRegenerate (Returns response) newId now s)
    = handleRegenerate (Returns response) newId now s.
Proof.
  intros Hcur Hp Hblank Hsup.
  assert (Hne : isEmpty p = false) by (destruct p; [discriminate Hblank | reflexivity]).
  assert (Heq : handleRegenerate (Returns response) newId now s
                = processPrompt p false (Returns response) newId now s).
  { unfold handleRegenerate. rewrite Hcur, Hp, Hne. reflexivity. }
  rewrite Heq.
  destruct (processPrompt_scratch p response newId now s Hblank Hsup) as (Hs & Hi & _).
  split; [exact Hs|]. split; [exact Hi|]. split; [reflexivity|]. split.
  - unfold handleUndo. rewrite Hi. reflexivity.
  - unfold handleRedo. rewrite Hi, Hs. reflexivity.
Qed.

(** X10.  An answer of a type the application does not support shows nothing
    new: the stack, the index, the history, the toast and the prompt are
    as before. *)
Theorem unsupported_answer_shows_nothing_new promptText isRefinement response newId now s :
  isSupported (visualizationType response) = false ->
  vizStack (processPrompt promptText isRefinement (Returns response) newId now s)
    = vizStack s /\
  stackIndex (processPrompt promptText isRefinement (Returns response) newId now s)
    = stackIndex s /\
  history (processPrompt promptText isRefinement (Returns response) newId now s)
    = history s /\
  toast (processPrompt promptText isRefinement (Returns response) newId now s)
    = toast s /\
  prompt (processPrompt promptText isRefinement (Returns response) newId now s)
    = prompt s.
Proof.
  intros Hsup. unfold processPrompt. rewrite Hsup.
  destruct (isEmpty (trim promptText)); repeat split; reflexivity.
Qed.

(** X11.  The entry that was just generated and its history item carry the
    same id: deleting that id right away empties the stack and leaves no
    item with that id in the history. *)
Theorem deleting_the_fresh_entry_resets promptText isRefinement response newId now s :
  isEmpty (trim promptText) = false ->
  isSupported (visualizationType response) = true ->
  isEmpty newId = false ->
  let s1 := processPrompt promptText isRefinement (Returns response) newId now s in
  let s2 := confirmDelete (promptDelete newId s1) in
  In (mkItem (withIdAndPrompt newId promptText response) promptText now) (history s1) /\
  vizStack s2 = [] /\ stackIndex s2 = -1 /\ currentViz s2 = None /\
  (forall h, In h (history s2) -> sameId (id (item_viz h)) newId = false).
Proof.
  intros Hblank Hsup Hid s1 s2.
  assert (Hcur : currentViz (promptDelete newId s1)
                 = Some (withIdAndPrompt newId promptText response)).
  { subst s1. rewrite <- (processPrompt_success_current promptText isRefinement
                            response newId now s Hblank Hsup).
    apply currentViz_ext; reflexivity. }
  assert (Hd : deleteId (promptDelete newId s1) = Some newId) by reflexivity.
  assert (Hsame : sameId (id (withIdAndPrompt newId promptText response)) newId = true)
    by (simpl; apply eqb_refl).
  destruct (confirmDelete_removes_the_item_aux (promptDelete newId s1) newId Hd Hid)
    as (Hin & Hreset).
  destruct (Hreset _ Hcur Hsame) as [Hs Hi].
  split; [|split; [exact Hs | split; [exact Hi | split]]].
  - subst s1. rewrite processPrompt_history by assumption.
    rewrite slice0_firstn by lia. left. reflexivity.
  - subst s2. unfold currentViz. rewrite Hi. reflexivity.
  - intros h Hh. apply Hin in Hh. exact (proj2 Hh).
Qed.

(** ** The editor *)

(** X12.  After a manual edit of a mermaid or an svg entry the source text of
    the entry on display is the text of the editor, so the effect that
    copies it back into the editor changes nothing. *)
Theorem editor_text_is_the_new_source s cur :
  currentViz s = Some cur ->
  visualizationType cur = mermaid \/ visualizationType cur = svg ->
  getCodeSnippet JSON_stringify (currentViz (handleUpdateVizFromCode JSON_parse s))
    = Text (editableCode s).
Proof.
  intros Hcur Hty.
  destruct (currentViz_Some _ s cur Hcur) as [Hr _].
  assert (Hr' : -1 <= stackIndex s < len (vizStack s)) by lia.
  unfold handleUpdateVizFromCode, updatedVizFromCode. rewrite Hcur.
  destruct Hty as [Hty|Hty]; rewrite Hty.
  - destruct (pushToStack_spec _ (withMermaidCode (editableCode s) cur) s Hr')
      as (_ & _ & _ & Hc).
    replace (currentViz (showToast (lit "Visualization updated from code") success
               (pushToStack (withMermaidCode (editableCode s) cur) s)))
      with (Some (withMermaidCode (editableCode s) cur))
      by (rewrite <- Hc; apply currentViz_ext; reflexivity).
    simpl. rewrite Hty. reflexivity.
  - destruct (pushToStack_spec _ (withSvgCode (editableCode s) cur) s Hr')
      as (_ & _ & _ & Hc).
    replace (currentViz (showToast (lit "Visualization updated from code") success
               (pushToStack (withSvgCode (editableCode s) cur) s)))
      with (Some (withSvgCode (editableCode s) cur))
      by (rewrite <- Hc; apply currentViz_ext; reflexivity).
    simpl. rewrite Hty. reflexivity.
Qed.

(** ** Submitting *)

(** X13.  A submit with a non-blank prompt that succeeds puts the new entry on
    display and clears the prompt box; with nothing on display before it
    is a generation from scratch, else it is a refinement on top of the
    current entry. *)
Theorem submit_generates_or_refines response newId now s :
  isEmpty (trim (prompt s)) = false ->
  isSupported (visualizationType response) = true ->
  currentViz (handleSubmit (Returns response) newId now s)
    = Some (withIdAndPrompt newId (prompt s) response) /\
  prompt (handleSubmit (Returns response) newId now s) = [] /\
  (currentViz s = None ->
     vizStack (handleSubmit (Returns response) newId now s)
       = [withIdAndPrompt newId (prompt s) response] /\
     toast (handleSubmit (Returns response) newId now s)
       = Some (mkToast (lit "Visualization generated") success)) /\
  (forall cur, currentViz s = Some cur ->
     vizStack (handleSubmit (Returns response) newId now s)
       = firstn (Z.to_nat (stackIndex s + 1)) (vizStack s)
           ++ [withIdAndPrompt newId (prompt s) response] /\
     toast (handleSubmit (Returns response) newId now s)
       = Some (mkToast (lit "Visualization updated") success)).
Proof.
  intros Hblank Hsup. unfold handleSubmit.
  split; [apply processPrompt_success_current; assumption|].
  split; [|split].
  - unfold processPrompt. rewrite Hblank, Hsup, eqb_refl. simpl negb. cbv iota.
    destruct (isSome (currentViz s)), (currentViz s); reflexivity.
  - intros Hnone. rewrite Hnone. simpl isSome.
    destruct (processPrompt_scratch (prompt s) response newId now s Hblank Hsup)
      as (Hs & _ & Ht).
    split; assumption.
  - intros cur Hcur. rewrite Hcur. simpl isSome.
    destruct (currentViz_Some _ s cur Hcur) as [Hr _].
    destruct (processPrompt_refine _ (prompt s) response newId now s Hblank Hsup Hr)
      as [Hps _].
    assert (Hr' : -1 <= stackIndex s < len (vizStack s)) by lia.
    destruct (pushToStack_spec _ (withIdAndPrompt newId (prompt s) response) s Hr')
      as (Hs & _).
    split; [rewrite Hps; exact Hs|].
    unfold processPrompt. rewrite Hblank, Hsup, Hcur, eqb_refl. reflexivity.
Qed.

End Flows.

(** ** Concrete runs *)

Lemma range_of_first_of_two :
  0 <= stackIndex (two_entries_at 0) < len (vizStack (two_entries_at 0)).
Proof. vm_compute. split; [discriminate | reflexivity]. Qed.

Lemma redo_after_push_on_two_entries :
  -1 <= stackIndex (two_entries_at 0) < len (vizStack (two_entries_at 0)) /\
  handleRedo (pushToStack (sample svg "third") (two_entries_at 0))
    = pushToStack (sample svg "third") (two_entries_at 0).
Proof.
  assert (Hr : -1 <= stackIndex (two_entries_at 0) < len (vizStack (two_entries_at 0)))
    by (vm_compute; split; [discriminate | reflexivity]).
  split; [exact Hr|].
  exact (redo_after_push_does_nothing _ (sample svg "third") (two_entries_at 0) Hr).
Defined.

Lemma undo_after_push_on_two_entries :
  0 <= stackIndex (two_entries_at 0) < len (vizStack (two_entries_at 0)) /\
  stackIndex (handleUndo (pushToStack (sample svg "third") (two_entries_at 0)))
    = stackIndex (two_entries_at 0) /\
  currentViz (handleUndo (pushToStack (sample svg "third") (two_entries_at 0)))
    = currentViz (two_entries_at 0) /\
  currentViz (handleRedo (handleUndo (pushToStack (sample svg "third") (two_entries_at 0))))
    = Some (sample svg "third").
Proof.
  split; [exact range_of_first_of_two|].
  exact (undo_after_push_shows_previous_entry _ (sample svg "third") (two_entries_at 0)
           range_of_first_of_two).
Defined.

Lemma redo_then_undo_on_two_entries :
  0 <= stackIndex (two_entries_at 0) < len (vizStack (two_entries_at 0)) - 1 /\
  stackIndex (handleRedo (two_entries_at 0)) = stackIndex (two_entries_at 0) + 1 /\
  stackIndex (handleUndo (handleRedo (two_entries_at 0))) = stackIndex (two_entries_at 0) /\
  vizStack (handleUndo (handleRedo (two_entries_at 0))) = vizStack (two_entries_at 0) /\
  currentViz (handleUndo (handleRedo (two_entries_at 0))) = currentViz (two_entries_at 0).
Proof.
  assert (Hr : 0 <= stackIndex (two_entries_at 0) < len (vizStack (two_entries_at 0)) - 1)
    by (vm_compute; split; [discriminate | reflexivity]).
  split; [exact Hr|].
  exact (redo_then_undo_restores _ (two_entries_at 0) Hr).
Defined.

Lemma nothing_to_do_at_the_start :
  vizStack (initialState (Json:=jsstring) []) = [] /\
  stackIndex (initialState (Json:=jsstring) []) = -1 /\
  handleUndo (initialState []) = initialState (Json:=jsstring) [] /\
  handleRedo (initialState []) = initialState (Json:=jsstring) [] /\
  handleUpdateVizFromCode parse_braces_only (initialState []) = initialState [] /\
  handleRegenerate (Throws []) (lit "1") 1 (initialState []) = initialState (Json:=jsstring) [].
Proof.
  split; [reflexivity|]. split; [reflexivity|].
  exact (nothing_to_do_on_an_empty_stack _ parse_braces_only (initialState [])
           (Throws []) (lit "1") 1 eq_refl eq_refl).
Defined.

Lemma deleting_the_first_of_two_items :
  deleteId with_delete_pending = Some (lit "first") /\
  isEmpty (lit "first") = false /\
  currentViz with_delete_pending = Some (sample mermaid "first") /\
  history (confirmDelete with_delete_pending) = [item_with_id "second"] /\
  deleteId (confirmDelete with_delete_pending) = None /\
  vizStack (confirmDelete with_delete_pending) = [] /\
  stackIndex (confirmDelete with_delete_pending) = -1.
Proof.
  assert (Hd : deleteId with_delete_pending = Some (lit "first")) by reflexivity.
  assert (Ht : isEmpty (lit "first") = false) by reflexivity.
  assert (Hcur : currentViz with_delete_pending = Some (sample mermaid "first"))
    by reflexivity.
  destruct (confirmDelete_removes_the_item _ parse_braces_only with_delete_pending
              (lit "first") Hd Ht)
    as (_ & _ & Hclosed & _ & Hreset & _).
  destruct (Hreset _ Hcur eq_refl) as [Hs Hi].
  split; [exact Hd|]. split; [exact Ht|]. split; [exact Hcur|].
  split; [vm_compute; reflexivity|]. split; [exact Hclosed|]. split; assumption.
Defined.

Lemma history_after_a_sixth_generation :
  len (history (initialState full_history)) <= 5 /\
  len (history (run parse_braces_only
                  [Submit (Returns (sample mermaid "fresh")) (lit "6") 6; Undo;
                   PromptDelete (lit "old"); ConfirmDelete]
                  (setPrompt (lit "new") (initialState full_history)))) <= 5.
Proof.
  assert (H : len (history (setPrompt (lit "new") (initialState full_history))) <= 5)
    by (vm_compute; discriminate).
  split; [exact H|].
  exact (history_stays_within_five _ parse_braces_only _ _ H).
Defined.

Lemma regenerating_the_second_of_two :
  currentViz (two_entries_at 1) = Some (sample svg "second") /\
  originalPrompt (sample svg "second") = Some (lit "draw it") /\
  isEmpty (trim (lit "draw it")) = false /\
  isSupported (visualizationType (sample mermaid "again")) = true /\
  vizStack (handleRegenerate (Returns (sample mermaid "again")) (lit "3") 3 (two_entries_at 1))
    = [withIdAndPrompt (lit "3") (lit "draw it") (sample mermaid "again")] /\
  stackIndex (handleRegenerate (Returns (sample mermaid "again")) (lit "3") 3
                (two_entries_at 1)) = 0.
Proof.
  assert (Hcur : currentViz (two_entries_at 1) = Some (sample svg "second")) by reflexivity.
  assert (Hp : originalPrompt (sample svg "second") = Some (lit "draw it")) by reflexivity.
  assert (Hb : isEmpty (trim (lit "draw it")) = false) by reflexivity.
  assert (Hs : isSupported (visualizationType (sample mermaid "again")) = true)
    by reflexivity.
  destruct (regenerate_starts_over _ (two_entries_at 1) (sample svg "second") (lit "draw it")
              (sample mermaid "again") (lit "3") 3 Hcur Hp Hb Hs) as (H1 & H2 & _).
  repeat (split; [assumption|]). exact H2.
Defined.

Lemma answer_of_an_unknown_type :
  isSupported (visualizationType (sample (otherType (lit "table")) "t")) = false /\
  vizStack (processPrompt (lit "a table") true
              (Returns (sample (otherType (lit "table")) "t")) (lit "4") 4 (two_entries_at 1))
    = vizStack (two_entries_at 1) /\
  history (processPrompt (lit "a table") true
             (Returns (sample (otherType (lit "table")) "t")) (lit "4") 4 (two_entries_at 1))
    = history (two_entries_at 1).
Proof.
  assert (Hs : isSupported (visualizationType (sample (otherType (lit "table")) "t")) = false)
    by reflexivity.
  destruct (unsupported_answer_shows_nothing_new _ (lit "a table") true
              (sample (otherType (lit "table")) "t") (lit "4") 4 (two_entries_at 1) Hs)
    as (H1 & _ & H3 & _).
  split; [exact Hs|]. split; assumption.
Defined.

Lemma deleting_right_after_generating :
  isEmpty (trim (lit "a pie chart")) = false /\
  isSupported (visualizationType (sample recharts "pie")) = true /\
  isEmpty (lit "5") = false /\
  vizStack (confirmDelete (promptDelete (lit "5")
              (processPrompt (lit "a pie chart") false (Returns (sample recharts "pie"))
                 (lit "5") 5 (two_entries_at 1)))) = [] /\
  stackIndex (confirmDelete (promptDelete (lit "5")
                (processPrompt (lit "a pie chart") false (Returns (sample recharts "pie"))
                   (lit "5") 5 (two_entries_at 1)))) = -1.
Proof.
  assert (Hb : isEmpty (trim (lit "a pie chart")) = false) by reflexivity.
  assert (Hs : isSupported (visualizationType (sample recharts "pie")) = true) by reflexivity.
  assert (Hi : isEmpty (lit "5") = false) by reflexivity.
  destruct (deleting_the_fresh_entry_resets _ parse_braces_only (lit "a pie chart") false
              (sample recharts "pie") (lit "5") 5 (two_entries_at 1) Hb Hs Hi)
    as (_ & H1 & H2 & _).
  repeat (split; [assumption|]). exact H2.
Defined.

Lemma editing_the_first_diagram :
  currentViz (setEditableCode (lit "graph LR") (two_entries_at 0))
    = Some (sample mermaid "first") /\
  getCodeSnippet (fun config : jsstring => config)
    (currentViz (handleUpdateVizFromCode parse_braces_only
                   (setEditableCode (lit "graph LR") (two_entries_at 0))))
    = Text (lit "graph LR").
Proof.
  assert (Hcur : currentViz (setEditableCode (lit "graph LR") (two_entries_at 0))
                 = Some (sample mermaid "first")) by reflexivity.
  split; [exact Hcur|].
  exact (editor_text_is_the_new_source _ parse_braces_only (fun config => config)
           _ _ Hcur (or_introl eq_refl)).
Defined.

Lemma first_submit_of_a_session :
  isEmpty (trim (prompt (setPrompt (lit "a pie chart") (initialState (Json:=jsstring) []))))
    = false /\
  isSupported (visualizationType (sample recharts "pie")) = true /\
  vizStack (handleSubmit (Returns (sample recharts "pie")) (lit "5") 5
              (setPrompt (lit "a pie chart") (initialState [])))
    = [withIdAndPrompt (lit "5") (lit "a pie chart") (sample recharts "pie")] /\
  prompt (handleSubmit (Returns (sample recharts "pie")) (lit "5") 5
            (setPrompt (lit "a pie chart") (initialState []))) = [].
Proof.
  assert (Hb : isEmpty (trim (prompt (setPrompt (lit "a pie chart")
                                        (initialState (Json:=jsstring) [])))) = false)
    by reflexivity.
  assert (Hs : isSupported (visualizationType (sample recharts "pie")) = true) by reflexivity.
  destruct (submit_generates_or_refines _ (sample recharts "pie") (lit "5") 5
              (setPrompt (lit "a pie chart") (initialState [])) Hb Hs)
    as (_ & Hp & Hscratch & _).
  destruct (Hscratch eq_refl) as [Hstack _].
  split; [exact Hb|]. split; [exact Hs|]. split; assumption.
Defined.

End SessionFlows.

(** * Part VI: more on the normalizer *)

Module FenceFacts.
Import Js Regex Normalizer StringFacts RegexFacts.

Definition fence : jsstring := lit "```".

Lemma remove_fence_from (f : replacer) (Hf : forall m caps, f m caps = []) (n : nat) :
  forall (s : jsstring) (prev : option jschar),
  (List.length s <= n)%nat ->
  includes fence (replace_from (literal fence) f prev 0 s) = false /\
  (startsWith (lit "`") s = false ->
   startsWith (lit "`") (replace_from (literal fence) f prev 0 s) = false) /\
  (startsWith (lit "``") s = false ->
   startsWith (lit "``") (replace_from (literal fence) f prev 0 s) = false).
Proof.
  induction n as [|n IH]; intros s prev Hlen.
  - destruct s as [|x s]; [|simpl in Hlen; lia].
    rewrite replace_from_nil, match_literal. repeat split; reflexivity.
  - destruct s as [|x s].
    { rewrite replace_from_nil, match_literal. repeat split; reflexivity. }
    simpl in Hlen.
    destruct (startsWith fence (x :: s)) eqn:E.
    + destruct (startsWith_inv _ _ E) as [rest Hs]. rewrite Hs.
      assert (Hrest : (List.length rest <= n)%nat).
      { apply (f_equal (@List.length _)) in Hs. rewrite length_app in Hs.
        simpl in Hs. lia. }
      rewrite (replace_from_match (literal fence) f prev (fence ++ rest) [] rest fence);
        [| rewrite match_literal, startsWith_app; reflexivity | reflexivity | discriminate].
      rewrite Hf. simpl app at 1.
      destruct (IH rest (last_of fence prev) Hrest) as (H0 & _ & _).
      split; [exact H0|]. split; intros H; discriminate H.
    + rewrite replace_from_no_match by (rewrite match_literal, E; reflexivity).
      destruct (IH s (Some x) ltac:(lia)) as (H0 & H1 & H2).
      destruct (N.eqb_spec 96 x) as [Hx|Hx].
      * subst x.
        assert (E2 : startsWith (lit "``") s = false).
        { destruct s as [|y s]; [reflexivity|]. exact E. }
        specialize (H2 E2).
        split; [|split].
        -- change (includes fence (96 :: ?t)) with
             (startsWith fence (96 :: t) || includes fence t).
           rewrite H0, orb_false_r.
           change (startsWith fence (96 :: ?t)) with (startsWith (lit "``") t).
           exact H2.
        -- intros H; discriminate H.
        -- intros H.
           assert (E1 : startsWith (lit "`") s = false).
           { exact H. }
           specialize (H1 E1). exact H1.
      * apply N.eqb_neq in Hx.
        assert (Hno : forall p t, startsWith (96 :: p) (x :: t) = false).
        { intros p t. change (startsWith (96 :: p) (x :: t)) with ((96 =? x) && startsWith p t).
          rewrite Hx. reflexivity. }
        split; [|split].
        -- change (includes fence (x :: ?t)) with
             (startsWith fence (x :: t) || includes fence t).
           rewrite H0, orb_false_r. apply Hno.
        -- intros _. apply Hno.
        -- intros _. apply Hno.
Qed.

Lemma includes_app_r (p s b : jsstring) :
  includes p s = true -> includes p (s ++ b) = true.
Proof.
  intros H. destruct (includes_inv _ _ H) as (a & b' & ->).
  rewrite <- !app_assoc. apply includes_intro.
Qed.

Lemma includes_of_trim (p s : jsstring) :
  includes p (trim s) = true -> includes p s = true.
Proof.
  intros H. destruct (trim_middle s) as (ws1 & ws2 & Hs & _).
  rewrite Hs. apply includes_app_l, includes_app_r, H.
Qed.

Lemma absent_after_trim (p s : jsstring) :
  includes p s = false -> includes p (trim s) = false.
Proof.
  intros H. destruct (includes p (trim s)) eqn:E; [|reflexivity].
  rewrite (includes_of_trim _ _ E) in H. discriminate H.
Qed.

Lemma trimStart_head (s : jsstring) :
  trimStart s = [] \/ exists c r, trimStart s = c :: r /\ isSpace c = false.
Proof.
  induction s as [|x s IH]; [left; reflexivity|].
  simpl. destruct (isSpace x) eqn:E; [exact IH|].
  right. exists x, s. split; [reflexivity | exact E].
Qed.

Lemma trimStart_snoc (l : jsstring) (c : jschar) :
  isSpace c = false -> exists l', trimStart (l ++ [c]) = l' ++ [c].
Proof.
  intros H. induction l as [|x l IH].
  - exists []. simpl. rewrite H. reflexivity.
  - simpl. destruct (isSpace x); [exact IH|]. exists (x :: l). reflexivity.
Qed.

Lemma trimEnd_keeps_head (c : jschar) (r : jsstring) :
  isSpace c = false -> exists r', trimEnd (c :: r) = c :: r'.
Proof.
  intros H. unfold trimEnd. simpl rev.
  destruct (trimStart_snoc (rev r) c H) as [l' Hl]. rewrite Hl.
  exists (rev l'). rewrite rev_app_distr. reflexivity.
Qed.

Lemma trimStart_idempotent (s : jsstring) : trimStart (trimStart s) = trimStart s.
Proof.
  destruct (trimStart_head s) as [H | (c & r & H & Hc)]; rewrite H; [reflexivity|].
  apply trimStart_fixed, Hc.
Qed.

Lemma trimEnd_idempotent (s : jsstring) : trimEnd (trimEnd s) = trimEnd s.
Proof. unfold trimEnd. rewrite rev_involutive, trimStart_idempotent. reflexivity. Qed.

Lemma trim_idempotent (s : jsstring) : trim (trim s) = trim s.
Proof.
  unfold trim.
  assert (H : trimStart (trimEnd (trimStart s)) = trimEnd (trimStart s)).
  { destruct (trimStart_head s) as [H | (c & r & H & Hc)]; rewrite H; [reflexivity|].
    destruct (trimEnd_keeps_head c r Hc) as [r' Hr]. rewrite Hr.
    apply trimStart_fixed, Hc. }
  rewrite H. apply trimEnd_idempotent.
Qed.

Lemma fence_removed (f : replacer) (s : jsstring) :
  (forall m caps, f m caps = []) ->
  includes fence (replace_all re_fence f s) = false.
Proof.
  intros Hf. unfold replace_all.
  exact (proj1 (remove_fence_from f Hf (List.length s) s None (le_n _))).
Qed.

(** X14.  The text that cleanJsonString hands to JSON.parse holds no code fence,
    whatever the answer was. *)
Theorem cleaned_answer_has_no_fence (text : jsstring) :
  includes (lit "```") (cleanJsonString text) = false.
Proof.
  unfold cleanJsonString. apply absent_after_trim.
  apply (fence_removed (fun _ _ => [])). reflexivity.
Qed.

(** X15.  Cleaning a cleaned answer changes nothing. *)
Theorem cleanJsonString_twice_is_once (text : jsstring) :
  cleanJsonString (cleanJsonString text) = cleanJsonString text.
Proof.
  assert (Hno : includes (lit "```") (cleanJsonString text) = false).
  { unfold cleanJsonString. apply absent_after_trim.
    apply (fence_removed (fun _ _ => [])). reflexivity. }
  set (c := cleanJsonString text) in *.
  assert (Hjson : includes (lit "```json") c = false).
  { destruct (includes (lit "```json") c) eqn:E; [|reflexivity].
    rewrite (includes_prefix (lit "```") (lit "json") c E) in Hno. discriminate Hno. }
  unfold cleanJsonString at 1. unfold replace_all.
  change re_fence_json with (literal (lit "```json")).
  rewrite (replace_literal_absent (lit "```json")) by (discriminate || exact Hjson).
  change re_fence with (literal (lit "```")).
  rewrite (replace_literal_absent (lit "```")) by (discriminate || exact Hno).
  subst c. unfold cleanJsonString. apply trim_idempotent.
Qed.

(** X16.  The first step of fixMermaidCode leaves no code fence either. *)
Theorem normalized_code_has_no_fence (code : jsstring) :
  includes (lit "```") (normalizeEnv code) = false.
Proof.
  unfold normalizeEnv. apply absent_after_trim.
  apply (fence_removed (fun _ _ => [])). reflexivity.
Qed.
End FenceFacts.

Module FlowFacts.
Import Js Regex Normalizer StringFacts RegexFacts NormalizerFacts.

(** The text without its double quotes. *)
Definition without_quotes (s : jsstring) : jsstring :=
  filter (fun c => negb (c =? QUOTE)) s.

Definition flow_header (code : jsstring) : bool :=
  startsWith (lit "flowchart") (header_of (normalizeEnv code))
  || startsWith (lit "graph") (header_of (normalizeEnv code)).

Definition plain_flow : jsstring :=
  lit "graph TD" ++ [LF] ++ lit "A --> B".

Lemma qins_app s t : qins s t -> forall s' t', qins s' t' -> qins (s ++ s') (t ++ t').
Proof.
  induction 1 as [|x s t H IH|s t H IH]; intros s' t' H'; simpl.
  - exact H'.
  - apply qins_keep, IH, H'.
  - apply qins_quote, IH, H'.
Qed.

Lemma qins_join ls : qins (join_lines ls) (join_lines (map fixFlowLine ls)).
Proof.
  induction ls as [|l ls IH]; [constructor|].
  destruct ls as [|l' ls].
  - simpl. apply fixFlowLine_qins.
  - change (qins (l ++ LF :: join_lines (l' :: ls))
              (fixFlowLine l ++ LF :: join_lines (map fixFlowLine (l' :: ls)))).
    apply qins_app; [apply fixFlowLine_qins|]. apply qins_keep, IH.
Qed.

Lemma qins_without_quotes s t : qins s t -> without_quotes t = without_quotes s.
Proof.
  induction 1 as [|x s t H IH|s t H IH]; [reflexivity| |].
  - unfold without_quotes in *. simpl. rewrite IH. reflexivity.
  - exact IH.
Qed.

Lemma qins_length s t : qins s t -> (List.length s <= List.length t)%nat.
Proof. induction 1; simpl; lia. Qed.

Lemma label_run_no_opener o c s :
  ~ In o s -> label_run o c Outside s = s.
Proof.
  induction s as [|y s IH]; intros H; [reflexivity|].
  cbn [label_run label_step fst snd].
  assert (Hy : isChar o y = false).
  { apply N.eqb_neq. intros ->. apply H. left. reflexivity. }
  rewrite Hy. simpl andb. cbv iota.
  rewrite IH by (intros Hin; apply H; right; exact Hin). reflexivity.
Qed.

Lemma protect_labels_no_opener line :
  (forall o, In o (lit "[({") -> ~ In o line) -> protect_labels line = line.
Proof.
  intros H. unfold protect_labels.
  rewrite (quote_labels_run (chr "[") (chr "]")) by discriminate.
  rewrite label_run_no_opener by (apply H; vm_compute; tauto).
  rewrite (quote_labels_run (chr "(") (chr ")")) by discriminate.
  rewrite label_run_no_opener by (apply H; vm_compute; tauto).
  rewrite (quote_labels_run (chr "{") (chr "}")) by discriminate.
  apply label_run_no_opener. apply H. vm_compute. tauto.
Qed.

Lemma in_line_in_text c s : forall l, In l (split_lines s) -> In c l -> In c s.
Proof.
  induction s as [|x s IH]; intros l Hl Hc.
  - simpl in Hl. destruct Hl as [<-|[]]. exact Hc.
  - simpl in Hl. destruct (x =? LF).
    + destruct Hl as [<-|Hl]; [destruct Hc|]. right. eapply IH; eassumption.
    + pose proof (split_lines_nonempty s) as Hne.
      destruct (split_lines s) as [|l0 ls]; [contradiction|].
      destruct Hl as [<-|Hl].
      * destruct Hc as [<-|Hc]; [left; reflexivity|].
        right. apply (IH l0); [left; reflexivity | exact Hc].
      * right. apply (IH l); [right; exact Hl | exact Hc].
Qed.

(** X17.  On an input of the flow family fixMermaidCode only puts double
    quotes into the normalized text: no character is taken away, changed
    or moved, so both texts are the same once the double quotes are left
    out, and the output is at least as long. *)
Theorem flow_rule_only_adds_quotes code :
  flow_header code = true ->
  qins (normalizeEnv code) (fixMermaidCode code) /\
  without_quotes (fixMermaidCode code) = without_quotes (normalizeEnv code) /\
  (List.length (normalizeEnv code) <= List.length (fixMermaidCode code))%nat.
Proof.
  intros H.
  assert (Hq : qins (normalizeEnv code) (fixMermaidCode code)).
  { rewrite (fixMermaidCode_flow code H). unfold fixFlowchart.
    rewrite <- (join_split (normalizeEnv code)) at 1. apply qins_join. }
  split; [exact Hq|]. split; [apply qins_without_quotes, Hq | apply qins_length, Hq].
Qed.

(** X18.  A flow diagram without an opening bracket, parenthesis or brace
    comes back as its normalized text. *)
Theorem flow_text_without_labels_is_kept code :
  flow_header code = true ->
  (forall o, In o (lit "[({") -> ~ In o (normalizeEnv code)) ->
  fixMermaidCode code = normalizeEnv code.
Proof.
  intros H Hno. rewrite (fixMermaidCode_flow code H). unfold fixFlowchart.
  rewrite <- (join_split (normalizeEnv code)) at 2. f_equal.
  rewrite <- (map_id (split_lines (normalizeEnv code))) at 2.
  apply map_ext_in. intros l Hl. unfold fixFlowLine.
  destruct (includes (lit "flowchart") l || includes (lit "graph") l); [reflexivity|].
  apply protect_labels_no_opener. intros o Ho Hin.
  apply (Hno o Ho). eapply in_line_in_text; eassumption.
Qed.

(** ** Concrete runs *)

Lemma quotes_added_to_a_graph :
  flow_header sample_flow = true /\
  qins (normalizeEnv sample_flow) (fixMermaidCode sample_flow) /\
  without_quotes (fixMermaidCode sample_flow) = without_quotes (normalizeEnv sample_flow) /\
  (List.length (normalizeEnv sample_flow) <= List.length (fixMermaidCode sample_flow))%nat.
Proof.
  assert (H : flow_header sample_flow = true) by (vm_compute; reflexivity).
  split; [exact H|]. exact (flow_rule_only_adds_quotes sample_flow H).
Defined.

Lemma plain_graph_is_kept :
  flow_header plain_flow = true /\
  (forall o, In o (lit "[({") -> ~ In o (normalizeEnv plain_flow)) /\
  fixMermaidCode plain_flow = normalizeEnv plain_flow.
Proof.
  assert (H : flow_header plain_flow = true) by (vm_compute; reflexivity).
  assert (Hno : forall o, In o (lit "[({") -> ~ In o (normalizeEnv plain_flow)).
  { intros o Ho. vm_compute in Ho. vm_compute.
    intros Hin. repeat (destruct Ho as [<-|Ho]; [intuition discriminate|]). exact Ho. }
  split; [exact H|]. split; [exact Hno|].
  exact (flow_text_without_labels_is_kept plain_flow H Hno).
Defined.

End FlowFacts.

Module UsecaseFacts.
Import Js Regex Normalizer StringFacts RegexFacts.

(** The replacement of the rule without its early return. *)
Definition quoted_label : replacer :=
  fun _ caps => lit "(" ++ [QUOTE] ++ trim (group 0 caps) ++ [QUOTE] ++ lit ")".

Definition no_Bol (r : regex) : bool :=
  forallb (fun a => match a with Bol => false | Cls _ _ _ => true end) r.

(** What may follow a label for the rule to stop there: nothing, a
    double quote or a line feed. *)
Definition stops (B : jsstring) : bool :=
  match B with
  | [] => true
  | c :: _ => negb (notQuoteNorLF c)
  end.

Lemma replace_from_agree r f g :
  (forall prev s caps rest m,
     match_atoms r prev s = Some (caps, rest) -> f m caps = g m caps) ->
  forall s prev skip, replace_from r f prev skip s = replace_from r g prev skip s.
Proof.
  intros H. induction s as [|x s IH]; intros prev skip.
  - destruct skip; [|reflexivity]. simpl.
    destruct (match_atoms r prev []) as [[caps rest]|] eqn:E; [|reflexivity].
    eapply H, E.
  - destruct skip as [|n]; [|simpl; apply IH].
    rewrite !replace_from_cons.
    destruct (match_atoms r prev (x :: s)) as [[caps rest]|] eqn:E.
    + rewrite (H _ _ _ _ _ E).
      destruct (List.length (x :: s) - List.length rest)%nat; rewrite IH; reflexivity.
    + rewrite IH. reflexivity.
Qed.

Lemma paren_label_capture prev s caps rest :
  match_atoms re_paren_label prev s = Some (caps, rest) ->
  exists content,
    caps = [content] /\ content <> [] /\ forallb notQuoteNorLF content = true.
Proof.
  intros H. unfold re_paren_label in H.
  apply match_Cls in H. destruct H as (p1 & s1 & caps1 & _ & _ & _ & H & ->).
  apply match_Cls in H. destruct H as (p2 & s2 & caps2 & _ & Hall & Hq & H & ->).
  apply match_Cls in H. destruct H as (p3 & s3 & caps3 & _ & _ & _ & H & ->).
  simpl in H. injection H as <- _.
  exists p2. split; [reflexivity|]. split; [|exact Hall].
  intros ->. simpl in Hq. lia.
Qed.

Lemma content_has_no_leading_quote content :
  content <> [] -> forallb notQuoteNorLF content = true ->
  startsWith [QUOTE] content = false.
Proof.
  intros Hne Hall. destruct content as [|c content]; [congruence|].
  simpl in Hall. apply andb_true_iff in Hall. destruct Hall as [Hc _].
  unfold notQuoteNorLF in Hc. apply negb_true_iff, orb_false_iff in Hc.
  destruct Hc as [Hc _].
  change (startsWith [QUOTE] (c :: content)) with ((QUOTE =? c) && true).
  rewrite N.eqb_sym, Hc. reflexivity.
Qed.

(** X19.  The early return of the replacer is never taken: what is captured
    holds no double quote, so every match is replaced by its trimmed
    content between quotes and parentheses. *)
Theorem usecase_match_is_always_rewritten fixed :
  fixUsecaseDiagram fixed = replace_all re_paren_label quoted_label fixed.
Proof.
  unfold fixUsecaseDiagram, replace_all. apply replace_from_agree.
  intros prev s caps rest m H.
  destruct (paren_label_capture _ _ _ _ H) as (content & -> & Hne & Hall).
  unfold usecase_replacer, quoted_label. cbv zeta.
  change (group 0 [content]) with content.
  rewrite (content_has_no_leading_quote content Hne Hall). reflexivity.
Qed.


Lemma cont_prev cap r' :
  (forall prev prev' s, match_atoms r' prev s = match_atoms r' prev' s) ->
  forall prev prev' c rest, cont cap r' prev c rest = cont cap r' prev' c rest.
Proof.
  intros IH prev prev' c rest. unfold cont.
  rewrite (IH (last_of c prev) (last_of c prev')). reflexivity.
Qed.

Lemma match_atoms_prev r :
  no_Bol r = true ->
  forall prev prev' s, match_atoms r prev s = match_atoms r prev' s.
Proof.
  induction r as [|a r IH]; [reflexivity|].
  destruct a as [|cap p q]; [discriminate|].
  intros H prev prev' s. specialize (IH H).
  pose proof (cont_prev cap r IH) as Hc.
  destruct q.
  - rewrite !match_atoms_One. destruct s as [|x s]; [reflexivity|].
    destruct (p x); [apply Hc | reflexivity].
  - rewrite !match_atoms_Opt. destruct s as [|x s]; [apply Hc|].
    destruct (p x); [|apply Hc].
    rewrite (Hc prev prev' [x] s), (Hc prev prev' [] (x :: s)). reflexivity.
  - rewrite !match_atoms_Star. apply greedy_ext. intros. apply Hc.
  - rewrite !match_atoms_Plus. destruct s as [|x s]; [reflexivity|].
    destruct (p x); [|reflexivity]. apply greedy_ext. intros. apply Hc.
  - rewrite !match_atoms_LazyStar. apply lazy_ext. intros. apply Hc.
Qed.

Lemma replace_from_prev r f :
  no_Bol r = true ->
  forall s prev prev', replace_from r f prev 0 s = replace_from r f prev' 0 s.
Proof.
  intros H s prev prev'. destruct s as [|x s].
  - rewrite !replace_from_nil, (match_atoms_prev r H prev prev'). reflexivity.
  - rewrite !replace_from_cons, (match_atoms_prev r H prev prev'). reflexivity.
Qed.

(** Greedy repetition with its backtracking: the run that is kept is the
    longest one after which the continuation succeeds. *)
Lemma greedy_last_success {R} (p : jschar -> bool) (run : jsstring) :
  forall (k : jsstring -> jsstring -> option R) (rest : jsstring) (r : R),
  forallb p run = true ->
  k run rest = Some r ->
  (forall c rest', c <> [] -> rest = c ++ rest' -> forallb p c = true ->
                   k (run ++ c) rest' = None) ->
  greedy p k (run ++ rest) = Some r.
Proof.
  induction run as [|y run IH]; intros k rest r Hrun Hk Hlater.
  - simpl app. destruct rest as [|x rest]; [exact Hk|].
    simpl. destruct (p x) eqn:Hx; [|exact Hk].
    destruct (greedy p (fun c => k (x :: c)) rest) as [r'|] eqn:E; [|exact Hk].
    destruct (greedy_sound _ _ _ _ E) as (c & rest' & -> & Hc & Hk').
    assert (Hnone : k ([] ++ x :: c) rest' = None).
    { apply Hlater; [discriminate | reflexivity |]. simpl. rewrite Hx. exact Hc. }
    simpl app in Hnone. rewrite Hnone in Hk'. discriminate Hk'.
  - simpl in Hrun. apply andb_true_iff in Hrun. destruct Hrun as [Hy Hrun].
    simpl. rewrite Hy.
    rewrite (IH (fun c => k (y :: c)) rest r Hrun Hk Hlater). reflexivity.
Qed.

Lemma closing_parenthesis_is_content : notQuoteNorLF (chr ")") = true.
Proof. reflexivity. Qed.

Lemma match_paren_label prev content B :
  content <> [] ->
  forallb notQuoteNorLF content = true ->
  stops B = true ->
  match_atoms re_paren_label prev (chr "(" :: content ++ chr ")" :: B)
    = Some ([content], B).
Proof.
  intros Hne Hall Hstop. unfold re_paren_label.
  rewrite match_atoms_One. change (isChar (chr "(") (chr "(")) with true. cbv iota.
  unfold cont at 1. rewrite match_atoms_Plus.
  destruct content as [|c0 content]; [congruence|].
  simpl in Hall. apply andb_true_iff in Hall. destruct Hall as [Hc0 Hall].
  simpl app. cbv iota. rewrite Hc0.
  rewrite (greedy_last_success notQuoteNorLF content _ (chr ")" :: B)
             ([c0 :: content], B)); [reflexivity | exact Hall | |].
  - unfold cont. rewrite match_atoms_One.
    change (isChar (chr ")") (chr ")")) with true. cbv iota. reflexivity.
  - intros c rest' Hc Hsplit Hpc.
    destruct c as [|x c]; [congruence|].
    injection Hsplit as <- HB.
    unfold cont. rewrite match_atoms_One.
    destruct c as [|y c].
    + simpl in HB. subst rest'.
      destruct B as [|b B]; [reflexivity|].
      simpl in Hstop. apply negb_true_iff in Hstop.
      destruct (isChar (chr ")") b) eqn:Eb; [|reflexivity].
      apply N.eqb_eq in Eb. subst b. discriminate Hstop.
    + simpl in HB. subst B. simpl in Hstop. apply negb_true_iff in Hstop.
      simpl in Hpc. rewrite Hstop in Hpc. simpl in Hpc. discriminate Hpc.
Qed.

Lemma copy_before_parenthesis f A :
  forallb (fun c => negb (c =? chr "(")) A = true ->
  forall S prev,
  replace_from re_paren_label f prev 0 (A ++ S)
    = A ++ replace_from re_paren_label f None 0 S.
Proof.
  induction A as [|x A IH]; intros HA S prev.
  - apply replace_from_prev. reflexivity.
  - simpl in HA. apply andb_true_iff in HA. destruct HA as [Hx HA].
    simpl app. rewrite replace_from_no_match.
    + rewrite (IH HA). reflexivity.
    + apply negb_true_iff in Hx.
      assert (Hx' : isChar (chr "(") x = false)
        by (unfold isChar; rewrite N.eqb_sym; exact Hx).
      unfold re_paren_label. rewrite match_atoms_One, Hx'. reflexivity.
Qed.

(** X20.  A label in parentheses that has no double quote and no line feed and
    is followed by the end of the text, a double quote or a line feed: the
    rule puts its trimmed content between quotes, whatever parentheses the
    content itself holds, and goes on with what follows. *)
Theorem label_runs_to_the_last_parenthesis A content B :
  forallb (fun c => negb (c =? chr "(")) A = true ->
  content <> [] ->
  forallb notQuoteNorLF content = true ->
  stops B = true ->
  fixUsecaseDiagram (A ++ lit "(" ++ content ++ lit ")" ++ B)
    = A ++ lit "(" ++ [QUOTE] ++ trim content ++ [QUOTE] ++ lit ")"
        ++ fixUsecaseDiagram B.
Proof.
  intros HA Hne Hall Hstop. unfold fixUsecaseDiagram, replace_all.
  rewrite (copy_before_parenthesis _ A HA). f_equal.
  change (lit "(" ++ content ++ lit ")" ++ B) with (chr "(" :: content ++ chr ")" :: B).
  rewrite (replace_from_match re_paren_label usecase_replacer None
             (chr "(" :: content ++ chr ")" :: B) [content] B
             (chr "(" :: content ++ [chr ")"])).
  - unfold usecase_replacer. cbv zeta. change (group 0 [content]) with content.
    rewrite (content_has_no_leading_quote content Hne Hall).
    rewrite (replace_from_prev re_paren_label usecase_replacer eq_refl B _ None).
    rewrite <- !app_assoc. reflexivity.
  - apply match_paren_label; assumption.
  - simpl. rewrite <- app_assoc. reflexivity.
  - discriminate.
Qed.

(** ** A concrete run *)

Lemma two_labels_on_a_line_become_one :
  forallb (fun c => negb (c =? chr "(")) (lit "User --> ") = true /\
  lit "Log in) --> (Log out" <> [] /\
  forallb notQuoteNorLF (lit "Log in) --> (Log out") = true /\
  stops [LF] = true /\
  fixUsecaseDiagram (lit "User --> " ++ lit "(" ++ lit "Log in) --> (Log out" ++ lit ")" ++ [LF])
    = lit "User --> " ++ lit "(" ++ [QUOTE] ++ trim (lit "Log in) --> (Log out")
        ++ [QUOTE] ++ lit ")" ++ fixUsecaseDiagram [LF].
Proof.
  assert (H1 : forallb (fun c => negb (c =? chr "(")) (lit "User --> ") = true)
    by reflexivity.
  assert (H2 : lit "Log in) --> (Log out" <> []) by discriminate.
  assert (H3 : forallb notQuoteNorLF (lit "Log in) --> (Log out") = true) by reflexivity.
  assert (H4 : stops [LF] = true) by reflexivity.
  split; [exact H1|]. split; [exact H2|]. split; [exact H3|]. split; [exact H4|].
  exact (label_runs_to_the_last_parenthesis _ _ _ H1 H2 H3 H4).
Defined.

End UsecaseFacts.

(** * Part VII: properties of the service *)

Module ServiceFacts.
Import Js Normalizer Session Service StringFacts SessionFacts.
Local Open Scope Z_scope.

Definition too_many_requests : ErrorObject :=
  mkError (lit "ApiError") (lit "quota") (Some 429) None.

Definition syntax_error : ErrorObject :=
  mkError (lit "SyntaxError") (lit "Unexpected token") None None.

(** A parser for the concrete runs: a text that starts with a brace is
    read as a diagram whose code is the text after the brace, anything
    else is a syntax error. *)
Definition parse_after_brace (text : jsstring) : Parsed jsstring :=
  match text with
  | c :: code =>
      if (c =? chr "{")%N
      then ParsedAs (withMermaidCode code (sample mermaid "answer"))
      else ParseFails syntax_error
  | [] => ParseFails syntax_error
  end.

Section Facts.
Variable Json : Type.
Variable parseResponse : jsstring -> Parsed Json.

Lemma nonempty_app (a b : jsstring) : isEmpty a = false -> isEmpty (a ++ b) = false.
Proof. destruct a; [discriminate | reflexivity]. Qed.

Lemma errorMessage_nonempty (e : ErrorObject) : isEmpty (errorMessage e) = false.
Proof.
  unfold errorMessage.
  destruct (eqb (err_name e) (lit "TypeError") && includes (lit "fetch") (err_message e));
    [reflexivity|].
  destruct (statusOf e) as [status|].
  - repeat match goal with
           | |- context [if ?b then _ else _] => destruct b eqn:?; try reflexivity
           end.
  - repeat match goal with
           | |- context [if ?b then _ else _] => destruct b eqn:?; try reflexivity
           end.
    assumption.
Qed.

Lemma plain_message (m : jsstring) :
  isEmpty m = false ->
  includes (lit "API key") m = false ->
  includes (lit "quota") m = false ->
  includes (lit "safety") m = false ->
  errorMessage (newError m) = m.
Proof.
  intros H0 H1 H2 H3. unfold errorMessage.
  change (err_name (newError m)) with (lit "Error").
  change (err_message (newError m)) with m.
  change (eqb (lit "Error") (lit "TypeError")) with false.
  change (statusOf (newError m)) with (@None Z).
  simpl andb. cbv iota. rewrite H0, H1, H2, H3. reflexivity.
Qed.

Lemma thrown_is_nonempty hasApiKey api m :
  generateVisualization parseResponse hasApiKey api = Throws m -> isEmpty m = false.
Proof.
  unfold generateVisualization.
  destruct hasApiKey; simpl negb; cbv iota.
  - destruct api as [e | text reason].
    + intros H. injection H as <-. apply errorMessage_nonempty.
    + destruct (isEmpty text).
      * destruct (isBlockReason reason); intros H; injection H as <-;
          apply errorMessage_nonempty.
      * destruct (processText parseResponse text); [discriminate|].
        intros H. injection H as <-. apply errorMessage_nonempty.
  - intros H. injection H as <-. reflexivity.
Qed.

(** X21.  Whatever generateVisualization throws has a message, so the toast of
    processPrompt shows that message and never its own fallback text; the
    stack and the history stay as they were. *)
Theorem thrown_message_is_what_the_toast_shows hasApiKey api m promptText isRefinement
    newId now (s : AppState Json) :
  isEmpty (trim promptText) = false ->
  generateVisualization parseResponse hasApiKey api = Throws m ->
  let s' := processPrompt promptText isRefinement
              (generateVisualization parseResponse hasApiKey api) newId now s in
  isEmpty m = false /\
  toast s' = Some (mkToast m error) /\
  vizStack s' = vizStack s /\
  stackIndex s' = stackIndex s /\
  history s' = history s.
Proof.
  intros Hp Hg s'. pose proof (thrown_is_nonempty _ _ _ Hg) as Hm.
  subst s'. rewrite Hg. unfold processPrompt. rewrite Hp.
  unfold orElse. rewrite Hm. repeat split; reflexivity.
Qed.

(** X22.  What generateVisualization returns is the parsed answer; when that
    is a diagram with code, the code passed the check for mind maps and
    journeys as it was parsed, and what comes back is fixMermaidCode of
    it. *)
Theorem returned_diagram_passed_the_check hasApiKey api (viz : VizResponse Json) :
  generateVisualization parseResponse hasApiKey api = Returns viz ->
  hasApiKey = true /\
  exists text reason vizData,
    api = ApiAnswers text reason /\
    isEmpty text = false /\
    parseResponse (cleanJsonString text) = ParsedAs vizData /\
    ((forall code,
        visualizationType vizData = mermaid ->
        mermaidCode vizData = Some code ->
        isEmpty code = false ->
        viz = withMermaidCode (fixMermaidCode code) vizData /\
        startsWith (lit "mindmap") (trim code) = false /\
        startsWith (lit "journey") (trim code) = false /\
        startsWith (lit "user-journey") (trim code) = false) /\
     (visualizationType vizData <> mermaid -> viz = vizData) /\
     (orEmpty (mermaidCode vizData) = [] -> viz = vizData)).
Proof.
  unfold generateVisualization.
  destruct hasApiKey; simpl negb; cbv iota; [|discriminate].
  destruct api as [e | text reason]; [discriminate|].
  destruct (isEmpty text) eqn:Htext.
  { destruct (isBlockReason reason); discriminate. }
  unfold processText.
  destruct (parseResponse (cleanJsonString text)) as [vizData | e] eqn:Hparse;
    [|discriminate].
  destruct (checkDiagram vizData) as [v | e] eqn:Hcheck; [|discriminate].
  intros H. injection H as <-.
  split; [reflexivity|]. exists text, reason, vizData.
  split; [reflexivity|]. split; [exact Htext|]. split; [exact Hparse|].
  unfold checkDiagram in Hcheck.
  split; [|split].
  - intros code Ht Hc Hne. rewrite Ht, Hc, Hne in Hcheck.
    destruct (startsWith (lit "mindmap") (trim code)); [discriminate|].
    destruct (startsWith (lit "journey") (trim code)); [discriminate|].
    destruct (startsWith (lit "user-journey") (trim code)); [discriminate|].
    simpl orb in Hcheck. cbv iota in Hcheck. injection Hcheck as <-.
    repeat split; reflexivity.
  - intros Ht. destruct (visualizationType vizData); try congruence;
      destruct (mermaidCode vizData); congruence.
  - intros Hc. destruct (visualizationType vizData);
      destruct (mermaidCode vizData) as [code|]; try congruence.
    simpl in Hc. subst code. simpl in Hcheck. congruence.
Qed.

(** X23.  An answer without text: the caller gets the safety-block message
    when the finish reason is SAFETY or BLOCKLIST (not the message written
    where it is thrown), else the empty-response message. *)
Theorem empty_answer_messages text reason :
  isEmpty text = true ->
  generateVisualization parseResponse true (ApiAnswers text reason)
    = Throws (if isBlockReason reason then msg_safety else msg_empty_response) /\
  msg_safety <> msg_blocked.
Proof.
  intros H. unfold generateVisualization. simpl negb. cbv iota. rewrite H.
  split; [|discriminate].
  destruct (isBlockReason reason).
  - assert (E : errorMessage (newError msg_blocked) = msg_safety) by (vm_compute; reflexivity).
    rewrite E. reflexivity.
  - rewrite plain_message by (vm_compute; reflexivity). reflexivity.
Qed.

Lemma trim_nonempty (code : jsstring) p :
  startsWith p (trim code) = true -> p <> [] -> isEmpty code = false.
Proof.
  intros H Hp. destruct code; [|reflexivity].
  destruct p; [congruence | discriminate H].
Qed.

(** X24.  A diagram whose code starts with mindmap, journey or user-journey is
    refused, and the message of the refusal reaches the caller as it is
    written. *)
Theorem unsupported_diagram_is_refused text reason vizData code :
  isEmpty text = false ->
  parseResponse (cleanJsonString text) = ParsedAs vizData ->
  visualizationType vizData = mermaid ->
  mermaidCode vizData = Some code ->
  (startsWith (lit "mindmap") (trim code) = true ->
   generateVisualization parseResponse true (ApiAnswers text reason) = Throws msg_mindmap) /\
  (startsWith (lit "mindmap") (trim code) = false ->
   startsWith (lit "journey") (trim code) || startsWith (lit "user-journey") (trim code) = true ->
   generateVisualization parseResponse true (ApiAnswers text reason) = Throws msg_journey).
Proof.
  intros Htext Hparse Ht Hc.
  assert (Hm : errorMessage (rethrowParseError (newError msg_mindmap)) = msg_mindmap)
    by (vm_compute; reflexivity).
  assert (Hj : errorMessage (rethrowParseError (newError msg_journey)) = msg_journey)
    by (vm_compute; reflexivity).
  unfold generateVisualization, processText, checkDiagram.
  simpl negb. cbv iota. rewrite Htext, Hparse, Ht, Hc.
  split.
  - intros H. rewrite (trim_nonempty code _ H) by discriminate.
    rewrite H, Hm. reflexivity.
  - intros H0 H.
    assert (Hne : isEmpty code = false).
    { apply orb_true_iff in H. destruct H as [H|H];
        apply (trim_nonempty code _ H); discriminate. }
    rewrite Hne, H0, H, Hj. reflexivity.
Qed.

(** X25.  An answer that does not parse: unless the parser's message says
    [not supported], the caller gets the malformed-data message, whatever
    the name and the status of the parser's error. *)
Theorem malformed_answer_message text reason e :
  isEmpty text = false ->
  parseResponse (cleanJsonString text) = ParseFails e ->
  includes (lit "not supported") (err_message e) = false ->
  generateVisualization parseResponse true (ApiAnswers text reason) = Throws msg_malformed.
Proof.
  intros Htext Hparse Hno.
  unfold generateVisualization, processText, rethrowParseError.
  simpl negb. cbv iota. rewrite Htext, Hparse, Hno, andb_false_r.
  rewrite plain_message by (vm_compute; reflexivity). reflexivity.
Qed.

End Facts.

(** ** Concrete runs *)

Lemma rate_limit_on_the_toast :
  isEmpty (trim (lit "a pie chart")) = false /\
  generateVisualization parse_after_brace true (ApiThrows too_many_requests)
    = Throws msg_429 /\
  isEmpty msg_429 = false /\
  toast (processPrompt (lit "a pie chart") true
           (generateVisualization parse_after_brace true (ApiThrows too_many_requests))
           (lit "7") 7 (two_entries_at 1))
    = Some (mkToast msg_429 error) /\
  vizStack (processPrompt (lit "a pie chart") true
              (generateVisualization parse_after_brace true (ApiThrows too_many_requests))
              (lit "7") 7 (two_entries_at 1))
    = vizStack (two_entries_at 1).
Proof.
  assert (Hp : isEmpty (trim (lit "a pie chart")) = false) by reflexivity.
  assert (Hg : generateVisualization parse_after_brace true (ApiThrows too_many_requests)
               = Throws msg_429) by (vm_compute; reflexivity).
  destruct (thrown_message_is_what_the_toast_shows _ parse_after_brace true
              (ApiThrows too_many_requests) msg_429 (lit "a pie chart") true
              (lit "7") 7 (two_entries_at 1) Hp Hg) as (H1 & H2 & H3 & _).
  split; [exact Hp|]. split; [exact Hg|]. split; [exact H1|]. split; assumption.
Defined.

Lemma fenced_graph_is_returned :
  generateVisualization parse_after_brace true
    (ApiAnswers (lit "```json{graph TD```") None)
    = Returns (withMermaidCode (lit "graph TD") (sample mermaid "answer")) /\
  exists text reason vizData,
    ApiAnswers (lit "```json{graph TD```") None = ApiAnswers text reason /\
    isEmpty text = false /\
    parse_after_brace (cleanJsonString text) = ParsedAs vizData /\
    ((forall code,
        visualizationType vizData = mermaid ->
        mermaidCode vizData = Some code ->
        isEmpty code = false ->
        withMermaidCode (lit "graph TD") (sample mermaid "answer")
          = withMermaidCode (fixMermaidCode code) vizData /\
        startsWith (lit "mindmap") (trim code) = false /\
        startsWith (lit "journey") (trim code) = false /\
        startsWith (lit "user-journey") (trim code) = false) /\
     (visualizationType vizData <> mermaid ->
      withMermaidCode (lit "graph TD") (sample mermaid "answer") = vizData) /\
     (orEmpty (mermaidCode vizData) = [] ->
      withMermaidCode (lit "graph TD") (sample mermaid "answer") = vizData)).
Proof.
  assert (Hg : generateVisualization parse_after_brace true
                 (ApiAnswers (lit "```json{graph TD```") None)
               = Returns (withMermaidCode (lit "graph TD") (sample mermaid "answer")))
    by (vm_compute; reflexivity).
  split; [exact Hg|].
  exact (proj2 (returned_diagram_passed_the_check _ parse_after_brace true _ _ Hg)).
Defined.

Lemma blocked_answer_is_a_safety_block :
  isEmpty (@nil jschar) = true /\
  generateVisualization parse_after_brace true (ApiAnswers [] (Some (lit "SAFETY")))
    = Throws msg_safety.
Proof.
  assert (H : isEmpty (@nil jschar) = true) by reflexivity.
  split; [exact H|].
  exact (proj1 (empty_answer_messages _ parse_after_brace [] (Some (lit "SAFETY")) H)).
Defined.

Lemma mindmap_answer_is_refused :
  isEmpty (lit "{ mindmap") = false /\
  parse_after_brace (cleanJsonString (lit "{ mindmap"))
    = ParsedAs (withMermaidCode (lit " mindmap") (sample mermaid "answer")) /\
  startsWith (lit "mindmap") (trim (lit " mindmap")) = true /\
  generateVisualization parse_after_brace true (ApiAnswers (lit "{ mindmap") None)
    = Throws msg_mindmap.
Proof.
  assert (Ht : isEmpty (lit "{ mindmap") = false) by reflexivity.
  assert (Hp : parse_after_brace (cleanJsonString (lit "{ mindmap"))
               = ParsedAs (withMermaidCode (lit " mindmap") (sample mermaid "answer")))
    by (vm_compute; reflexivity).
  assert (Hm : startsWith (lit "mindmap") (trim (lit " mindmap")) = true)
    by (vm_compute; reflexivity).
  split; [exact Ht|]. split; [exact Hp|]. split; [exact Hm|].
  exact (proj1 (unsupported_diagram_is_refused _ parse_after_brace (lit "{ mindmap") None
                  _ (lit " mindmap") Ht Hp eq_refl eq_refl) Hm).
Defined.

Lemma text_that_is_no_json_is_malformed :
  isEmpty (lit "not json") = false /\
  parse_after_brace (cleanJsonString (lit "not json")) = ParseFails syntax_error /\
  includes (lit "not supported") (err_message syntax_error) = false /\
  generateVisualization parse_after_brace true (ApiAnswers (lit "not json") None)
    = Throws msg_malformed.
Proof.
  assert (Ht : isEmpty (lit "not json") = false) by reflexivity.
  assert (Hp : parse_after_brace (cleanJsonString (lit "not json"))
               = ParseFails syntax_error) by (vm_compute; reflexivity).
  assert (Hn : includes (lit "not supported") (err_message syntax_error) = false)
    by (vm_compute; reflexivity).
  split; [exact Ht|]. split; [exact Hp|]. split; [exact Hn|].
  exact (malformed_answer_message _ parse_after_brace (lit "not json") None
           syntax_error Ht Hp Hn).
Defined.

End ServiceFacts.

(** * Part VIII: properties of the customization panel *)

Module CustomizationFacts.
Import Js Session Customization SessionFacts.
Local Open Scope Z_scope.

Definition two_series : list RechartsSeries :=
  [mkSeries (lit "sales") (Some (lit "#000000")) None None;
   mkSeries (lit "costs") None None None].

Definition chart_config (type : ChartType) : RechartsConfig unit unit :=
  mkConfig type [tt; tt; tt] two_series None (Some true) (Some false) tt.

Definition ocean : list jsstring := [lit "#0ea5e9"; lit "#22d3ee"].

Definition dark : list jsstring := [lit "#818cf8"; lit "#f472b6"; lit "#a78bfa"].

Definition chart (type : ChartType) : VizResponse (RechartsConfig unit unit) :=
  mkViz (Some (lit "chart")) recharts (lit "chart") [] (Some (lit "draw it")) None None None
    (Some (chart_config type)).

Definition chart_shown (type : ChartType) : AppState (RechartsConfig unit unit) :=
  setStackIndex 0 (setVizStack [chart type] (initialState [])).

Section Facts.
Variables Datum Other : Type.
Implicit Types (config : RechartsConfig Datum Other)
  (viz : VizResponse (RechartsConfig Datum Other))
  (s : AppState (RechartsConfig Datum Other)).

Lemma option_of_with_option key key' v config :
  option_of key' (with_option key v config)
    = if match key, key' with
         | showGrid, showGrid | showLegend, showLegend | showTooltip, showTooltip => true
         | _, _ => false
         end
      then v else option_of key' config.
Proof. destruct key, key'; reflexivity. Qed.

Lemma shown_after_click handler s viz updated :
  currentViz s = Some viz ->
  handler viz = Some updated ->
  currentViz (click handler s) = Some updated /\
  currentViz (handleUndo (click handler s)) = Some viz.
Proof.
  intros Hcur Hh. unfold click. rewrite Hcur, Hh. unfold handleCustomizationUpdate.
  destruct (currentViz_Some _ s viz Hcur) as [Hr Hnth].
  assert (Hr' : -1 <= stackIndex s < len (vizStack s)) by lia.
  destruct (pushToStack_spec _ updated s Hr') as (Hs & Hi & Hl & Hc).
  split; [exact Hc|].
  destruct (handleUndo_spec _ (pushToStack updated s)) as [Hus Hui].
  unfold currentViz. rewrite Hui, Hus, Hi, Hl.
  destruct (Z.ltb_spec 0 (stackIndex s + 1)); [|lia].
  replace (stackIndex s + 1 - 1) with (stackIndex s) by lia.
  destruct (Z.leb_spec 0 (stackIndex s)); [|lia].
  destruct (Z.ltb_spec (stackIndex s) (stackIndex s + 2)); [|lia].
  simpl andb. cbv iota. rewrite Hs.
  rewrite nth_error_app1 by (rewrite length_firstn; unfold len in *; lia).
  rewrite nth_error_firstn.
  destruct (Nat.ltb_spec (Z.to_nat (stackIndex s)) (Z.to_nat (stackIndex s + 1)));
    [exact Hnth | lia].
Qed.

Lemma nth_error_map_from {A B} (f : A -> nat -> B) (l : list A) :
  forall i k, nth_error (map_from f i l) k
              = option_map (fun x => f x (i + k)%nat) (nth_error l k).
Proof.
  induction l as [|x l IH]; intros i k.
  - destruct k; reflexivity.
  - destruct k as [|k]; simpl.
    + rewrite Nat.add_0_r. reflexivity.
    + rewrite IH. replace (S i + k)%nat with (i + S k)%nat by lia. reflexivity.
Qed.

Lemma length_map_from {A B} (f : A -> nat -> B) (l : list A) :
  forall i, List.length (map_from f i l) = List.length l.
Proof. induction l as [|x l IH]; intros i; simpl; [reflexivity | rewrite IH; reflexivity]. Qed.

Lemma renders_with_option key v config :
  renders (with_option key v config) = renders config.
Proof. destruct key; reflexivity. Qed.

Lemma renders_with_series newSeries config :
  List.length newSeries = List.length (series config) ->
  renders (with_series newSeries config) = renders config.
Proof.
  intros H. unfold renders. simpl.
  destruct (series config), newSeries; try discriminate H; reflexivity.
Qed.

Lemma shows_other_key key key' v config :
  key' <> key -> shows key' (with_option key v config) = shows key' config.
Proof.
  intros Hne. unfold shows, shouldShow.
  rewrite renders_with_option, option_of_with_option.
  destruct key, key'; try congruence; reflexivity.
Qed.

(** X26.  A click on a display option flips the flag that the renderer
    reads for it and leaves the two other flags, the chart type, the data
    and the series as they are; the panel's tick is that flag.  In a chart
    that is drawn the legend and the tooltip appear or disappear with
    their flags, and so does the grid, except in a pie chart, which never
    has a grid, and in a radar chart, which always has one: there the
    click changes nothing that is drawn.  The elements of the two other
    options stay as they are.  The new chart is written on top of the one
    on display, so an undo shows the old one again. *)
Theorem toggle_flips_the_option key s viz config :
  currentViz s = Some viz ->
  rechartsConfig viz = Some config ->
  exists config',
    currentViz (click (handleRechartsToggle key) s)
      = Some (withRechartsConfig config' viz) /\
    shouldShow key config' = negb (shouldShow key config) /\
    panelChecked key config' = shouldShow key config' /\
    (forall key', key' <> key -> option_of key' config' = option_of key' config) /\
    cfg_type config' = cfg_type config /\
    cfg_data config' = cfg_data config /\
    series config' = series config /\
    renders config' = renders config /\
    shows key config'
      = match key, cfg_type config with
        | showGrid, pie => false
        | showGrid, radar => renders config
        | _, _ => renders config && negb (shouldShow key config)
        end /\
    (key = showGrid -> cfg_type config = pie \/ cfg_type config = radar ->
     shows key config' = shows key config) /\
    (renders config = true ->
     key <> showGrid \/ (cfg_type config <> pie /\ cfg_type config <> radar) ->
     shows key config' = negb (shows key config)) /\
    (forall key', key' <> key -> shows key' config' = shows key' config) /\
    currentViz (handleUndo (click (handleRechartsToggle key) s)) = Some viz.
Proof.
  intros Hcur Hcfg.
  set (v := match option_of key config with None => false | Some b => negb b end).
  exists (with_option key (Some v) config).
  assert (Hh : handleRechartsToggle key viz
               = Some (withRechartsConfig (with_option key (Some v) config) viz)).
  { unfold handleRechartsToggle. rewrite Hcfg. reflexivity. }
  destruct (shown_after_click _ s viz _ Hcur Hh) as [H1 H2].
  assert (Hflag : shouldShow key (with_option key (Some v) config)
                  = negb (shouldShow key config)).
  { unfold shouldShow. rewrite option_of_with_option. subst v.
    destruct (option_of key config) as [[|]|]; destruct key; reflexivity. }
  assert (Hshows : shows key (with_option key (Some v) config)
                   = match key, cfg_type config with
                     | showGrid, pie => false
                     | showGrid, radar => renders config
                     | _, _ => renders config && negb (shouldShow key config)
                     end).
  { unfold shows. rewrite renders_with_option, Hflag.
    destruct key; try reflexivity.
    simpl cfg_type. destruct (cfg_type config); try reflexivity.
    - apply andb_false_r.
    - apply andb_true_r. }
  split; [exact H1|]. split; [exact Hflag|].
  split.
  { unfold panelChecked, shouldShow. rewrite option_of_with_option.
    destruct v; destruct key; reflexivity. }
  split.
  { intros key' Hne. rewrite option_of_with_option.
    destruct key, key'; try reflexivity; congruence. }
  split; [destruct key; reflexivity|].
  split; [destruct key; reflexivity|].
  split; [destruct key; reflexivity|].
  split; [apply renders_with_option|].
  split; [exact Hshows|].
  split.
  { intros -> Htype. rewrite Hshows. unfold shows.
    destruct Htype as [-> | ->]; [rewrite andb_false_r | rewrite andb_true_r]; reflexivity. }
  split.
  { intros Hr Hcase. rewrite Hshows. unfold shows. rewrite Hr. simpl andb.
    destruct key; try reflexivity.
    destruct Hcase as [Hk | [Hp Hra]]; [congruence|].
    destruct (cfg_type config); try reflexivity; congruence. }
  split; [|exact H2].
  intros key' Hne. apply shows_other_key, Hne.
Qed.

(** X27.  A click on a palette gives the series at index k the colour at
    index k modulo the size of the palette (none at all for the empty
    palette) and changes nothing else.  In the drawn chart the colour at
    position k is then that colour or, when there is none, the colour of
    the theme at k modulo the size of the theme's list; except in a pie
    chart, where every data point is drawn in the colour of the first
    series, that is in the first colour of the palette, or, when there is
    none, in the colour of the theme at the index of the data point. *)
Theorem palette_colours_go_round colors themeColors s viz config :
  currentViz s = Some viz ->
  rechartsConfig viz = Some config ->
  exists config',
    currentViz (click (handlePaletteChange colors) s)
      = Some (withRechartsConfig config' viz) /\
    cfg_type config' = cfg_type config /\
    cfg_data config' = cfg_data config /\
    (forall key, option_of key config' = option_of key config) /\
    List.length (series config') = List.length (series config) /\
    (forall k sr, nth_error (series config) k = Some sr ->
       nth_error (series config') k
         = Some (mkSeries (dataKey sr) (paletteColor colors k) (name sr) (stackId sr))) /\
    renders config' = renders config /\
    (renders config = true -> cfg_type config <> pie ->
     List.length (fills themeColors config') = List.length (series config) /\
     forall k, (k < List.length (series config))%nat ->
       nth_error (fills themeColors config') k
         = Some (orColor (paletteColor colors k) (cycle themeColors k))) /\
    (renders config = true -> cfg_type config = pie ->
     List.length (fills themeColors config') = List.length (cfg_data config) /\
     forall j, (j < List.length (cfg_data config))%nat ->
       nth_error (fills themeColors config') j
         = Some (orColor (paletteColor colors 0) (cycle themeColors j))).
Proof.
  intros Hcur Hcfg.
  set (f := fun (x : RechartsSeries) (i : nat) =>
              mkSeries (dataKey x) (paletteColor colors i) (name x) (stackId x)).
  set (config' := with_series (map_from f 0 (series config)) config).
  exists config'.
  assert (Hh : handlePaletteChange colors viz = Some (withRechartsConfig config' viz)).
  { unfold handlePaletteChange. rewrite Hcfg. reflexivity. }
  destruct (shown_after_click _ s viz _ Hcur Hh) as [H1 _].
  assert (Hlen : List.length (series config') = List.length (series config))
    by apply length_map_from.
  assert (Hnth : forall k sr, nth_error (series config) k = Some sr ->
                   nth_error (series config') k = Some (f sr k)).
  { intros k sr Hk. simpl series. rewrite nth_error_map_from, Hk. reflexivity. }
  assert (Hr : renders config' = renders config)
    by (apply renders_with_series, length_map_from).
  split; [exact H1|]. split; [reflexivity|]. split; [reflexivity|].
  split; [intros key; destruct key; reflexivity|].
  split; [exact Hlen|]. split; [exact Hnth|]. split; [exact Hr|].
  split.
  - intros Hren Hpie.
    assert (Hfills : fills themeColors config'
                     = map_from (fun x i => orColor (color x) (cycle themeColors i)) 0
                         (series config')).
    { unfold fills. rewrite Hr, Hren. simpl cfg_type.
      destruct (cfg_type config); try reflexivity. congruence. }
    rewrite Hfills. split; [rewrite length_map_from; exact Hlen|].
    intros k Hk. rewrite nth_error_map_from.
    destruct (nth_error (series config) k) as [sr|] eqn:E.
    + rewrite (Hnth k sr E). reflexivity.
    + apply nth_error_None in E. lia.
  - intros Hren Hpie.
    assert (Hs0 : exists first others, series config = first :: others).
    { unfold renders in Hren. rewrite Hpie in Hren.
      destruct (cfg_data config); [discriminate Hren|].
      destruct (series config) as [|first others]; [discriminate Hren|].
      exists first, others. reflexivity. }
    destruct Hs0 as (first & others & Hs0).
    assert (Hfills : fills themeColors config'
                     = map_from (fun (_ : Datum) index =>
                                   orColor (paletteColor colors 0) (cycle themeColors index))
                         0 (cfg_data config)).
    { unfold fills. rewrite Hr, Hren. simpl cfg_type. rewrite Hpie.
      simpl series. rewrite Hs0. reflexivity. }
    rewrite Hfills. split; [apply length_map_from|].
    intros j Hj. rewrite nth_error_map_from.
    destruct (nth_error (cfg_data config) j) as [d|] eqn:E.
    + reflexivity.
    + apply nth_error_None in E. lia.
Qed.

End Facts.

(** ** Concrete runs *)

Lemma hiding_the_legend_of_a_bar_chart :
  currentViz (chart_shown bar) = Some (chart bar) /\
  rechartsConfig (chart bar) = Some (chart_config bar) /\
  exists config',
    currentViz (click (handleRechartsToggle showLegend) (chart_shown bar))
      = Some (withRechartsConfig config' (chart bar)) /\
    shows showLegend (chart_config bar) = true /\
    shows showLegend config' = false /\
    shows showGrid config' = true /\
    currentViz (handleUndo (click (handleRechartsToggle showLegend) (chart_shown bar)))
      = Some (chart bar).
Proof.
  assert (H1 : currentViz (chart_shown bar) = Some (chart bar)) by reflexivity.
  assert (H2 : rechartsConfig (chart bar) = Some (chart_config bar)) by reflexivity.
  split; [exact H1|]. split; [exact H2|].
  destruct (toggle_flips_the_option unit unit showLegend (chart_shown bar) (chart bar)
              (chart_config bar) H1 H2)
    as (config' & Hc & _ & _ & _ & _ & _ & _ & _ & Hs & _ & _ & Hothers & Hundo).
  exists config'. split; [exact Hc|]. split; [reflexivity|].
  split; [rewrite Hs; reflexivity|].
  split; [rewrite (Hothers showGrid ltac:(discriminate)); reflexivity | exact Hundo].
Defined.

Lemma ocean_palette_on_a_pie_chart :
  currentViz (chart_shown pie) = Some (chart pie) /\
  rechartsConfig (chart pie) = Some (chart_config pie) /\
  exists config',
    currentViz (click (handlePaletteChange ocean) (chart_shown pie))
      = Some (withRechartsConfig config' (chart pie)) /\
    nth_error (series config') 1
      = Some (mkSeries (lit "costs") (Some (lit "#22d3ee")) None None) /\
    fills dark config' = [Some (lit "#0ea5e9"); Some (lit "#0ea5e9"); Some (lit "#0ea5e9")].
Proof.
  assert (H1 : currentViz (chart_shown pie) = Some (chart pie)) by reflexivity.
  assert (H2 : rechartsConfig (chart pie) = Some (chart_config pie)) by reflexivity.
  split; [exact H1|]. split; [exact H2|].
  destruct (palette_colours_go_round unit unit ocean dark (chart_shown pie) (chart pie)
              (chart_config pie) H1 H2)
    as (config' & Hc & _ & _ & _ & _ & Hn & _ & _ & Hpie).
  exists config'. split; [exact Hc|].
  split; [exact (Hn 1%nat _ eq_refl)|].
  destruct (Hpie eq_refl eq_refl) as [Hlen Hfill].
  pose proof (Hfill 0%nat ltac:(simpl; lia)) as F0.
  pose proof (Hfill 1%nat ltac:(simpl; lia)) as F1.
  pose proof (Hfill 2%nat ltac:(simpl; lia)) as F2.
  destruct (fills dark config') as [|a [|b [|c [|d l]]]]; try discriminate Hlen.
  simpl in F0, F1, F2. injection F0 as ->. injection F1 as ->. injection F2 as ->.
  reflexivity.
Defined.

End CustomizationFacts.

Import Js Regex Normalizer.
